(** * Heap dump monitor: record store, lifecycle tasks and intake filter

    A shallow embedding of [heap_monitor.py] and the properties of its
    dump lifecycle that the specification states.

    Python [str] values are modelled as lists of characters whose code
    points lie in the Latin-1 range (one [ascii] per code point).  The
    functions of the Python standard library that the program calls
    ([str.lower], [str.endswith], [os.path.*], [re.match],
    [datetime.strftime], [datetime.strptime]) are modelled by their
    documented behaviour on that range. *)

From Stdlib Require Import Ascii String QArith Sorted.
From stdpp Require Import base decidable option list gmap strings.
#[local] Open Scope nat_scope.
#[local] Open Scope list_scope.

(** ** Text *)

Abbreviation str := (list ascii).

(** A string literal of the source, as a list of characters. *)
Definition lit (s : string) : str := list_ascii_of_string s.

Definition chr (n : nat) : ascii := ascii_of_nat n.
Definition ord (c : ascii) : nat := nat_of_ascii c.

Definition ch_eqb (a b : ascii) : bool := bool_decide (a = b).

Definition slash : ascii := chr 47.
Definition dot : ascii := chr 46.
Definition underscore : ascii := chr 95.
Definition newline : ascii := chr 10.
Definition space : ascii := chr 32.
Definition dash : ascii := chr 45.

(** [str.lower] on one code point below 256: [A-Z] and the Latin-1
    capitals (U+00C0 to U+00DE, the multiplication sign excepted) move
    to their small letters, everything else stays. *)
Definition lower_char (c : ascii) : ascii :=
  let n := ord c in
  if (65 <=? n) && (n <=? 90) then chr (n + 32)
  else if (192 <=? n) && (n <=? 222) && negb (n =? 215) then chr (n + 32)
  else c.

Definition lower (s : str) : str := map lower_char s.

(** [s.endswith(suf)]: the last [len(suf)] characters of [s] are [suf]. *)
Definition endswith (s suf : str) : bool :=
  (length suf <=? length s) && bool_decide (drop (length s - length suf) s = suf).

Definition startswith (s pre : str) : bool :=
  bool_decide (take (length pre) s = pre).

(** [s.rfind(c)] for a one-character needle: the highest index holding
    [c]; [None] stands for Python's [-1]. *)
Fixpoint rfind (c : ascii) (s : str) : option nat :=
  match s with
  | [] => None
  | x :: s' =>
      match rfind c s' with
      | Some i => Some (S i)
      | None => if ch_eqb x c then Some 0 else None
      end
  end.

(** [s.rfind(c) + 1] as the slicing index the path functions use. *)
Definition rfind_succ (c : ascii) (s : str) : nat :=
  match rfind c s with Some i => S i | None => 0 end.

(** [s.rstrip('/')]. *)
Fixpoint rstrip (c : ascii) (s : str) : str :=
  match s with
  | [] => []
  | x :: s' =>
      match rstrip c s' with
      | [] => if ch_eqb x c then [] else [x]
      | t => x :: t
      end
  end.

Module posixpath.

(** [os.path.dirname]: everything up to the last slash, trailing
    slashes removed unless the head consists of slashes only. *)
Definition dirname (p : str) : str :=
  let i := rfind_succ slash p in
  let head := take i p in
  if bool_decide (head <> []) && negb (bool_decide (head = replicate (length head) slash))
  then rstrip slash head
  else head.

(** [os.path.basename]: everything after the last slash. *)
Definition basename (p : str) : str := drop (rfind_succ slash p) p.

(** The loop of [genericpath._splitext] that skips leading dots of the
    last component: is there a character other than a dot in
    [p[from:upto]]? *)
Definition has_non_dot (p : str) (from upto : nat) : bool :=
  existsb (fun c => negb (ch_eqb c dot)) (take (upto - from) (drop from p)).

(** [os.path.splitext]: split at the last dot of the last component,
    unless that component has only dots before it. *)
Definition splitext (p : str) : str * str :=
  match rfind dot p with
  | Some dotIndex =>
      let filenameIndex := rfind_succ slash p in
      if (filenameIndex <=? dotIndex) && has_non_dot p filenameIndex dotIndex
      then (take dotIndex p, drop dotIndex p)
      else (p, [])
  | None => (p, [])
  end.

(** [os.path.isabs]. *)
Definition isabs (p : str) : bool := startswith p [slash].

(** [os.path.join(a, b)]. *)
Definition join (a b : str) : str :=
  if startswith b [slash] then b
  else if bool_decide (a = []) || endswith a [slash] then a ++ b
  else a ++ slash :: b.

End posixpath.

(** ** Regular expressions

    The three patterns of [_extract_machine_name] are sequences of
    one-character classes under a quantifier, one of them in a capture
    group.  [re_match] is [re.match] for such sequences: anchored at the
    start, greedy, backtracking from the longest repetition down. *)

Inductive cset :=
  | CAny                 (* .    : any character but a newline *)
  | CNot (c : ascii)     (* [^c] : any character but c *)
  | CLit (c : ascii).    (* c *)

Inductive quant := Once | Star | Plus.

Record atom := Atom { a_set : cset; a_quant : quant; a_group : bool }.

Definition cset_mem (cs : cset) (c : ascii) : bool :=
  match cs with
  | CAny => negb (ch_eqb c newline)
  | CNot x => negb (ch_eqb c x)
  | CLit x => ch_eqb c x
  end.

(** Length of the longest prefix of [s] inside the class. *)
Fixpoint span (f : ascii -> bool) (s : str) : nat :=
  match s with
  | c :: s' => if f c then S (span f s') else 0
  | [] => 0
  end.

Definition with_group (g : bool) (txt : str) (gs : list str) : list str :=
  if g then txt :: gs else gs.

(** Try [n], [n-1], ..., [lo] repetitions, the first that lets the rest
    of the pattern match wins. *)
Definition backtrack (k : str -> option (list str)) (g : bool) (s : str) (lo : nat)
  : nat -> option (list str) :=
  fix go (n : nat) :=
    match k (drop n s) with
    | Some gs => Some (with_group g (take n s) gs)
    | None =>
        match n with
        | 0 => None
        | S n' => if lo <=? n' then go n' else None
        end
    end.

Fixpoint re_match (r : list atom) (s : str) : option (list str) :=
  match r with
  | [] => Some []
  | a :: r' =>
      let n := span (cset_mem (a_set a)) s in
      match a_quant a with
      | Once =>
          if 1 <=? n
          then with_group (a_group a) (take 1 s) <$> re_match r' (drop 1 s)
          else None
      | Star => backtrack (re_match r') (a_group a) s 0 n
      | Plus =>
          if 1 <=? n then backtrack (re_match r') (a_group a) s 1 n else None
      end
  end.

(** ** Machine names: [HeapDumpHandler._extract_machine_name] *)

(** [r'^([^_]+)_.*'] *)
Definition pat_machine_timestamp : list atom :=
  [Atom (CNot underscore) Plus true; Atom (CLit underscore) Once false;
   Atom CAny Star false].

(** [r'.*_([^_]+)_.*'] *)
Definition pat_prefix_machine_suffix : list atom :=
  [Atom CAny Star false; Atom (CLit underscore) Once false;
   Atom (CNot underscore) Plus true; Atom (CLit underscore) Once false;
   Atom CAny Star false].

(** [r'^([^.]+)\..*'] *)
Definition pat_without_extension : list atom :=
  [Atom (CNot dot) Plus true; Atom (CLit dot) Once false; Atom CAny Star false].

Definition patterns : list (list atom) :=
  [pat_machine_timestamp; pat_prefix_machine_suffix; pat_without_extension].

(** [match.group(1)] of a successful match. *)
Definition group1 (gs : list str) : str := hd [] gs.

(** The [for pattern in patterns] loop: the first pattern that matches
    returns its group. *)
Fixpoint first_match (ps : list (list atom)) (filename : str) : option str :=
  match ps with
  | [] => None
  | p :: ps' =>
      match re_match p filename with
      | Some gs => Some (group1 gs)
      | None => first_match ps' filename
      end
  end.

Definition _extract_machine_name (filename : str) : str :=
  match first_match patterns filename with
  | Some m => m
  | None => fst (posixpath.splitext filename)
  end.

(** ** Dates and times *)

(** A naive local [datetime], as [datetime.now()] returns it. *)
Record datetime := mkDatetime {
  year : nat; month : nat; day : nat;
  hour : nat; minute : nat; second : nat; microsecond : nat
}.

(** [datetime.date()]: the calendar day, compared field by field. *)
Record date := mkDate { d_year : nat; d_month : nat; d_day : nat }.

#[global] Instance date_eq_dec : EqDecision date.
Proof. solve_decision. Defined.

Definition date_of (t : datetime) : date := mkDate (year t) (month t) (day t).

Definition digit (n : nat) : ascii := chr (48 + n mod 10).

(** Zero-padded decimal fields, as [%m %d %H %M %S] print them (two
    digits), and the four digits [%Y] prints for the years 1000 to 9999.
    [strftime] hands [%Y] to the C library, which prints an earlier year
    without padding: [pad4] is the text of [%Y] from the year 1000 on
    only, which is where [datetime.now()] lies. *)
Definition pad2 (n : nat) : str := [digit (n / 10); digit n].
Definition pad4 (n : nat) : str :=
  [digit (n / 1000); digit (n / 100); digit (n / 10); digit n].

(** [t.strftime('%Y%m%d_%H%M%S')], for a year of four digits. *)
Definition strftime_id (t : datetime) : str :=
  pad4 (year t) ++ pad2 (month t) ++ pad2 (day t) ++ underscore ::
  pad2 (hour t) ++ pad2 (minute t) ++ pad2 (second t).

Definition is_digit (c : ascii) : bool := (48 <=? ord c) && (ord c <=? 57).
Definition digit_val (c : ascii) : nat := ord c - 48.
Definition digit_between (lo hi : nat) (c : ascii) : bool :=
  (lo <=? digit_val c) && (digit_val c <=? hi) && is_digit c.

(** The alternatives of the month group [1[0-2]|0[1-9]|[1-9]] that match
    at the head of [s], in the order the regex engine tries them, each
    with the value [int()] reads and the text left over. *)
Definition month_alts (s : str) : list (nat * str) :=
  match s with
  | a :: s1 =>
      (match s1 with
       | b :: s2 =>
           (if ch_eqb a (chr 49) && digit_between 0 2 b then [(10 + digit_val b, s2)] else []) ++
           (if ch_eqb a (chr 48) && digit_between 1 9 b then [(digit_val b, s2)] else [])
       | [] => []
       end) ++
      (if digit_between 1 9 a then [(digit_val a, s1)] else [])
  | [] => []
  end.

(** The alternatives of the day group [3[0-1]|[1-2]\d|0[1-9]|[1-9]| [1-9]]. *)
Definition day_alts (s : str) : list (nat * str) :=
  match s with
  | a :: s1 =>
      (match s1 with
       | b :: s2 =>
           (if ch_eqb a (chr 51) && digit_between 0 1 b then [(30 + digit_val b, s2)] else []) ++
           (if digit_between 1 2 a && is_digit b then [(10 * digit_val a + digit_val b, s2)] else []) ++
           (if ch_eqb a (chr 48) && digit_between 1 9 b then [(digit_val b, s2)] else [])
       | [] => []
       end) ++
      (if digit_between 1 9 a then [(digit_val a, s1)] else []) ++
      (match s1 with
       | b :: s2 => if ch_eqb a space && digit_between 1 9 b then [(digit_val b, s2)] else []
       | [] => []
       end)
  | [] => []
  end.

(** The year group [\d\d\d\d]. *)
Definition year_alts (s : str) : list (nat * str) :=
  match s with
  | a :: b :: c :: d :: s' =>
      if is_digit a && is_digit b && is_digit c && is_digit d
      then [(1000 * digit_val a + 100 * digit_val b + 10 * digit_val c + digit_val d, s')]
      else []
  | _ => []
  end.

(** A literal character of the format. *)
Definition expect (c : ascii) (s : str) : list str :=
  match s with
  | x :: s' => if ch_eqb x c then [s'] else []
  | [] => []
  end.

(** All the ways the regex of ['%Y-%m-%d'] matches a prefix of the
    input, in backtracking order; [re.match] takes the first. *)
Definition ymd_matches (s : str) : list (nat * nat * nat * str) :=
  '(y, s1) ← year_alts s;
  s2 ← expect dash s1;
  '(m, s3) ← month_alts s2;
  s4 ← expect dash s3;
  '(d, s5) ← day_alts s4;
  [(y, m, d, s5)].

Definition is_leap (y : nat) : bool :=
  (y mod 4 =? 0) && (negb (y mod 100 =? 0) || (y mod 400 =? 0)).

Definition days_in_month (y m : nat) : nat :=
  match m with
  | 2 => if is_leap y then 29 else 28
  | 4 | 6 | 9 | 11 => 30
  | _ => 31
  end.

(** The range checks of the [datetime.date] constructor. *)
Definition valid_date (y m d : nat) : bool :=
  (1 <=? y) && (y <=? 9 * 1000 + 999) && (1 <=? m) && (m <=? 12) &&
  (1 <=? d) && (d <=? days_in_month y m).

(** [datetime.strptime(date_str, '%Y-%m-%d').date()]; [None] stands for
    the [ValueError] of a string that does not match, of unconverted
    data after the match, and of a day that is not in the calendar. *)
Definition strptime_date (date_str : str) : option date :=
  match ymd_matches date_str with
  | (y, m, d, rest) :: _ =>
      if bool_decide (rest = []) && valid_date y m d then Some (mkDate y m d) else None
  | [] => None
  end.

(** ** Reports *)

(** The three values the program ever stores in [status]. *)
Definition st_processing : str := lit "processing".
Definition st_completed : str := lit "completed".
Definition st_failed : str := lit "failed".

(** [HeapDumpReport].  [processing_time] is a float in the source; clock
    readings and their differences are taken as rationals here. *)
Record HeapDumpReport := mkReport {
  machine_name : str;
  timestamp : datetime;
  filename : str;
  file_path : str;
  status : str;
  suspects_report : option str;
  overview_report : option str;
  error_message : option str;
  processing_time : option Q
}.

(** Attribute assignments [report.x = v]. *)
Definition set_status (v : str) (r : HeapDumpReport) : HeapDumpReport :=
  mkReport (machine_name r) (timestamp r) (filename r) (file_path r)
    v (suspects_report r) (overview_report r) (error_message r) (processing_time r).
Definition set_suspects_report (v : option str) (r : HeapDumpReport) : HeapDumpReport :=
  mkReport (machine_name r) (timestamp r) (filename r) (file_path r)
    (status r) v (overview_report r) (error_message r) (processing_time r).
Definition set_overview_report (v : option str) (r : HeapDumpReport) : HeapDumpReport :=
  mkReport (machine_name r) (timestamp r) (filename r) (file_path r)
    (status r) (suspects_report r) v (error_message r) (processing_time r).
Definition set_error_message (v : option str) (r : HeapDumpReport) : HeapDumpReport :=
  mkReport (machine_name r) (timestamp r) (filename r) (file_path r)
    (status r) (suspects_report r) (overview_report r) v (processing_time r).
Definition set_processing_time (v : option Q) (r : HeapDumpReport) : HeapDumpReport :=
  mkReport (machine_name r) (timestamp r) (filename r) (file_path r)
    (status r) (suspects_report r) (overview_report r) (error_message r) v.

(** ** Logging and other effects, as a trace *)

Inductive level := INFO | WARNING | ERROR.

#[global] Instance level_eq_dec : EqDecision level.
Proof. solve_decision. Defined.

(** The messages of the source, by their format string and arguments. *)
Inductive message :=
  | RunningAutoMAT (filename : str) (cmd : list str)
  | AutoMATFailed (filename stderr : str)
  | ProcessingTimeout (filename : str)
  | ErrorProcessing (filename what : str)
  | StartedProcessing (filename : str)
  | SuccessfullyProcessed (filename : str) (seconds : option Q)
  | FailedToProcess (filename : str) (what : str).

(** A report object is referred to by its address in the heap. *)
Abbreviation addr := nat.

Inductive event :=
  | Logged (l : level) (m : message)
  | AddCalled (a : addr)          (* report_manager.add_report(report) *)
  | UpdateCalled (a : addr)       (* report_manager.update_report(report) *)
  | ProcessCalled (a : addr).     (* processor.process_heap_dump(report.file_path) *)

(** How often [update_report], and how often the analyzer, was called
    for the report at address [a]. *)
Definition is_update (a : addr) (e : event) : bool :=
  match e with UpdateCalled b => bool_decide (b = a) | _ => false end.
Definition is_process (a : addr) (e : event) : bool :=
  match e with ProcessCalled b => bool_decide (b = a) | _ => false end.
Definition count_updates (a : addr) (tr : list event) : nat :=
  length (List.filter (is_update a) tr).
Definition count_calls (a : addr) (tr : list event) : nat :=
  length (List.filter (is_process a) tr).

Definition is_warning (e : event) : bool :=
  match e with Logged WARNING _ => true | _ => false end.

(** ** The analyzer: [HeapDumpProcessor.process_heap_dump] *)

Record HeapDumpProcessor := { docker_image : str }.

(** How [subprocess.run] ended. *)
Inductive run_outcome :=
  | Returned (returncode : Z) (stderr : str) (end_time : Q)
  | TimeoutExpired
  | Raised (what : str) (at_time : Q).

(** What one call of [process_heap_dump] meets outside the program: the
    clock at its start, the fate of the subprocess, and which paths
    exist on disk once it has returned. *)
Record run_env := {
  start_time : Q;
  outcome : run_outcome;
  exists_on_disk : str -> bool
}.

(** The dictionary [process_heap_dump] returns.  An absent key and a key
    holding [None] both read as [None] through [result.get]. *)
Record result := mkResult {
  res_status : str;
  res_suspects_report : option str;
  res_overview_report : option str;
  res_error_message : option str;
  res_processing_time : option Q
}.

Definition docker_cmd (image file_dir filename memory_limit : str) : list str :=
  [lit "docker"; lit "run"; lit "--rm"; lit "--mount";
   lit "src=" ++ file_dir ++ lit ",target=/data,type=bind";
   image; filename; memory_limit; lit "suspects,overview"].

Definition suspects_suffix : str := lit "_Leak_Suspects.html".
Definition overview_suffix : str := lit "_System_Overview.html".
Definition timeout_message : str := lit "Processing timeout (1 hour exceeded)".

(** [path if os.path.exists(path) else None] *)
Definition if_exists (env : run_env) (path : str) : option str :=
  if exists_on_disk env path then Some path else None.

Definition process_heap_dump (self : HeapDumpProcessor) (env : run_env)
    (file_path : str) (memory_limit : str) : result * list event :=
  let file_dir := posixpath.dirname file_path in
  let filename := posixpath.basename file_path in
  let cmd := docker_cmd (docker_image self) file_dir filename memory_limit in
  let running := Logged INFO (RunningAutoMAT filename cmd) in
  match outcome env with
  | Returned returncode stderr end_time =>
      let processing_time := Qminus end_time (start_time env) in
      if bool_decide (returncode = 0%Z) then
        let base_name := fst (posixpath.splitext filename) in
        let suspects_path := posixpath.join file_dir (base_name ++ suspects_suffix) in
        let overview_path := posixpath.join file_dir (base_name ++ overview_suffix) in
        (mkResult st_completed (if_exists env suspects_path) (if_exists env overview_path)
           None (Some processing_time),
         [running])
      else
        (mkResult st_failed None None (Some stderr) (Some processing_time),
         [running; Logged ERROR (AutoMATFailed filename stderr)])
  | TimeoutExpired =>
      (mkResult st_failed None None (Some timeout_message) (Some (inject_Z 3600)),
       [running; Logged ERROR (ProcessingTimeout filename)])
  | Raised what at_time =>
      (mkResult st_failed None None (Some what) (Some (Qminus at_time (start_time env))),
       [running; Logged ERROR (ErrorProcessing filename what)])
  end.

Definition default_memory_limit : str := lit "11g".

(** ** The record store: [ReportManager]

    [reports] maps an id to the address of a report object.  Every
    method body runs under [self.lock], so each is one atomic step. *)

Definition report_id (r : HeapDumpReport) : str :=
  machine_name r ++ underscore :: strftime_id (timestamp r).

Section ReportManager.
Variable heap : list HeapDumpReport.
Variable reports : gmap str addr.

Definition add_report (a : addr) : gmap str addr :=
  match heap !! a with
  | Some report => <[report_id report := a]> reports
  | None => reports
  end.

Definition update_report (a : addr) : gmap str addr :=
  match heap !! a with
  | Some report =>
      if bool_decide (is_Some (reports !! report_id report))
      then <[report_id report := a]> reports
      else reports
  | None => reports
  end.

(** [list(self.reports.values())]: a new list of the same objects.
    A Python dict lists its values in the order the keys were first
    inserted; the map does not record that order, so this list has the
    elements and the length of the code's, in the order of the keys.
    Nothing below is stated about the order of a listing. *)
Definition get_all_reports : list addr := (map_to_list reports).*2.

Definition holds (P : HeapDumpReport -> bool) (a : addr) : bool :=
  match heap !! a with Some report => P report | None => false end.

Definition get_reports_by_machine (name : str) : list addr :=
  List.filter (holds (fun report => bool_decide (machine_name report = name)))
    get_all_reports.

Definition get_reports_by_date (date_str : str) : list addr :=
  match strptime_date date_str with
  | Some target_date =>
      List.filter
        (holds (fun report => bool_decide (date_of (timestamp report) = target_date)))
        get_all_reports
  | None => []
  end.

Definition get_report_by_id (id : str) : option addr := reports !! id.

End ReportManager.

(** ** The running system

    The watcher thread, one thread per submitted file and the request
    threads share the heap of report objects and the [reports] map. *)

(** A watchdog file-creation event. *)
Record fs_event := { is_directory : bool; src_path : str }.

(** Where a background thread stands in [_background_process]; the
    local variable [result] exists once the analyzer call has returned. *)
Inductive pc :=
  | AtCall                      (* result = self.processor.process_heap_dump(...) *)
  | AtStatus (res : result)     (* report.status = result['status'] *)
  | AtSuspects (res : result)   (* report.suspects_report = result.get(...) *)
  | AtOverview (res : result)   (* report.overview_report = result.get(...) *)
  | AtError (res : result)      (* report.error_message = result.get(...) *)
  | AtTime (res : result)       (* report.processing_time = result.get(...) *)
  | AtUpdate (res : result)     (* self.report_manager.update_report(report) *)
  | AtLog (res : result)        (* logger.info(...) / logger.error(...) *)
  | Finished.

Record task := { t_report : addr; t_pc : pc }.

Record system := mkSystem {
  processor : HeapDumpProcessor;
  heap : list HeapDumpReport;
  reports : gmap str addr;
  tasks : list task;
  trace : list event
}.

Definition initial (p : HeapDumpProcessor) : system := mkSystem p [] ∅ [] [].

Definition heap_dump_extensions : list str := [lit ".hprof"; lit ".dump"; lit ".bin"].

(** [any(file_path.lower().endswith(ext) for ext in self.heap_dump_extensions)] *)
Definition is_heap_dump (file_path : str) : bool :=
  existsb (fun ext => endswith (lower file_path) ext) heap_dump_extensions.

(** [HeapDumpHandler._process_heap_dump]: a new report object in state
    ['processing'] is stored and a thread is started for it.  [now] is
    the value of [datetime.now()]. *)
Definition _process_heap_dump (file_path : str) (now : datetime) (s : system) : system :=
  let filename := posixpath.basename file_path in
  let machine_name := _extract_machine_name filename in
  let report :=
    mkReport machine_name now filename file_path st_processing None None None None in
  let a := length (heap s) in
  let heap' := heap s ++ [report] in
  mkSystem (processor s) heap'
    (add_report heap' (reports s) a)
    (tasks s ++ [{| t_report := a; t_pc := AtCall |}])
    (trace s ++ [AddCalled a; Logged INFO (StartedProcessing filename)]).

(** [HeapDumpHandler.on_created].  The two seconds of [time.sleep] pass
    in the watcher thread and change nothing in the state. *)
Definition on_created (event : fs_event) (now : datetime) (s : system) : system :=
  if is_directory event then s
  else if is_heap_dump (src_path event) then _process_heap_dump (src_path event) now s
  else s.

Definition set_pc (i : nat) (p : pc) (ts : list task) : list task :=
  alter (fun t => {| t_report := t_report t; t_pc := p |}) i ts.

(** The message the thread logs after the write-back. *)
Definition completion_log (report : HeapDumpReport) (res : result) : event :=
  if bool_decide (res_status res = st_completed)
  then Logged INFO (SuccessfullyProcessed (filename report) (res_processing_time res))
  else Logged ERROR (FailedToProcess (filename report)
                       (default (lit "Unknown error") (res_error_message res))).

(** One statement of [HeapDumpHandler._background_process] run by thread
    [i].  [process_heap_dump] catches every exception itself and the
    statements after it cannot raise on the dictionaries it returns, so
    the [except] branch of [_background_process] is never entered. *)
Definition _background_process (i : nat) (env : run_env) (s : system) : system :=
  match tasks s !! i with
  | None => s
  | Some t =>
      let a := t_report t in
      match heap s !! a with
      | None => s
      | Some report =>
          let assign f p :=
            mkSystem (processor s) (alter f a (heap s)) (reports s)
              (set_pc i p (tasks s)) (trace s) in
          match t_pc t with
          | AtCall =>
              let '(res, logs) :=
                process_heap_dump (processor s) env (file_path report) default_memory_limit in
              mkSystem (processor s) (heap s) (reports s)
                (set_pc i (AtStatus res) (tasks s))
                (trace s ++ ProcessCalled a :: logs)
          | AtStatus res => assign (set_status (res_status res)) (AtSuspects res)
          | AtSuspects res =>
              assign (set_suspects_report (res_suspects_report res)) (AtOverview res)
          | AtOverview res =>
              assign (set_overview_report (res_overview_report res)) (AtError res)
          | AtError res => assign (set_error_message (res_error_message res)) (AtTime res)
          | AtTime res =>
              assign (set_processing_time (res_processing_time res)) (AtUpdate res)
          | AtUpdate res =>
              mkSystem (processor s) (heap s)
                (update_report (heap s) (reports s) a)
                (set_pc i (AtLog res) (tasks s))
                (trace s ++ [UpdateCalled a])
          | AtLog res =>
              mkSystem (processor s) (heap s) (reports s)
                (set_pc i Finished (tasks s))
                (trace s ++ [completion_log report res])
          | Finished => s
          end
      end
  end.

(** What the scheduler and the environment choose next. *)
Inductive label :=
  | FileCreated (event : fs_event) (now : datetime)
  | ThreadRuns (i : nat) (env : run_env).

Definition step (l : label) (s : system) : system :=
  match l with
  | FileCreated event now => on_created event now s
  | ThreadRuns i env => _background_process i env s
  end.

Definition run (ls : list label) (s : system) : system :=
  foldl (fun s l => step l s) s ls.

Inductive reachable : system -> Prop :=
  | reachable_initial p : reachable (initial p)
  | reachable_step l s : reachable s -> reachable (step l s).

(** ** Readers *)

(** Reading the fields of a report object a reader holds, as
    [asdict(report)] does, at the moment the system is in state [s]. *)
Definition observe (s : system) (a : addr) : option HeapDumpReport := heap s !! a.

Definition count_status (v : str) (s : system) : nat :=
  length (List.filter (holds (heap s) (fun report => bool_decide (status report = v)))
            (get_all_reports (reports s))).

Record status_summary := {
  total_reports : nat; processing : nat; completed : nat; failed : nat
}.

(** The counts of [get_status]: four calls of [get_all_reports], each
    under the lock on its own.  [view k] is the state of the system
    during the [k]-th call. *)
Definition get_status (view : nat -> system) : status_summary :=
  {| total_reports := length (get_all_reports (reports (view 0)));
     processing := count_status st_processing (view 1);
     completed := count_status st_completed (view 2);
     failed := count_status st_failed (view 3) |}.

(** * Vocabulary of the properties *)

(** [([^c]+)c.*], the shape of the first and the third pattern. *)
Definition pat_before (c : ascii) : list atom :=
  [Atom (CNot c) Plus true; Atom (CLit c) Once false; Atom CAny Star false].

(** No non-empty text stands before the first [c] of [f]: [f] has no [c]
    or starts with it.  This is when [([^c]+)c.*] does not match. *)
Definition no_token_before (c : ascii) (f : str) : Prop :=
  forall tok rest, f = tok ++ c :: rest -> c ∉ tok -> tok = [].

(** No non-empty underscore-free text stands between two underscores
    (after a prefix on one line): when [.*_([^_]+)_.*] does not match. *)
Definition no_enclosed_token (f : str) : Prop :=
  forall pre tok rest,
    f = pre ++ underscore :: tok ++ underscore :: rest ->
    newline ∉ pre -> underscore ∉ tok -> tok = [].

(** The two final states of a record. *)
Definition terminal (v : str) : Prop := v = st_completed \/ v = st_failed.

(** What holds of the report of a thread that stands at [p], with [u]
    write-backs and [c] analyzer calls made for it so far. *)
Definition pc_inv (r : HeapDumpReport) (p : pc) (u c : nat) : Prop :=
  match p with
  | AtCall => status r = st_processing /\ u = 0 /\ c = 0
  | AtStatus res => status r = st_processing /\ terminal (res_status res) /\ u = 0 /\ c = 1
  | AtSuspects res | AtOverview res | AtError res | AtTime res | AtUpdate res =>
      status r = res_status res /\ terminal (res_status res) /\ u = 0 /\ c = 1
  | AtLog res => status r = res_status res /\ terminal (res_status res) /\ u = 1 /\ c = 1
  | Finished => terminal (status r) /\ u = 1 /\ c = 1
  end.

(** Every id of the store leads to a report object that has this id. *)
Definition store_ok (h : list HeapDumpReport) (m : gmap str addr) : Prop :=
  forall id a, m !! id = Some a -> exists r, h !! a = Some r /\ report_id r = id.

(** An event speaks of a report object that exists among [n]. *)
Definition in_range (n : nat) (e : event) : Prop :=
  match e with
  | AddCalled a | UpdateCalled a | ProcessCalled a => a < n
  | Logged _ _ => True
  end.

(** What every reachable state satisfies: thread [i] works on the report
    at address [i], which is in the state its program point implies, and
    the store only holds ids of existing reports. *)
Record inv (s : system) : Prop := {
  inv_len : length (tasks s) = length (heap s);
  inv_task : forall i t, tasks s !! i = Some t ->
    t_report t = i /\
    exists r, heap s !! i = Some r /\
      pc_inv r (t_pc t) (count_updates i (trace s)) (count_calls i (trace s));
  inv_store : store_ok (heap s) (reports s);
  inv_trace : Forall (in_range (length (heap s))) (trace s)
}.

(** The event is a log record. *)
Definition is_logged (e : event) : Prop :=
  match e with Logged _ _ => True | _ => False end.

(** Statements a thread still has to run. *)
Definition remaining (p : pc) : nat :=
  match p with
  | AtCall => 8 | AtStatus _ => 7 | AtSuspects _ => 6 | AtOverview _ => 5
  | AtError _ => 4 | AtTime _ => 3 | AtUpdate _ => 2 | AtLog _ => 1 | Finished => 0
  end.

(** The report object [_process_heap_dump] creates. *)
Definition new_report (file_path : str) (now : datetime) : HeapDumpReport :=
  mkReport (_extract_machine_name (posixpath.basename file_path)) now
    (posixpath.basename file_path) file_path st_processing None None None None.

(** The report once its thread has copied the result into it. *)
Definition written_back (r : HeapDumpReport) (res : result) : HeapDumpReport :=
  mkReport (machine_name r) (timestamp r) (filename r) (file_path r)
    (res_status res) (res_suspects_report res) (res_overview_report res)
    (res_error_message res) (res_processing_time res).

(** * Scenarios *)

Definition example_processor : HeapDumpProcessor :=
  {| docker_image := lit "docker.bintray.io/jfrog/auto-mat" |}.

Definition example_event : fs_event :=
  {| is_directory := false; src_path := lit "/dump/web01_1.hprof" |}.

Definition example_now : datetime := mkDatetime 2024 3 1 9 5 7 120.

(** The analyzer returns 0 after twelve seconds and leaves the leak
    suspects report on disk. *)
Definition env_completed : run_env :=
  {| start_time := 0;
     outcome := Returned 0 [] (inject_Z 12);
     exists_on_disk := fun p => bool_decide (p = lit "/dump/web01_1_Leak_Suspects.html") |}.

Definition env_timeout : run_env :=
  {| start_time := 0; outcome := TimeoutExpired; exists_on_disk := fun _ => false |}.

(** One file has been submitted; its thread has not run yet. *)
Definition submitted : system :=
  run [FileCreated example_event example_now] (initial example_processor).

(** The thread has called the analyzer and assigned [report.status]. *)
Definition status_assigned : system :=
  run [ThreadRuns 0 env_completed; ThreadRuns 0 env_completed] submitted.

(** The thread has run to its end. *)
Definition finished : system :=
  run (replicate 8 (ThreadRuns 0 env_completed)) submitted.

(** Three files: two detected on 1 March 2024, morning and last second
    of the day, one at the first second of 2 March. *)
Definition three_files : system :=
  run [FileCreated example_event example_now;
       FileCreated {| is_directory := false; src_path := lit "/dump/db02_x.DUMP" |}
         (mkDatetime 2024 3 1 23 59 59 0);
       FileCreated {| is_directory := false; src_path := lit "/dump/db02_y.bin" |}
         (mkDatetime 2024 3 2 0 0 0 0)]
    (initial example_processor).

(** The record of the submitted file once its thread has finished. *)
Definition finished_report : HeapDumpReport :=
  mkReport (lit "web01") example_now (lit "web01_1.hprof") (lit "/dump/web01_1.hprof")
    (lit "completed") (Some (lit "/dump/web01_1_Leak_Suspects.html")) None None
    (Some (inject_Z 12)).

(** The thread of the submitted file is about to call [update_report]. *)
Definition before_write_back : system :=
  run (replicate 6 (ThreadRuns 0 env_completed)) submitted.

(** A thread about to write back a result for an id the store does not
    hold. *)
Definition orphan_result : result :=
  mkResult st_failed None None (Some timeout_message) (Some (inject_Z 3600)).

Definition orphan : system :=
  mkSystem example_processor
    [written_back (new_report (lit "/dump/web01_1.hprof") example_now) orphan_result]
    ∅ [{| t_report := 0; t_pc := AtUpdate orphan_result |}] [].

(** * The web routes *)

(** What a report route returns: the JSON error with status 404, or
    the value of Flask's [send_file] at a path.  [send_file path] stands
    for that call, which the route returns as it is; the function
    belongs to Flask and is not modelled: it resolves a relative path
    against the root path of the application, not against the working
    directory [os.path.exists] uses, and answers on its own an error, a
    conditional response or the file. *)
Inductive response :=
  | NotFound (error : str)
  | send_file (path : str).

(** [not x] for an attribute that holds [None] or a string. *)
Definition falsy (o : option str) : bool :=
  match o with
  | None | Some [] => true
  | Some (_ :: _) => false
  end.

(** The body shared by [get_suspects_report] and [get_overview_report]:
    [attr] reads the attribute, [exists_now] is [os.path.exists] at the
    time of the request (a relative path is looked up from the working
    directory).  A dataclass instance is always true, so
    [not report] asks whether [get_report_by_id] found one. *)
Definition serve_report (attr : HeapDumpReport -> option str) (error : str)
    (exists_now : str -> bool) (s : system) (id : str) : response :=
  match get_report_by_id (reports s) id with
  | None => NotFound error
  | Some a =>
      match heap s !! a with
      | None => NotFound error
      | Some report =>
          match attr report with
          | Some path =>
              if falsy (attr report) || negb (exists_now path)
              then NotFound error
              else send_file path
          | None => NotFound error
          end
      end
  end.

Definition get_suspects_report : (str -> bool) -> system -> str -> response :=
  serve_report suspects_report (lit "Suspects report not found").

Definition get_overview_report : (str -> bool) -> system -> str -> response :=
  serve_report overview_report (lit "Overview report not found").

(** The fields a [datetime] is compared by, in order. *)
Definition datetime_key (t : datetime) : list nat :=
  [year t; month t; day t; hour t; minute t; second t; microsecond t].

(** Comparison of tuples of numbers, as Python compares them. *)
Fixpoint lex_ltb (k1 k2 : list nat) : bool :=
  match k1, k2 with
  | x :: k1', y :: k2' => (x <? y) || ((x =? y) && lex_ltb k1' k2')
  | [], _ :: _ => true
  | _, [] => false
  end.

Definition datetime_ltb (t1 t2 : datetime) : bool :=
  lex_ltb (datetime_key t1) (datetime_key t2).

(** [sorted(l, key=lambda x: x.timestamp, reverse=True)]: the sort is
    stable, so an element goes in front of the first one that is not
    newer than it. *)
Fixpoint insert_newest_first (x : HeapDumpReport) (l : list HeapDumpReport)
  : list HeapDumpReport :=
  match l with
  | [] => [x]
  | y :: l' =>
      if datetime_ltb (timestamp x) (timestamp y)
      then y :: insert_newest_first x l'
      else x :: y :: l'
  end.

Definition sorted_newest_first (l : list HeapDumpReport) : list HeapDumpReport :=
  foldr insert_newest_first [] l.

(** The reports the [index] route hands to its template, read from the
    objects at the time of the request.  The sort is stable: reports
    with equal timestamps stay in the order of the listing, which is
    the one thing here that depends on the order of [get_all_reports]. *)
Definition index (s : system) : list HeapDumpReport :=
  sorted_newest_first (omap (observe s) (get_all_reports (reports s))).

(** * Vocabulary of the further properties *)

(** The event is one [on_created] submits. *)
Definition accepted (l : label) : bool :=
  match l with
  | FileCreated event _ => negb (is_directory event) && is_heap_dump (src_path event)
  | ThreadRuns _ _ => false
  end.

(** How many messages of a trace are at level ERROR. *)
Definition count_errors (tr : list event) : nat :=
  length (List.filter (fun e => match e with Logged ERROR _ => true | _ => false end) tr).

(** [res] is what the analyzer returned for the file of [r]. *)
Definition produced_for (p : HeapDumpProcessor) (r : HeapDumpReport) (res : result) : Prop :=
  exists env, res = (process_heap_dump p env (file_path r) default_memory_limit).1.

(** None of the five result attributes has been assigned. *)
Definition unassigned (r : HeapDumpReport) : Prop :=
  suspects_report r = None /\ overview_report r = None /\
  error_message r = None /\ processing_time r = None.

(** The result attributes of the report of a thread that stands at [p]:
    those before [p] hold the analyzer's values, the others [None]. *)
Definition fields_at (proc : HeapDumpProcessor) (r : HeapDumpReport) (p : pc) : Prop :=
  match p with
  | AtCall => unassigned r
  | AtStatus res | AtSuspects res => produced_for proc r res /\ unassigned r
  | AtOverview res =>
      produced_for proc r res /\
      suspects_report r = res_suspects_report res /\ overview_report r = None /\
      error_message r = None /\ processing_time r = None
  | AtError res =>
      produced_for proc r res /\
      suspects_report r = res_suspects_report res /\
      overview_report r = res_overview_report res /\
      error_message r = None /\ processing_time r = None
  | AtTime res =>
      produced_for proc r res /\
      suspects_report r = res_suspects_report res /\
      overview_report r = res_overview_report res /\
      error_message r = res_error_message res /\ processing_time r = None
  | AtUpdate res | AtLog res =>
      produced_for proc r res /\
      suspects_report r = res_suspects_report res /\
      overview_report r = res_overview_report res /\
      error_message r = res_error_message res /\
      processing_time r = res_processing_time res
  | Finished =>
      exists res, produced_for proc r res /\ status r = res_status res /\
      suspects_report r = res_suspects_report res /\
      overview_report r = res_overview_report res /\
      error_message r = res_error_message res /\
      processing_time r = res_processing_time res
  end.

(** Two values of a report object agree on the attributes set at
    detection. *)
Definition same_origin (r r' : HeapDumpReport) : Prop :=
  machine_name r' = machine_name r /\ timestamp r' = timestamp r /\
  filename r' = filename r /\ file_path r' = file_path r.

(** Where a report comes from: its attributes set at detection. *)
Definition provenance (r : HeapDumpReport) : Prop :=
  filename r = posixpath.basename (file_path r) /\
  machine_name r = _extract_machine_name (filename r) /\
  is_heap_dump (file_path r) = true.

(** A second invariant of the reachable states, about the attributes. *)
Record inv_fields (s : system) : Prop := {
  inf_task : forall i t r, tasks s !! i = Some t -> heap s !! i = Some r ->
    fields_at (processor s) r (t_pc t);
  inf_provenance : forall a r, heap s !! a = Some r -> provenance r;
  inf_listed : forall a r, heap s !! a = Some r -> is_Some (reports s !! report_id r)
}.

(** The fields of a timestamp are those of a [datetime] object. *)
Definition valid_datetime (t : datetime) : Prop :=
  1 <= year t <= 9 * 1000 + 999 /\ 1 <= month t <= 12 /\
  1 <= day t <= days_in_month (year t) (month t) /\
  hour t <= 23 /\ minute t <= 59 /\ second t <= 59.

(** The same second: all fields but the microseconds agree. *)
Definition same_second (t1 t2 : datetime) : Prop :=
  year t1 = year t2 /\ month t1 = month t2 /\ day t1 = day t2 /\
  hour t1 = hour t2 /\ minute t1 = minute t2 /\ second t1 = second t2.

(** No report of the list is older than one before it. *)
Definition newest_first (l : list HeapDumpReport) : Prop :=
  StronglySorted (fun r1 r2 => datetime_ltb (timestamp r1) (timestamp r2) = false) l.

(** Every thread is given its eight steps, one thread after the other;
    [envs i] is what thread [i] meets. *)
Definition run_all_threads (envs : nat -> run_env) (s : system) : system :=
  run (i ← seq 0 (length (tasks s)); replicate 8 (ThreadRuns i (envs i))) s.

(** * Properties *)

(** ** Text *)

Lemma ch_eqb_true a b : ch_eqb a b = true <-> a = b.
Proof. unfold ch_eqb. apply bool_decide_eq_true. Qed.

Lemma ch_eqb_false a b : ch_eqb a b = false <-> a <> b.
Proof. unfold ch_eqb. apply bool_decide_eq_false. Qed.

Lemma ch_eqb_refl a : ch_eqb a a = true.
Proof. by apply ch_eqb_true. Qed.

Lemma elem_of_middle (c : ascii) (pre rest : str) : c ∈ pre ++ c :: rest.
Proof. apply elem_of_app. right. apply elem_of_cons. by left. Qed.

(** A character does not occur in a given text: by evaluation. *)
Ltac absent :=
  match goal with
  | |- ?c ∉ ?s => apply (bool_decide_eq_false_1 (c ∈ s)); vm_compute; reflexivity
  end.

Lemma endswith_spec (s suf : str) :
  endswith s suf = true <-> exists pre, s = pre ++ suf.
Proof.
  unfold endswith. rewrite andb_true_iff, Nat.leb_le, bool_decide_eq_true. split.
  - intros [Hlen Hdrop]. exists (take (length s - length suf) s).
    pose proof (take_drop (length s - length suf) s) as E.
    by rewrite Hdrop in E.
  - intros [pre ->]. rewrite length_app. split; [lia|].
    replace (length pre + length suf - length suf) with (length pre) by lia.
    by rewrite drop_app_length.
Qed.

Lemma is_heap_dump_spec (file_path : str) :
  is_heap_dump file_path = true <->
  exists ext, ext ∈ heap_dump_extensions /\ exists pre, lower file_path = pre ++ ext.
Proof.
  unfold is_heap_dump. rewrite existsb_exists. split.
  - intros (ext & Hin & Hend). exists ext. split; [by apply list_elem_of_In|].
    by apply endswith_spec.
  - intros (ext & Hin & Hend). exists ext. split; [by apply list_elem_of_In|].
    by apply endswith_spec.
Qed.

Lemma rfind_None (c : ascii) (s : str) : rfind c s = None <-> c ∉ s.
Proof.
  induction s as [|x s IH]; cbn.
  - split; [intros _; apply not_elem_of_nil | done].
  - rewrite not_elem_of_cons. destruct (rfind c s) as [i|].
    + split; [done|]. intros [_ Hs]. by apply IH in Hs.
    + destruct (ch_eqb x c) eqn:E.
      * apply ch_eqb_true in E. split; [done | intros [? _]; congruence].
      * apply ch_eqb_false in E. split; [|done]. intros _. split; [congruence | by apply IH].
Qed.

Lemma rfind_app_last (c : ascii) (pre rest : str) :
  c ∉ rest -> rfind c (pre ++ c :: rest) = Some (length pre).
Proof.
  intros Hrest. apply rfind_None in Hrest.
  induction pre as [|x pre IH]; cbn.
  - by rewrite Hrest, ch_eqb_refl.
  - by rewrite IH.
Qed.

Lemma rfind_succ_None (c : ascii) (s : str) : c ∉ s -> rfind_succ c s = 0.
Proof. intros H. apply rfind_None in H. unfold rfind_succ. by rewrite H. Qed.

Lemma rfind_succ_app_last (c : ascii) (pre rest : str) :
  c ∉ rest -> rfind_succ c (pre ++ c :: rest) = S (length pre).
Proof. intros H. unfold rfind_succ. by rewrite rfind_app_last. Qed.

Lemma rfind_lt (c : ascii) (s : str) (i : nat) : rfind c s = Some i -> i < length s.
Proof.
  revert i. induction s as [|x s IH]; cbn; [done|]. intros i.
  destruct (rfind c s) as [j|].
  - intros [= <-]. specialize (IH j eq_refl). lia.
  - destruct (ch_eqb x c); [|done]. intros [= <-]. lia.
Qed.

(** ** Regular expressions *)

Lemma span_length (f : ascii -> bool) (s : str) : span f s <= length s.
Proof. induction s as [|c s IH]; cbn; [lia|]. destruct (f c); cbn; lia. Qed.

Lemma span_take (f : ascii -> bool) (s : str) (j : nat) :
  j <= span f s -> Forall (fun x => f x = true) (take j s).
Proof.
  revert j. induction s as [|c s IH]; intros j Hj; cbn in *.
  - by rewrite take_nil.
  - destruct j as [|j]; [constructor|]. cbn. destruct (f c) eqn:E; [|lia].
    constructor; [done|]. apply IH. lia.
Qed.

Lemma span_app (f : ascii -> bool) (tok rest : str) :
  Forall (fun x => f x = true) tok ->
  match rest with x :: _ => f x = false | [] => True end ->
  span f (tok ++ rest) = length tok.
Proof.
  intros Htok Hrest. induction Htok as [|x tok Hx _ IH]; cbn.
  - destruct rest as [|x rest]; cbn; [done|]. by rewrite Hrest.
  - by rewrite Hx, IH.
Qed.

Lemma Forall_CNot (c : ascii) (tok : str) :
  Forall (fun x => cset_mem (CNot c) x = true) tok <-> c ∉ tok.
Proof.
  rewrite Forall_forall. cbn. split.
  - intros H Hin. specialize (H c Hin). by rewrite ch_eqb_refl in H.
  - intros H x Hx. apply negb_true_iff, ch_eqb_false. intros ->. done.
Qed.

Lemma Forall_CAny (tok : str) :
  Forall (fun x => cset_mem CAny x = true) tok <-> newline ∉ tok.
Proof.
  rewrite Forall_forall. cbn. split.
  - intros H Hin. specialize (H newline Hin). by rewrite ch_eqb_refl in H.
  - intros H x Hx. apply negb_true_iff, ch_eqb_false. intros ->. done.
Qed.

Section Backtrack.
Variable k : str -> option (list str).
Variable g : bool.
Variable s : str.
Variable lo : nat.

Lemma backtrack_hit (n j : nat) (gs : list str) :
  lo <= j -> j <= n ->
  k (drop j s) = Some gs ->
  (forall j', j < j' -> j' <= n -> k (drop j' s) = None) ->
  backtrack k g s lo n = Some (with_group g (take j s) gs).
Proof.
  intros Hlo Hjn Hk Hmax. induction n as [|n IH].
  - assert (j = 0) as -> by lia. cbn. by rewrite Hk.
  - destruct (decide (j = S n)) as [->|Hne].
    + cbn. by rewrite Hk.
    + cbn. rewrite (Hmax (S n)) by lia.
      destruct (lo <=? n) eqn:E; [|apply Nat.leb_gt in E; lia].
      apply IH; [lia|]. intros j' ? ?. apply Hmax; lia.
Qed.

Lemma backtrack_inv (n : nat) (r : list str) :
  lo <= n ->
  backtrack k g s lo n = Some r ->
  exists j gs, lo <= j /\ j <= n /\ k (drop j s) = Some gs /\
               r = with_group g (take j s) gs.
Proof.
  intros Hlo. induction n as [|n IH]; cbn.
  - destruct (k (drop 0 s)) as [gs|] eqn:Hk; [|done].
    intros [= <-]. exists 0, gs. repeat split; [lia | lia | done].
  - destruct (k (drop (S n) s)) as [gs|] eqn:Hk.
    + intros [= <-]. exists (S n), gs. repeat split; [lia | lia | done].
    + destruct (lo <=? n) eqn:E; [|done]. apply Nat.leb_le in E.
      intros H. destruct (IH E H) as (j & gs & ? & ? & ? & ?).
      exists j, gs. repeat split; [lia | lia | done | done].
Qed.
End Backtrack.

Lemma fmap_with_group_false (t : str) (o : option (list str)) :
  with_group false t <$> o = o.
Proof. by destruct o. Qed.

(** [.*] at the end of a pattern matches whatever is left. *)
Lemma re_match_any_star (s : str) : re_match [Atom CAny Star false] s = Some [].
Proof. cbn. by destruct (span _ s). Qed.

(** [c.*]: the text must start with [c]. *)
Lemma re_match_lit_any (c : ascii) (s : str) :
  re_match [Atom (CLit c) Once false; Atom CAny Star false] s =
  match s with
  | x :: _ => if ch_eqb x c then Some [] else None
  | [] => None
  end.
Proof.
  destruct s as [|x s]; [done|].
  change (re_match [Atom (CLit c) Once false; Atom CAny Star false] (x :: s))
    with (if 1 <=? span (cset_mem (CLit c)) (x :: s)
          then with_group false (take 1 (x :: s)) <$>
                 re_match [Atom CAny Star false] (drop 1 (x :: s))
          else None).
  cbn [span cset_mem]. destruct (ch_eqb x c); [|done].
  cbn [Nat.leb]. by rewrite re_match_any_star.
Qed.

Lemma re_match_before_unfold (c : ascii) (s : str) :
  re_match (pat_before c) s =
  let n := span (cset_mem (CNot c)) s in
  if 1 <=? n
  then backtrack (re_match [Atom (CLit c) Once false; Atom CAny Star false]) true s 1 n
  else None.
Proof. reflexivity. Qed.

Lemma re_match_before (c : ascii) (tok rest : str) :
  tok <> [] -> c ∉ tok -> re_match (pat_before c) (tok ++ c :: rest) = Some [tok].
Proof.
  intros Hne Hc. rewrite re_match_before_unfold. cbv zeta.
  rewrite (span_app _ tok (c :: rest)).
  2: by apply Forall_CNot.
  2: { cbn. by rewrite ch_eqb_refl. }
  assert (1 <= length tok) as Hlen by (destruct tok; [done | cbn; lia]).
  destruct (1 <=? length tok) eqn:E; [|apply Nat.leb_gt in E; lia].
  rewrite (backtrack_hit _ _ _ _ (length tok) (length tok) []); [| lia | lia | | intros; lia].
  - by rewrite take_app_length.
  - rewrite drop_app_length, re_match_lit_any. by rewrite ch_eqb_refl.
Qed.

Lemma re_match_before_inv (c : ascii) (s : str) (gs : list str) :
  re_match (pat_before c) s = Some gs ->
  exists tok rest, gs = [tok] /\ s = tok ++ c :: rest /\ tok <> [] /\ (c ∉ tok).
Proof.
  rewrite re_match_before_unfold. cbv zeta.
  destruct (1 <=? _) eqn:E; [|done]. apply Nat.leb_le in E.
  intros (j & gs' & Hj1 & Hjn & Hk & ->)%backtrack_inv; [|done].
  rewrite re_match_lit_any in Hk.
  destruct (drop j s) as [|x rest] eqn:Hdrop; [done|].
  destruct (ch_eqb x c) eqn:Hx; [|done]. apply ch_eqb_true in Hx. subst x.
  injection Hk as <-.
  exists (take j s), rest. repeat split.
  - by rewrite <- Hdrop, take_drop.
  - intros Hnil. apply (f_equal length) in Hnil. rewrite length_take in Hnil.
    pose proof (span_length (cset_mem (CNot c)) s). cbn in Hnil. lia.
  - apply Forall_CNot. by apply span_take.
Qed.

Lemma re_match_before_None (c : ascii) (s : str) :
  (forall tok rest, s = tok ++ c :: rest -> c ∉ tok -> tok = []) ->
  re_match (pat_before c) s = None.
Proof.
  intros Hno. destruct (re_match (pat_before c) s) as [gs|] eqn:E; [|done].
  apply re_match_before_inv in E as (tok & rest & _ & Hs & Hne & Hc).
  by destruct (Hne (Hno tok rest Hs Hc)).
Qed.

(** [_([^_]+)_.*], what the second pattern asks for after its [.*]. *)
Lemma re_match_enclosed_unfold (s : str) :
  re_match (Atom (CLit underscore) Once false :: pat_before underscore) s =
  match s with
  | x :: s' => if ch_eqb x underscore then re_match (pat_before underscore) s' else None
  | [] => None
  end.
Proof.
  destruct s as [|x s]; [done|].
  change (re_match (Atom (CLit underscore) Once false :: pat_before underscore) (x :: s))
    with (if 1 <=? span (cset_mem (CLit underscore)) (x :: s)
          then with_group false (take 1 (x :: s)) <$>
                 re_match (pat_before underscore) (drop 1 (x :: s))
          else None).
  cbn [span cset_mem]. destruct (ch_eqb x underscore); [|done].
  cbn [Nat.leb drop]. by rewrite fmap_with_group_false.
Qed.

Lemma re_match_prefix_machine_suffix_unfold (s : str) :
  re_match pat_prefix_machine_suffix s =
  backtrack (re_match (Atom (CLit underscore) Once false :: pat_before underscore))
    false s 0 (span (cset_mem CAny) s).
Proof. reflexivity. Qed.

Lemma re_match_prefix_machine_suffix_inv (s : str) (gs : list str) :
  re_match pat_prefix_machine_suffix s = Some gs ->
  exists pre tok rest,
    gs = [tok] /\ s = pre ++ underscore :: tok ++ underscore :: rest /\
    tok <> [] /\ (underscore ∉ tok) /\ (newline ∉ pre).
Proof.
  rewrite re_match_prefix_machine_suffix_unfold.
  intros (j & gs' & _ & Hjn & Hk & ->)%backtrack_inv; [|lia].
  rewrite re_match_enclosed_unfold in Hk.
  destruct (drop j s) as [|x s'] eqn:Hdrop; [done|].
  destruct (ch_eqb x underscore) eqn:Hx; [|done]. apply ch_eqb_true in Hx. subst x.
  apply re_match_before_inv in Hk as (tok & rest & -> & -> & Hne & Hc).
  exists (take j s), tok, rest. repeat split; [| done | done |].
  - by rewrite <- Hdrop, take_drop.
  - apply Forall_CAny. by apply span_take.
Qed.

Lemma re_match_prefix_machine_suffix (pre tok rest : str) :
  newline ∉ pre -> tok <> [] -> underscore ∉ tok ->
  (forall pre' tok' rest',
     pre ++ underscore :: tok ++ underscore :: rest
       = pre' ++ underscore :: tok' ++ underscore :: rest' ->
     newline ∉ pre' -> tok' <> [] -> underscore ∉ tok' ->
     length pre' <= length pre) ->
  re_match pat_prefix_machine_suffix (pre ++ underscore :: tok ++ underscore :: rest)
    = Some [tok].
Proof.
  intros Hpre Hne Hc Hmax. rewrite re_match_prefix_machine_suffix_unfold.
  set (s := pre ++ underscore :: tok ++ underscore :: rest) in *.
  assert (Hspan : length pre <= span (cset_mem CAny) s).
  { unfold s. clear Hmax s. induction pre as [|x pre IH]; cbn; [lia|].
    apply not_elem_of_cons in Hpre as [Hx Hpre].
    destruct (ch_eqb x newline) eqn:E; [apply ch_eqb_true in E; congruence|].
    cbn. specialize (IH Hpre). lia. }
  rewrite (backtrack_hit _ _ _ _ _ (length pre) [tok]); [done | lia | done | |].
  - unfold s. rewrite drop_app_length, re_match_enclosed_unfold, ch_eqb_refl.
    by apply re_match_before.
  - intros j' Hlt Hle.
    destruct (re_match _ (drop j' s)) as [gs|] eqn:E; [|done]. exfalso.
    rewrite re_match_enclosed_unfold in E.
    destruct (drop j' s) as [|x s'] eqn:Hdrop; [done|].
    destruct (ch_eqb x underscore) eqn:Hx; [|done]. apply ch_eqb_true in Hx. subst x.
    apply re_match_before_inv in E as (tok' & rest' & _ & -> & Hne' & Hc').
    assert (Hlen : length (take j' s) <= length pre).
    { apply (Hmax (take j' s) tok' rest'); [| | done | done].
      - by rewrite <- Hdrop, take_drop.
      - apply Forall_CAny. by apply span_take. }
    rewrite length_take in Hlen. pose proof (span_length (cset_mem CAny) s). lia.
Qed.

Lemma re_match_prefix_machine_suffix_None (s : str) :
  (forall pre tok rest,
     s = pre ++ underscore :: tok ++ underscore :: rest ->
     newline ∉ pre -> underscore ∉ tok -> tok = []) ->
  re_match pat_prefix_machine_suffix s = None.
Proof.
  intros Hno. destruct (re_match pat_prefix_machine_suffix s) as [gs|] eqn:E; [|done].
  apply re_match_prefix_machine_suffix_inv in E as (pre & tok & rest & _ & Hs & Hne & Hc & Hpre).
  by destruct (Hne (Hno pre tok rest Hs Hpre Hc)).
Qed.

(** ** Machine names *)

Lemma no_token_before_absent (c : ascii) (f : str) : c ∉ f -> no_token_before c f.
Proof.
  intros Hc tok rest -> _. exfalso. apply Hc.
  apply elem_of_app. right. apply elem_of_cons. by left.
Qed.

Lemma no_token_before_leading (c : ascii) (f : str) : no_token_before c (c :: f).
Proof.
  intros [|x tok] rest Heq Hc; [done|]. exfalso. injection Heq as <- _.
  apply Hc, elem_of_cons. by left.
Qed.

Lemma no_enclosed_token_absent (f : str) : underscore ∉ f -> no_enclosed_token f.
Proof.
  intros Hc pre tok rest -> _ _. exfalso. apply Hc.
  apply elem_of_app. right. apply elem_of_cons. by left.
Qed.

Lemma first_match_patterns (f : str) :
  first_match patterns f =
  match re_match (pat_before underscore) f with
  | Some gs => Some (group1 gs)
  | None =>
      match re_match pat_prefix_machine_suffix f with
      | Some gs => Some (group1 gs)
      | None =>
          match re_match (pat_before dot) f with
          | Some gs => Some (group1 gs)
          | None => None
          end
      end
  end.
Proof. reflexivity. Qed.

Lemma has_non_dot_token (tok rest : str) :
  tok <> [] -> dot ∉ tok -> posixpath.has_non_dot (tok ++ rest) 0 (length tok) = true.
Proof.
  intros Hne Hdot. unfold posixpath.has_non_dot.
  rewrite Nat.sub_0_r, drop_0, take_app_length.
  destruct tok as [|x tok]; [done|]. cbn.
  apply not_elem_of_cons in Hdot as [Hx _].
  destruct (ch_eqb x dot) eqn:E; [apply ch_eqb_true in E; congruence | done].
Qed.

(** A name with one dot, not in front, splits at that dot. *)
Lemma splitext_single_dot (tok rest : str) :
  tok <> [] -> dot ∉ tok -> dot ∉ rest -> slash ∉ tok ++ dot :: rest ->
  posixpath.splitext (tok ++ dot :: rest) = (tok, dot :: rest).
Proof.
  intros Hne Hdot Hrest Hslash. unfold posixpath.splitext.
  rewrite rfind_app_last by done. rewrite rfind_succ_None by done.
  rewrite has_non_dot_token by done. cbn [Nat.leb andb].
  by rewrite take_app_length, drop_app_length.
Qed.

Lemma splitext_fst_nonempty (f : str) : f <> [] -> fst (posixpath.splitext f) <> [].
Proof.
  intros Hne. unfold posixpath.splitext.
  destruct (rfind dot f) as [d|] eqn:Hd; [|done].
  destruct (_ && _) eqn:E; [|done]. cbn.
  apply andb_true_iff in E as [_ E]. unfold posixpath.has_non_dot in E.
  apply rfind_lt in Hd.
  destruct d as [|d]; [by rewrite Nat.sub_0_l in E|].
  destruct f; [done|]. done.
Qed.

Lemma rfind_lookup (c : ascii) (s : str) (i : nat) : rfind c s = Some i -> s !! i = Some c.
Proof.
  revert i. induction s as [|x s IH]; cbn; [done|]. intros i.
  destruct (rfind c s) as [j|].
  - intros [= <-]. cbn. by apply IH.
  - destruct (ch_eqb x c) eqn:E; [|done]. apply ch_eqb_true in E. by intros [= <-]; subst.
Qed.

(** A path the intake filter lets through does not end in a slash, so
    its last component is not empty. *)
Lemma basename_accepted_nonempty (file_path : str) :
  is_heap_dump file_path = true -> posixpath.basename file_path <> [].
Proof.
  intros (ext & Hext & pre & Hlow)%is_heap_dump_spec.
  unfold posixpath.basename, rfind_succ.
  destruct (rfind slash file_path) as [i|] eqn:Hi.
  - pose proof (rfind_lt _ _ _ Hi) as Hlt. pose proof (rfind_lookup _ _ _ Hi) as Hat.
    intros Hnil. apply (f_equal length) in Hnil. rewrite length_drop in Hnil. cbn in Hnil.
    assert (S i = length file_path) as Hlast by lia.
    assert (Hl : lower file_path !! i = Some slash).
    { unfold lower. rewrite list_lookup_fmap, Hat. done. }
    rewrite Hlow in Hl.
    assert (Hlen : length (pre ++ ext) = S i).
    { rewrite <- Hlow. unfold lower. by rewrite length_map. }
    rewrite length_app in Hlen.
    unfold heap_dump_extensions in Hext.
    apply elem_of_cons in Hext as [->|Hext]; [|apply elem_of_cons in Hext as [->|Hext];
      [|apply elem_of_cons in Hext as [->|Hext]; [|by apply elem_of_nil in Hext]]];
      cbn in Hlen; rewrite lookup_app_r in Hl by lia;
      match type of Hl with _ !! ?k = _ => replace k with (i - length pre) in Hl by lia end.
    + replace (i - length pre) with 5 in Hl by lia. discriminate Hl.
    + replace (i - length pre) with 4 in Hl by lia. discriminate Hl.
    + replace (i - length pre) with 3 in Hl by lia. discriminate Hl.
  - rewrite drop_0. intros ->. cbn in Hlow.
    destruct pre; [|done]. cbn in Hlow. subst ext.
    repeat (apply elem_of_cons in Hext as [Hext|Hext]; [discriminate Hext|]).
    by apply elem_of_nil in Hext.
Qed.

Lemma _extract_machine_name_nonempty (f : str) : f <> [] -> _extract_machine_name f <> [].
Proof.
  intros Hne. unfold _extract_machine_name. rewrite first_match_patterns.
  destruct (re_match (pat_before underscore) f) as [gs|] eqn:E1.
  { by apply re_match_before_inv in E1 as (tok & rest & -> & _ & ? & _). }
  destruct (re_match pat_prefix_machine_suffix f) as [gs|] eqn:E2.
  { by apply re_match_prefix_machine_suffix_inv in E2 as (pre & tok & rest & -> & _ & ? & _). }
  destruct (re_match (pat_before dot) f) as [gs|] eqn:E3.
  { by apply re_match_before_inv in E3 as (tok & rest & -> & _ & ? & _). }
  by apply splitext_fst_nonempty.
Qed.

(** C9, as the code has it: the extraction always yields a name, never an
    empty one for a file the intake filter accepts, and the patterns
    apply in order.  (1) If the first underscore is not the first
    character, the text before it.  (2) Otherwise, if a non-empty text
    without underscores stands between two underscores, the last such
    text (the leading [.*] is greedy and stays on one line).  (3) If no
    underscore pattern applies and the name has a single dot, not in
    front, the name without its extension.  (4) If no pattern applies,
    [os.path.splitext(name)[0]]. *)
Theorem C9_extract_machine_name (f : str) :
  (f <> [] -> _extract_machine_name f <> []) /\
  (forall file_path, is_heap_dump file_path = true ->
     _extract_machine_name (posixpath.basename file_path) <> []) /\
  (forall tok rest,
     f = tok ++ underscore :: rest -> tok <> [] -> underscore ∉ tok ->
     _extract_machine_name f = tok) /\
  (forall pre tok rest,
     no_token_before underscore f ->
     f = pre ++ underscore :: tok ++ underscore :: rest ->
     newline ∉ pre -> tok <> [] -> underscore ∉ tok ->
     (forall pre' tok' rest',
        f = pre' ++ underscore :: tok' ++ underscore :: rest' ->
        newline ∉ pre' -> tok' <> [] -> underscore ∉ tok' ->
        length pre' <= length pre) ->
     _extract_machine_name f = tok) /\
  (forall tok rest,
     no_token_before underscore f -> no_enclosed_token f ->
     f = tok ++ dot :: rest -> tok <> [] -> dot ∉ tok -> dot ∉ rest -> slash ∉ f ->
     _extract_machine_name f = tok /\ fst (posixpath.splitext f) = tok) /\
  (no_token_before underscore f -> no_enclosed_token f -> no_token_before dot f ->
   _extract_machine_name f = fst (posixpath.splitext f)).
Proof.
  split; [apply _extract_machine_name_nonempty|].
  split; [intros p Hp; by apply _extract_machine_name_nonempty, basename_accepted_nonempty|].
  unfold _extract_machine_name. rewrite first_match_patterns.
  split; [|split; [|split]].
  - intros tok rest -> Hne Hc. by rewrite re_match_before.
  - intros pre tok rest Hno Hf Hpre Hne Hc Hmax.
    rewrite re_match_before_None by done. subst f.
    by rewrite re_match_prefix_machine_suffix.
  - intros tok rest Hno1 Hno2 Hf Hne Hdot Hrest Hslash.
    rewrite re_match_before_None by done.
    rewrite re_match_prefix_machine_suffix_None by done. subst f.
    rewrite re_match_before by done. split; [done|].
    by rewrite splitext_single_dot.
  - intros Hno1 Hno2 Hno3.
    rewrite re_match_before_None by done.
    rewrite re_match_prefix_machine_suffix_None by done.
    by rewrite re_match_before_None.
Qed.

(** The four rules at work on ["web01_20240301.hprof"], ["_a_b_c.hprof"],
    ["heap.dump"] and [".hprof"]. *)
Lemma C9_extract_machine_name_witness :
  _extract_machine_name (lit "web01_20240301.hprof") = lit "web01" /\
  _extract_machine_name (lit "_a_b_c.hprof") = lit "b" /\
  _extract_machine_name (lit "heap.dump") = lit "heap" /\
  _extract_machine_name (lit ".hprof") = lit ".hprof" /\
  _extract_machine_name (posixpath.basename (lit "/dump/web01_1.HPROF")) <> [].
Proof.
  split; [|split; [|split; [|split]]].
  - apply (proj1 (proj2 (proj2 (C9_extract_machine_name (lit "web01_20240301.hprof"))))
             (lit "web01") (lit "20240301.hprof")); [reflexivity | discriminate | absent].
  - apply (proj1 (proj2 (proj2 (proj2 (C9_extract_machine_name (lit "_a_b_c.hprof")))))
             (lit "_a") (lit "b") (lit "c.hprof")).
    + apply no_token_before_leading.
    + reflexivity.
    + absent.
    + discriminate.
    + absent.
    + intros pre' tok' rest' Heq _ Hne' _.
      unfold lit in Heq. cbn [list_ascii_of_string] in Heq.
      do 3 (destruct pre' as [|? pre']; [cbn; lia|]).
      exfalso. apply (f_equal (drop 3)) in Heq. cbn in Heq.
      destruct pre' as [|? pre'].
      { apply (f_equal head) in Heq. vm_compute in Heq. discriminate Heq. }
      apply (f_equal (drop 1)) in Heq. cbn in Heq.
      assert (underscore ∉ lit "c.hprof") as Hout by absent.
      apply Hout. unfold lit. cbn [list_ascii_of_string].
      destruct pre' as [|? pre']; apply (f_equal (drop 1)) in Heq; cbn in Heq;
        rewrite Heq; apply elem_of_middle.
  - apply (proj1 (proj2 (proj2 (proj2 (proj2 (C9_extract_machine_name (lit "heap.dump"))))))
             (lit "heap") (lit "dump")).
    + apply no_token_before_absent. absent.
    + apply no_enclosed_token_absent. absent.
    + reflexivity.
    + discriminate.
    + absent.
    + absent.
    + absent.
  - apply (proj2 (proj2 (proj2 (proj2 (proj2 (C9_extract_machine_name (lit ".hprof"))))))).
    + apply no_token_before_absent. absent.
    + apply no_enclosed_token_absent. absent.
    + apply (no_token_before_leading dot).
  - apply (proj1 (proj2 (C9_extract_machine_name []))). reflexivity.
Defined.

(** C9, against the rules as the specification words them.  Rule 2: on
    ["_a_b_c.hprof"] the name is ["b"], which is no text between the
    first underscore and a later one.  Rule 3: on ["web01.2024.hprof"]
    the name is ["web01"], the text before the first dot, while the
    name without its extension is ["web01.2024"]. *)
Lemma C9_counterexample :
  (_extract_machine_name (lit "_a_b_c.hprof") = lit "b" /\
   forall tok rest,
     lit "_a_b_c.hprof" = underscore :: tok ++ underscore :: rest ->
     _extract_machine_name (lit "_a_b_c.hprof") <> tok) /\
  (_extract_machine_name (lit "web01.2024.hprof") = lit "web01" /\
   fst (posixpath.splitext (lit "web01.2024.hprof")) = lit "web01.2024").
Proof.
  split; [split; [reflexivity|] | split; reflexivity].
  intros tok rest Heq. change (_extract_machine_name (lit "_a_b_c.hprof")) with (lit "b").
  injection Heq as Heq. destruct tok as [|x tok]; [discriminate Heq|].
  injection Heq as <- _. discriminate.
Qed.

(** ** Intake filter *)

(** C10: a creation event makes [on_created] submit the file (one more
    report object than before) exactly when it is not a directory and
    its path, lowercased, ends with [.hprof], [.dump] or [.bin]; every
    other event leaves the whole system as it was.  The verdict depends
    on the lowercased path only. *)
Theorem C10_on_created_filter (event : fs_event) (now : datetime) (s : system) :
  let accepted :=
    is_directory event = false /\
    exists ext, ext ∈ [lit ".hprof"; lit ".dump"; lit ".bin"] /\
                exists pre, lower (src_path event) = pre ++ ext in
  (length (heap (on_created event now s)) = S (length (heap s)) <-> accepted) /\
  (accepted -> on_created event now s = _process_heap_dump (src_path event) now s) /\
  (~ accepted -> on_created event now s = s) /\
  (forall other : fs_event,
     is_directory other = is_directory event ->
     lower (src_path other) = lower (src_path event) ->
     (on_created other now s = s <-> on_created event now s = s)).
Proof.
  intros accepted.
  assert (Hacc : accepted <-> is_directory event = false /\ is_heap_dump (src_path event) = true).
  { unfold accepted. by rewrite is_heap_dump_spec. }
  assert (Hgrow : forall p, length (heap (_process_heap_dump p now s)) = S (length (heap s))).
  { intros p. cbn. rewrite length_app. cbn. lia. }
  assert (Hiff : forall ev : fs_event,
             on_created ev now s = s <->
             ~ (is_directory ev = false /\ is_heap_dump (src_path ev) = true)).
  { intros ev. unfold on_created.
    destruct (is_directory ev); [split; [intros _ [? _]; done | done]|].
    destruct (is_heap_dump (src_path ev)) eqn:Hd.
    - split; [|intros []; done]. intros Heq.
      pose proof (Hgrow (src_path ev)) as Hg. rewrite Heq in Hg. lia.
    - split; [intros _ [_ ?]; done | done]. }
  split; [|split; [|split]].
  - split.
    + intros Hlen. apply Hacc. destruct (is_directory event) eqn:Hdir.
      * unfold on_created in Hlen. rewrite Hdir in Hlen. lia.
      * split; [done|]. unfold on_created in Hlen. rewrite Hdir in Hlen.
        destruct (is_heap_dump (src_path event)); [done | lia].
    + intros [Hdir Hd]%Hacc. unfold on_created. rewrite Hdir, Hd. apply Hgrow.
  - intros [Hdir Hd]%Hacc. unfold on_created. by rewrite Hdir, Hd.
  - intros Hn. apply Hiff. by rewrite <- Hacc.
  - intros other Hdir Hlow. rewrite !Hiff. unfold is_heap_dump. by rewrite Hdir, Hlow.
Qed.

(** ** Invariants of the running system *)

Lemma terminal_not_processing (v : str) : terminal v -> v <> st_processing.
Proof. by intros [-> | ->]. Qed.

Lemma count_updates_app a tr evs :
  count_updates a (tr ++ evs) = count_updates a tr + count_updates a evs.
Proof. unfold count_updates. by rewrite List.filter_app, length_app. Qed.

Lemma count_calls_app a tr evs :
  count_calls a (tr ++ evs) = count_calls a tr + count_calls a evs.
Proof. unfold count_calls. by rewrite List.filter_app, length_app. Qed.

Lemma count_out_of_range n a tr :
  Forall (in_range n) tr -> n <= a -> count_updates a tr = 0 /\ count_calls a tr = 0.
Proof.
  intros Htr Hn. unfold count_updates, count_calls.
  induction Htr as [|e tr He _ [IH1 IH2]]; [done|]. cbn.
  destruct e as [| b | b | b]; cbn in *; try done.
  - rewrite bool_decide_eq_false_2 by lia. done.
  - rewrite bool_decide_eq_false_2 by lia. done.
Qed.

Lemma count_logged a evs :
  Forall is_logged evs -> count_updates a evs = 0 /\ count_calls a evs = 0.
Proof.
  unfold count_updates, count_calls.
  induction 1 as [|e evs He _ [IH1 IH2]]; [done|]. by destruct e.
Qed.

Lemma in_range_logged n evs : Forall is_logged evs -> Forall (in_range n) evs.
Proof. intros H. eapply Forall_impl; [exact H|]. by intros []. Qed.

Lemma in_range_mono n m tr : n <= m -> Forall (in_range n) tr -> Forall (in_range m) tr.
Proof. intros Hnm H. eapply Forall_impl; [exact H|]. intros []; cbn; lia. Qed.

Lemma process_heap_dump_terminal self env file_path memory_limit :
  terminal (res_status (process_heap_dump self env file_path memory_limit).1).
Proof.
  unfold process_heap_dump. destruct (outcome env) as [rc err t | | what t]; cbn.
  - case_bool_decide; cbn; [by left | by right].
  - by right.
  - by right.
Qed.

Lemma process_heap_dump_logged self env file_path memory_limit :
  Forall is_logged (process_heap_dump self env file_path memory_limit).2.
Proof.
  unfold process_heap_dump. destruct (outcome env) as [rc err t | | what t]; cbn.
  - case_bool_decide; cbn; repeat constructor.
  - repeat constructor.
  - repeat constructor.
Qed.

Lemma lookup_set_pc_eq i p ts t :
  ts !! i = Some t -> set_pc i p ts !! i = Some {| t_report := t_report t; t_pc := p |}.
Proof. intros H. unfold set_pc. by rewrite list_lookup_alter_eq, H. Qed.

Lemma lookup_set_pc_ne i j p ts : i <> j -> set_pc i p ts !! j = ts !! j.
Proof. intros H. unfold set_pc. by rewrite list_lookup_alter_ne. Qed.

(** A step that assigns one attribute of the report of thread [i]. *)
Lemma inv_assign s i t r f p :
  inv s -> tasks s !! i = Some t -> heap s !! i = Some r ->
  report_id (f r) = report_id r ->
  pc_inv (f r) p (count_updates i (trace s)) (count_calls i (trace s)) ->
  inv (mkSystem (processor s) (alter f i (heap s)) (reports s)
         (set_pc i p (tasks s)) (trace s)).
Proof.
  intros [Hlen Htask Hstore Htrace] Ht Hr Hid Hpc.
  split; cbn [tasks heap reports trace processor].
  - unfold set_pc. by rewrite !length_alter.
  - intros j tj Hj. destruct (decide (i = j)) as [<-|Hne].
    + rewrite (lookup_set_pc_eq _ _ _ _ Ht) in Hj. injection Hj as <-. cbn.
      destruct (Htask i t Ht) as [Hrep _]. split; [done|].
      exists (f r). split; [|done]. by rewrite list_lookup_alter_eq, Hr.
    + rewrite lookup_set_pc_ne in Hj by done.
      destruct (Htask j tj Hj) as (Hrep & rj & Hrj & Hpcj). split; [done|].
      exists rj. split; [|done]. by rewrite list_lookup_alter_ne.
  - intros id a Hida. destruct (Hstore id a Hida) as (ra & Hra & Hidr).
    destruct (decide (i = a)) as [<-|Hne].
    + exists (f r). rewrite list_lookup_alter_eq, Hr. split; [done|]. congruence.
    + exists ra. by rewrite list_lookup_alter_ne.
  - by rewrite length_alter.
Qed.

(** A step of thread [i] that leaves the heap alone and adds events of
    its own to the trace. *)
Lemma inv_events s i t r p m evs :
  inv s -> tasks s !! i = Some t -> heap s !! i = Some r ->
  store_ok (heap s) m ->
  Forall (in_range (length (heap s))) evs ->
  (forall j, j <> i -> count_updates j evs = 0 /\ count_calls j evs = 0) ->
  pc_inv r p (count_updates i (trace s ++ evs)) (count_calls i (trace s ++ evs)) ->
  inv (mkSystem (processor s) (heap s) m (set_pc i p (tasks s)) (trace s ++ evs)).
Proof.
  intros [Hlen Htask Hstore Htrace] Ht Hr Hm Hevs Hother Hpc.
  split; cbn [tasks heap reports trace processor].
  - unfold set_pc. by rewrite length_alter.
  - intros j tj Hj. destruct (decide (i = j)) as [<-|Hne].
    + rewrite (lookup_set_pc_eq _ _ _ _ Ht) in Hj. injection Hj as <-. cbn.
      destruct (Htask i t Ht) as [Hrep _]. split; [done|]. by exists r.
    + rewrite lookup_set_pc_ne in Hj by done.
      destruct (Htask j tj Hj) as (Hrep & rj & Hrj & Hpcj). split; [done|].
      exists rj. split; [done|].
      rewrite count_updates_app, count_calls_app.
      destruct (Hother j) as [-> ->]; [done|]. by rewrite !Nat.add_0_r.
  - done.
  - by apply Forall_app.
Qed.

Lemma update_report_ok h m a : store_ok h m -> store_ok h (update_report h m a).
Proof.
  intros Hm. unfold update_report. destruct (h !! a) as [r|] eqn:Hr; [|done].
  case_bool_decide; [|done]. intros id b.
  destruct (decide (report_id r = id)) as [<-|Hne].
  - rewrite lookup_insert_eq. intros [= <-]. by exists r.
  - rewrite lookup_insert_ne by done. apply Hm.
Qed.

Lemma count_updates_cons a e tr :
  count_updates a (e :: tr) = (if is_update a e then 1 else 0) + count_updates a tr.
Proof. unfold count_updates. cbn. by destruct (is_update a e). Qed.

Lemma count_calls_cons a e tr :
  count_calls a (e :: tr) = (if is_process a e then 1 else 0) + count_calls a tr.
Proof. unfold count_calls. cbn. by destruct (is_process a e). Qed.

Lemma inv_initial p : inv (initial p).
Proof.
  split; cbn.
  - done.
  - intros i t. by rewrite lookup_nil.
  - intros id a. by rewrite lookup_empty.
  - constructor.
Qed.

Lemma inv_submit s file_path now : inv s -> inv (_process_heap_dump file_path now s).
Proof.
  intros [Hlen Htask Hstore Htrace]. unfold _process_heap_dump.
  set (report := mkReport _ _ _ _ _ _ _ _ _).
  set (evs := [AddCalled _; Logged _ _]).
  assert (Hnew : (heap s ++ [report]) !! length (heap s) = Some report)
    by by apply list_lookup_middle.
  assert (Hevs : forall j, count_updates j evs = 0 /\ count_calls j evs = 0) by done.
  split; cbn [tasks heap reports trace processor].
  - rewrite !length_app. cbn. lia.
  - intros j tj Hj. destruct (decide (j < length (tasks s))) as [Hlt|Hge].
    + rewrite lookup_app_l in Hj by done.
      destruct (Htask j tj Hj) as (Hrep & rj & Hrj & Hpcj). split; [done|].
      exists rj. split; [by apply lookup_app_l_Some|].
      rewrite count_updates_app, count_calls_app.
      destruct (Hevs j) as [-> ->]. by rewrite !Nat.add_0_r.
    + rewrite lookup_app_r in Hj by lia.
      destruct (j - length (tasks s)) as [|k] eqn:Hk; [|by destruct k].
      injection Hj as <-. cbn [t_report t_pc].
      assert (j = length (heap s)) as -> by (apply lookup_lt_Some in Hnew; lia).
      split; [done|]. exists report. split; [done|].
      rewrite count_updates_app, count_calls_app.
      destruct (Hevs (length (heap s))) as [-> ->].
      destruct (count_out_of_range _ (length (heap s)) _ Htrace) as [-> ->]; done.
  - unfold add_report. rewrite Hnew. intros id a.
    destruct (decide (report_id report = id)) as [<-|Hne].
    + rewrite lookup_insert_eq. intros [= <-]. by exists report.
    + rewrite lookup_insert_ne by done. intros Hida.
      destruct (Hstore id a Hida) as (ra & Hra & Hidr). exists ra.
      split; [by apply lookup_app_l_Some | done].
  - rewrite length_app. cbn [length]. apply Forall_app. split.
    + eapply in_range_mono; [|done]. lia.
    + repeat constructor. cbn. lia.
Qed.

Lemma step_inv l s : inv s -> inv (step l s).
Proof.
  intros Hinv. destruct l as [event now | i env]; cbn [step].
  { unfold on_created. destruct (is_directory event); [done|].
    destruct (is_heap_dump _); [by apply inv_submit | done]. }
  unfold _background_process.
  destruct (tasks s !! i) as [t|] eqn:Ht; [|done].
  destruct (inv_task _ Hinv i t Ht) as (Hrep & r & Hr & Hpc).
  rewrite Hrep, Hr.
  assert (Hi : i < length (heap s)) by by eapply lookup_lt_Some.
  destruct (t_pc t) as [|res|res|res|res|res|res|res|] eqn:Hp; cbn [pc_inv] in Hpc.
  - destruct Hpc as (Hst & Hu & Hc).
    pose proof (process_heap_dump_terminal (processor s) env (file_path r)
                  default_memory_limit) as Hterm.
    pose proof (process_heap_dump_logged (processor s) env (file_path r)
                  default_memory_limit) as Hlog.
    destruct (process_heap_dump _ _ _ _) as [res logs]. cbn [fst snd] in Hterm, Hlog.
    apply (inv_events s i t r); try done.
    + by apply inv_store.
    + constructor; [done | by apply in_range_logged].
    + intros j Hj. rewrite count_updates_cons, count_calls_cons. cbn [is_update is_process].
      rewrite bool_decide_eq_false_2 by done.
      by destruct (count_logged j logs Hlog) as [-> ->].
    + cbn [pc_inv]. rewrite count_updates_app, count_calls_app.
      rewrite count_updates_cons, count_calls_cons. cbn [is_update is_process].
      rewrite bool_decide_eq_true_2 by done.
      destruct (count_logged i logs Hlog) as [-> ->]. rewrite Hu, Hc. done.
  - destruct Hpc as (Hst & Hterm & Hu & Hc). by apply (inv_assign s i t r).
  - destruct Hpc as (Hst & Hterm & Hu & Hc). by apply (inv_assign s i t r).
  - destruct Hpc as (Hst & Hterm & Hu & Hc). by apply (inv_assign s i t r).
  - destruct Hpc as (Hst & Hterm & Hu & Hc). by apply (inv_assign s i t r).
  - destruct Hpc as (Hst & Hterm & Hu & Hc). by apply (inv_assign s i t r).
  - destruct Hpc as (Hst & Hterm & Hu & Hc).
    apply (inv_events s i t r); try done.
    + apply update_report_ok, inv_store, Hinv.
    + by repeat constructor.
    + intros j Hj. rewrite count_updates_cons, count_calls_cons. cbn [is_update is_process].
      by rewrite bool_decide_eq_false_2 by done.
    + cbn [pc_inv]. rewrite count_updates_app, count_calls_app.
      rewrite count_updates_cons, count_calls_cons. cbn [is_update is_process].
      rewrite bool_decide_eq_true_2 by done. rewrite Hu, Hc. done.
  - destruct Hpc as (Hst & Hterm & Hu & Hc).
    assert (Hlogd : is_logged (completion_log r res))
      by (unfold completion_log; by case_bool_decide).
    apply (inv_events s i t r); try done.
    + by apply inv_store.
    + apply in_range_logged. by repeat constructor.
    + intros j Hj. apply count_logged. by repeat constructor.
    + cbn [pc_inv]. rewrite count_updates_app, count_calls_app.
      destruct (count_logged i [completion_log r res]) as [-> ->]; [by repeat constructor|].
      rewrite Hu, Hc. split; [by rewrite Hst | done].
  - done.
Qed.

Lemma reachable_inv s : reachable s -> inv s.
Proof. induction 1; [apply inv_initial | by apply step_inv]. Qed.

Lemma reachable_run ls s : reachable s -> reachable (run ls s).
Proof.
  revert s. induction ls as [|l ls IH]; intros s Hs; [done|].
  cbn. apply IH. by constructor.
Qed.

(** ** Lifecycle of a record *)

Lemma thread_progress s i env t :
  inv s -> tasks s !! i = Some t ->
  exists t', tasks (step (ThreadRuns i env) s) !! i = Some t' /\
             remaining (t_pc t') = pred (remaining (t_pc t)).
Proof.
  intros Hinv Ht. destruct (inv_task _ Hinv i t Ht) as (Hrep & r & Hr & _).
  cbn [step]. unfold _background_process. rewrite Ht, Hrep, Hr.
  destruct (t_pc t) eqn:Hp;
    try destruct (process_heap_dump _ _ _ _) as [res' logs];
    cbn [tasks]; rewrite ?(lookup_set_pc_eq _ _ _ _ Ht);
    try (eexists; split; [reflexivity | done]).
  exists t. by rewrite Hp.
Qed.

Lemma thread_finishes s i env n :
  inv s -> forall t, tasks s !! i = Some t -> remaining (t_pc t) <= n ->
  exists t', tasks (run (replicate n (ThreadRuns i env)) s) !! i = Some t' /\
             t_pc t' = Finished.
Proof.
  revert s. induction n as [|n IH]; intros s Hinv t Ht Hn.
  - exists t. split; [done|]. destruct (t_pc t); cbn in Hn; done || lia.
  - cbn [replicate run foldl].
    destruct (thread_progress s i env t Hinv Ht) as (t' & Ht' & Hrem).
    apply (IH _ (step_inv _ _ Hinv) t' Ht'). lia.
Qed.

(** What one step does to the report at an address: nothing, or the
    one attribute assignment its thread stands at. *)
Lemma step_status l s a r :
  inv s -> heap s !! a = Some r ->
  exists r', heap (step l s) !! a = Some r' /\
    (status r' = status r \/ (status r = st_processing /\ terminal (status r'))).
Proof.
  intros Hinv Ha. destruct l as [event now | i env]; cbn [step].
  { unfold on_created. destruct (is_directory event); [by exists r; auto|].
    destruct (is_heap_dump _); [|by exists r; auto].
    exists r. split; [|by left]. by apply lookup_app_l_Some. }
  unfold _background_process.
  destruct (tasks s !! i) as [t|] eqn:Ht; [|by exists r; auto].
  destruct (inv_task _ Hinv i t Ht) as (Hrep & ri & Hri & Hpc).
  rewrite Hrep, Hri.
  destruct (decide (i = a)) as [->|Hne].
  - assert (ri = r) as -> by congruence.
    destruct (t_pc t) eqn:Hp; cbn [pc_inv] in Hpc;
      try destruct (process_heap_dump _ _ _ _) as [res' logs];
      cbn [heap]; rewrite ?list_lookup_alter_eq, ?Ha; cbn [fmap option_fmap option_map];
      try (eexists; split; [reflexivity | by left]).
    destruct Hpc as (Hst & Hterm & _).
    eexists; split; [reflexivity|]. right. done.
  - destruct (t_pc t); try destruct (process_heap_dump _ _ _ _) as [res' logs];
      cbn [heap]; rewrite ?list_lookup_alter_ne by done; by exists r; auto.
Qed.

(** Once its thread has finished, no step changes a report. *)
Lemma step_finished_frozen l s a r t :
  inv s -> heap s !! a = Some r -> tasks s !! a = Some t -> t_pc t = Finished ->
  heap (step l s) !! a = Some r.
Proof.
  intros Hinv Ha Hta Hfin. destruct l as [event now | i env]; cbn [step].
  { unfold on_created. destruct (is_directory event); [done|].
    destruct (is_heap_dump _); [|done]. by apply lookup_app_l_Some. }
  unfold _background_process.
  destruct (tasks s !! i) as [ti|] eqn:Ht; [|done].
  destruct (inv_task _ Hinv i ti Ht) as (Hrep & ri & Hri & _).
  rewrite Hrep, Hri.
  destruct (decide (i = a)) as [->|Hne].
  - assert (ti = t) as -> by congruence. by rewrite Hfin.
  - destruct (t_pc ti); try destruct (process_heap_dump _ _ _ _) as [res' logs];
      cbn [heap]; rewrite ?list_lookup_alter_ne by done; done.
Qed.

(** The life of a record's state and of the thread that works on it:
    in every reachable state and for every next step, the state of
    a record stays as it is or moves from ['processing'] to ['completed']
    or ['failed'], a state that is ['completed'] or ['failed'] stays,
    and the record of a finished thread does not change at all; for
    every thread, [update_report] and the analyzer have been called at
    most once, the write-back finds the record in a terminal state, and
    a thread that has finished has made exactly one write-back and
    exactly one analyzer call; every thread finishes within the eight
    statements of its body. *)
Theorem status_lifecycle (s : system) (l : label) :
  reachable s ->
  (forall a r, heap s !! a = Some r ->
     exists r', heap (step l s) !! a = Some r' /\
       (status r' = status r \/
        (status r = st_processing /\
         (status r' = st_completed \/ status r' = st_failed))) /\
       (status r = st_completed \/ status r = st_failed -> status r' = status r) /\
       (forall t, tasks s !! a = Some t -> t_pc t = Finished -> r' = r)) /\
  (forall i t, tasks s !! i = Some t ->
     count_updates (t_report t) (trace s) <= 1 /\
     count_calls (t_report t) (trace s) <= 1 /\
     (forall res, t_pc t = AtUpdate res ->
        exists r, heap s !! t_report t = Some r /\
                  (status r = st_completed \/ status r = st_failed)) /\
     (t_pc t = Finished ->
        count_updates (t_report t) (trace s) = 1 /\
        count_calls (t_report t) (trace s) = 1 /\
        exists r, heap s !! t_report t = Some r /\
                  (status r = st_completed \/ status r = st_failed))) /\
  (forall i env, i < length (tasks s) ->
     exists t, tasks (run (replicate 8 (ThreadRuns i env)) s) !! i = Some t /\
               t_pc t = Finished).
Proof.
  intros Hinv%reachable_inv. split; [|split].
  - intros a r Ha. destruct (step_status l s a r Hinv Ha) as (r' & Hr' & Hst).
    exists r'. split; [done|]. split; [done|]. split.
    + intros Hterm. destruct Hst as [Hst | [Hst _]]; [done|].
      by destruct (terminal_not_processing _ Hterm).
    + intros t Ht Hfin.
      pose proof (step_finished_frozen l s a r t Hinv Ha Ht Hfin). congruence.
  - intros i t Ht. destruct (inv_task _ Hinv i t Ht) as (Hrep & r & Hr & Hpc).
    rewrite Hrep.
    assert (count_updates i (trace s) <= 1 /\ count_calls i (trace s) <= 1) as [Hu Hc]
      by (destruct (t_pc t); cbn [pc_inv] in Hpc; lia).
    split; [done|]. split; [done|]. split.
    + intros res Hres. rewrite Hres in Hpc. destruct Hpc as (Hst & Hterm & _).
      exists r. split; [done|]. rewrite Hst. exact Hterm.
    + intros Hfin. rewrite Hfin in Hpc. destruct Hpc as (Hterm & -> & ->).
      split; [done|]. split; [done|]. by exists r.
  - intros i env Hi. destruct (lookup_lt_is_Some_2 (tasks s) i Hi) as [t Ht].
    apply (thread_finishes s i env 8 Hinv t Ht). destruct (t_pc t); cbn; lia.
Qed.

(** ** Dates *)

Lemma ord_digit (n : nat) : ord (digit n) = 48 + n mod 10.
Proof.
  unfold ord, digit, chr. apply nat_ascii_embedding.
  pose proof (Nat.mod_upper_bound n 10). lia.
Qed.

Lemma is_digit_digit (n : nat) : is_digit (digit n) = true.
Proof.
  unfold is_digit. rewrite ord_digit. pose proof (Nat.mod_upper_bound n 10).
  apply andb_true_iff. split; apply Nat.leb_le; lia.
Qed.

Lemma digit_val_digit (n : nat) : digit_val (digit n) = n mod 10.
Proof. unfold digit_val. rewrite ord_digit. lia. Qed.

Lemma decimal4 (y : nat) :
  y <= 9 * 1000 + 999 ->
  1000 * ((y / 1000) mod 10) + 100 * ((y / 100) mod 10) + 10 * ((y / 10) mod 10) + y mod 10 = y.
Proof.
  intros Hy.
  assert (E2 : y / 100 = y / 10 / 10) by (rewrite Nat.Div0.div_div; reflexivity).
  assert (E3 : y / 1000 = y / 10 / 10 / 10) by (rewrite !Nat.Div0.div_div; reflexivity).
  rewrite E2, E3.
  pose proof (Nat.div_mod_eq y 10) as H1.
  pose proof (Nat.div_mod_eq (y / 10) 10) as H2.
  pose proof (Nat.div_mod_eq (y / 10 / 10) 10) as H3.
  pose proof (Nat.div_mod_eq (y / 10 / 10 / 10) 10) as H4.
  pose proof (Nat.mod_upper_bound y 10).
  pose proof (Nat.mod_upper_bound (y / 10) 10).
  pose proof (Nat.mod_upper_bound (y / 10 / 10) 10).
  pose proof (Nat.mod_upper_bound (y / 10 / 10 / 10) 10).
  generalize dependent (y / 10 / 10 / 10 / 10). intros q4.
  generalize dependent ((y / 10 / 10 / 10) mod 10). intros r4.
  generalize dependent (y / 10 / 10 / 10). intros q3.
  generalize dependent ((y / 10 / 10) mod 10). intros r3.
  generalize dependent (y / 10 / 10). intros q2.
  generalize dependent ((y / 10) mod 10). intros r2.
  generalize dependent (y / 10). intros q1.
  generalize dependent (y mod 10). intros r1.
  intros. lia.
Qed.

Lemma year_alts_pad4 (y : nat) (rest : str) :
  y <= 9 * 1000 + 999 -> year_alts (pad4 y ++ rest) = [(y, rest)].
Proof.
  intros Hy. unfold pad4, year_alts. cbn [app].
  rewrite !is_digit_digit, !digit_val_digit. cbn [andb].
  by rewrite decimal4.
Qed.

(** Case analysis on a number that the context bounds. *)
Ltac cases n tac :=
  destruct n as [|n]; [first [lia | tac] | first [lia | cases n tac]].

(** The text [YYYY-MM-DD] of a day is read back as that day. *)
Lemma ymd_matches_canonical (y m d : nat) :
  y <= 9 * 1000 + 999 -> 1 <= m <= 12 -> 1 <= d <= 31 ->
  head (ymd_matches (pad4 y ++ dash :: pad2 m ++ dash :: pad2 d)) = Some (y, m, d, []).
Proof.
  intros Hy Hm Hd. unfold ymd_matches. rewrite year_alts_pad4 by done.
  cases m ltac:(cases d ltac:(vm_compute; reflexivity)).
Qed.

Lemma valid_date_bounds (y m d : nat) :
  valid_date y m d = true ->
  y <= 9 * 1000 + 999 /\ (1 <= m <= 12) /\ (1 <= d <= 31).
Proof.
  unfold valid_date. rewrite !andb_true_iff, !Nat.leb_le.
  intros (((((? & ?) & ?) & ?) & ?) & Hd).
  assert (days_in_month y m <= 31).
  { unfold days_in_month.
    do 12 (destruct m as [|m]; [destruct (is_leap y); lia|]). lia. }
  lia.
Qed.

Lemma strptime_date_canonical (y m d : nat) :
  valid_date y m d = true ->
  strptime_date (pad4 y ++ dash :: pad2 m ++ dash :: pad2 d) = Some (mkDate y m d).
Proof.
  intros Hv. destruct (valid_date_bounds _ _ _ Hv) as (Hy & Hm & Hd).
  pose proof (ymd_matches_canonical y m d Hy Hm Hd) as Hhd.
  unfold strptime_date.
  destruct (ymd_matches _) as [|[[[y' m'] d'] rest] tl]; [done|].
  injection Hhd as -> -> -> ->. by rewrite Hv.
Qed.

(** ** The record store *)

Lemma elem_of_get_all_reports (m : gmap str addr) (a : addr) :
  a ∈ get_all_reports m <-> exists id, m !! id = Some a.
Proof.
  unfold get_all_reports. rewrite list_elem_of_fmap. split.
  - intros ([id b] & -> & Hin). exists id. by apply elem_of_map_to_list in Hin.
  - intros [id Hid]. exists (id, a). split; [done|]. by apply elem_of_map_to_list.
Qed.

(** C8: [get_reports_by_date] returns exactly the stored records whose
    timestamp has the year, month and day the string parses to,
    whatever their time of day; a string that does not parse gives the
    empty list; the text [YYYY-MM-DD] of every day of the calendar
    parses to that day, ["not-a-date"] does not parse. *)
Theorem C8_get_reports_by_date (h : list HeapDumpReport) (m : gmap str addr)
    (date_str : str) :
  (forall a, a ∈ get_reports_by_date h m date_str <->
     exists id report target,
       m !! id = Some a /\ h !! a = Some report /\
       strptime_date date_str = Some target /\
       year (timestamp report) = d_year target /\
       month (timestamp report) = d_month target /\
       day (timestamp report) = d_day target) /\
  (strptime_date date_str = None -> get_reports_by_date h m date_str = []) /\
  (forall y mo d, valid_date y mo d = true ->
     strptime_date (pad4 y ++ lit "-" ++ pad2 mo ++ lit "-" ++ pad2 d) = Some (mkDate y mo d)) /\
  strptime_date (lit "2024-03-01") = Some (mkDate 2024 3 1) /\
  strptime_date (lit "not-a-date") = None.
Proof.
  split; [|split; [|split; [|split]]].
  - intros a. unfold get_reports_by_date.
    destruct (strptime_date date_str) as [target|].
    + rewrite list_elem_of_In, List.filter_In, <- list_elem_of_In, elem_of_get_all_reports.
      unfold holds. split.
      * intros [[id Hid] Hh]. destruct (h !! a) as [report|] eqn:Hr; [|done].
        apply bool_decide_eq_true in Hh. exists id, report, target.
        subst target. done.
      * intros (id & report & target' & Hid & Hr & [= <-] & Hy & Hm & Hd).
        split; [by exists id|]. rewrite Hr. apply bool_decide_eq_true.
        unfold date_of. destruct target. cbn in *. congruence.
    + split; [by intros ?%elem_of_nil|]. by intros (? & ? & ? & ? & ? & ? & ?).
  - intros Hnone. unfold get_reports_by_date. by rewrite Hnone.
  - intros y mo d Hv. by apply strptime_date_canonical.
  - reflexivity.
  - reflexivity.
Qed.

Lemma submit_heap s file_path now :
  heap (_process_heap_dump file_path now s) = heap s ++ [new_report file_path now].
Proof. reflexivity. Qed.

Lemma submit_reports s file_path now :
  reports (_process_heap_dump file_path now s) =
  <[report_id (new_report file_path now) := length (heap s)]> (reports s).
Proof.
  unfold _process_heap_dump. cbn [reports]. unfold add_report.
  by rewrite list_lookup_middle.
Qed.

(** C4: a submission stores the new record, in state ['processing'],
    under the id [machine_YYYYMMDD_HHMMSS], replacing whatever the id
    held; when a second file of the same machine is submitted within
    the same second, the store holds one record for that id, the
    second one, and the first is no longer listed. *)
Theorem C4_submit_id (s : system) (path1 path2 : str) (now1 now2 : datetime) :
  reachable s ->
  let machine := _extract_machine_name (posixpath.basename path1) in
  let id := machine ++ lit "_" ++ pad4 (year now1) ++ pad2 (month now1) ++ pad2 (day now1)
              ++ lit "_" ++ pad2 (hour now1) ++ pad2 (minute now1) ++ pad2 (second now1) in
  let a1 := length (heap s) in
  let a2 := S (length (heap s)) in
  let s1 := _process_heap_dump path1 now1 s in
  let s2 := _process_heap_dump path2 now2 s1 in
  (reports s1 = <[id := a1]> (reports s) /\
   heap s1 !! a1 =
     Some (mkReport machine now1 (posixpath.basename path1) path1
             st_processing None None None None)) /\
  (_extract_machine_name (posixpath.basename path2) = machine ->
   year now2 = year now1 -> month now2 = month now1 -> day now2 = day now1 ->
   hour now2 = hour now1 -> minute now2 = minute now1 -> second now2 = second now1 ->
   reports s2 = <[id := a2]> (reports s) /\
   heap s2 !! a2 =
     Some (mkReport machine now2 (posixpath.basename path2) path2
             st_processing None None None None) /\
   get_report_by_id (reports s2) id = Some a2 /\
   size (reports s2) = size (reports s1) /\
   a2 ∈ get_all_reports (reports s2) /\
   a1 ∉ get_all_reports (reports s2)).
Proof.
  intros Hinv%reachable_inv machine id a1 a2 s1 s2.
  assert (Hid1 : report_id (new_report path1 now1) = id) by reflexivity.
  assert (Hs1 : reports s1 = <[id := a1]> (reports s)).
  { unfold s1. by rewrite submit_reports, Hid1. }
  split.
  { split; [done|]. unfold s1. rewrite submit_heap. by apply list_lookup_middle. }
  intros Hm Hy Hmo Hd Hh Hmi Hse.
  assert (Hid2 : report_id (new_report path2 now2) = id).
  { unfold report_id, new_report, strftime_id. cbn [machine_name timestamp].
    rewrite Hm, Hy, Hmo, Hd, Hh, Hmi, Hse. reflexivity. }
  assert (Hlen1 : length (heap s1) = a2).
  { unfold s1. rewrite submit_heap, length_app. cbn. unfold a2. lia. }
  assert (Hs2 : reports s2 = <[id := a2]> (reports s)).
  { unfold s2. rewrite submit_reports, Hid2, Hlen1, Hs1. apply insert_insert_eq. }
  split; [done|]. split.
  { unfold s2. rewrite submit_heap, <- Hlen1.
    replace (new_report path2 now2) with
      (mkReport machine now2 (posixpath.basename path2) path2 st_processing None None None None)
      by (unfold new_report; by rewrite Hm).
    by apply list_lookup_middle. }
  split; [unfold get_report_by_id; by rewrite Hs2, lookup_insert_eq|].
  split.
  { rewrite Hs2, Hs1. by rewrite !map_size_insert. }
  split.
  { apply elem_of_get_all_reports. exists id. by rewrite Hs2, lookup_insert_eq. }
  intros [id' Hid']%elem_of_get_all_reports. rewrite Hs2 in Hid'.
  destruct (decide (id = id')) as [<-|Hne].
  - rewrite lookup_insert_eq in Hid'. injection Hid' as Heq. unfold a1, a2 in Heq. lia.
  - rewrite lookup_insert_ne in Hid' by done.
    destruct (inv_store _ Hinv id' a1 Hid') as (r & Hr & _).
    apply lookup_lt_Some in Hr. unfold a1 in Hr. lia.
Qed.

(** ** A whole run of a thread *)

Lemma thread_step_effect s i env p r :
  tasks s !! i = Some {| t_report := i; t_pc := p |} -> heap s !! i = Some r ->
  let s' := _background_process i env s in
  processor s' = processor s /\
  match p with
  | AtCall =>
      heap s' = heap s /\ reports s' = reports s /\
      tasks s' !! i = Some {| t_report := i;
        t_pc := AtStatus (process_heap_dump (processor s) env (file_path r)
                            default_memory_limit).1 |}
  | AtStatus res =>
      heap s' = alter (set_status (res_status res)) i (heap s) /\ reports s' = reports s /\
      tasks s' !! i = Some {| t_report := i; t_pc := AtSuspects res |}
  | AtSuspects res =>
      heap s' = alter (set_suspects_report (res_suspects_report res)) i (heap s) /\
      reports s' = reports s /\
      tasks s' !! i = Some {| t_report := i; t_pc := AtOverview res |}
  | AtOverview res =>
      heap s' = alter (set_overview_report (res_overview_report res)) i (heap s) /\
      reports s' = reports s /\
      tasks s' !! i = Some {| t_report := i; t_pc := AtError res |}
  | AtError res =>
      heap s' = alter (set_error_message (res_error_message res)) i (heap s) /\
      reports s' = reports s /\
      tasks s' !! i = Some {| t_report := i; t_pc := AtTime res |}
  | AtTime res =>
      heap s' = alter (set_processing_time (res_processing_time res)) i (heap s) /\
      reports s' = reports s /\
      tasks s' !! i = Some {| t_report := i; t_pc := AtUpdate res |}
  | AtUpdate res =>
      heap s' = heap s /\ reports s' = update_report (heap s) (reports s) i /\
      tasks s' !! i = Some {| t_report := i; t_pc := AtLog res |}
  | AtLog res =>
      heap s' = heap s /\ reports s' = reports s /\
      tasks s' !! i = Some {| t_report := i; t_pc := Finished |}
  | Finished => s' = s
  end.
Proof.
  intros Ht Hr. cbv zeta. unfold _background_process. rewrite Ht. cbn [t_report t_pc].
  rewrite Hr.
  destruct p; try destruct (process_heap_dump _ _ _ _) as [res' logs];
    cbn [processor heap reports tasks fst];
    rewrite ?(lookup_set_pc_eq _ _ _ _ Ht); done.
Qed.

(** From its first statement a thread takes eight steps, after which its
    report carries the result of the analyzer and the store has been
    updated once. *)
Lemma thread_run s i env r :
  tasks s !! i = Some {| t_report := i; t_pc := AtCall |} -> heap s !! i = Some r ->
  let res := (process_heap_dump (processor s) env (file_path r) default_memory_limit).1 in
  let s' := run (replicate 8 (ThreadRuns i env)) s in
  heap s' = <[i := written_back r res]> (heap s) /\
  heap s' !! i = Some (written_back r res) /\
  reports s' = update_report (heap s') (reports s) i /\
  tasks s' !! i = Some {| t_report := i; t_pc := Finished |}.
Proof.
  intros Ht Hr res s'. unfold s'. cbn [replicate run foldl step].
  assert (Hi : i < length (heap s)) by by eapply lookup_lt_Some.
  destruct (thread_step_effect s i env _ r Ht Hr) as (Hp1 & Hh1 & Hm1 & Ht1).
  set (s1 := _background_process i env s) in *. fold res in Ht1.
  assert (Hr1 : heap s1 !! i = Some r) by by rewrite Hh1.
  destruct (thread_step_effect s1 i env _ r Ht1 Hr1) as (Hp2 & Hh2 & Hm2 & Ht2).
  set (s2 := _background_process i env s1) in *.
  assert (Hr2 : heap s2 !! i = Some (set_status (res_status res) r))
    by by rewrite Hh2, list_lookup_alter_eq, Hr1.
  destruct (thread_step_effect s2 i env _ _ Ht2 Hr2) as (Hp3 & Hh3 & Hm3 & Ht3).
  set (s3 := _background_process i env s2) in *.
  pose proof (f_equal (fun h => h !! i) Hh3) as Hr3. cbn beta in Hr3.
  rewrite list_lookup_alter_eq, Hr2 in Hr3. cbn [fmap option_fmap option_map] in Hr3.
  destruct (thread_step_effect s3 i env _ _ Ht3 Hr3) as (Hp4 & Hh4 & Hm4 & Ht4).
  set (s4 := _background_process i env s3) in *.
  pose proof (f_equal (fun h => h !! i) Hh4) as Hr4. cbn beta in Hr4.
  rewrite list_lookup_alter_eq, Hr3 in Hr4. cbn [fmap option_fmap option_map] in Hr4.
  destruct (thread_step_effect s4 i env _ _ Ht4 Hr4) as (Hp5 & Hh5 & Hm5 & Ht5).
  set (s5 := _background_process i env s4) in *.
  pose proof (f_equal (fun h => h !! i) Hh5) as Hr5. cbn beta in Hr5.
  rewrite list_lookup_alter_eq, Hr4 in Hr5. cbn [fmap option_fmap option_map] in Hr5.
  destruct (thread_step_effect s5 i env _ _ Ht5 Hr5) as (Hp6 & Hh6 & Hm6 & Ht6).
  set (s6 := _background_process i env s5) in *.
  pose proof (f_equal (fun h => h !! i) Hh6) as Hr6. cbn beta in Hr6.
  rewrite list_lookup_alter_eq, Hr5 in Hr6. cbn [fmap option_fmap option_map] in Hr6.
  destruct (thread_step_effect s6 i env _ _ Ht6 Hr6) as (Hp7 & Hh7 & Hm7 & Ht7).
  set (s7 := _background_process i env s6) in *.
  assert (Hr7 : heap s7 !! i = heap s6 !! i) by by rewrite Hh7.
  rewrite Hr6 in Hr7.
  destruct (thread_step_effect s7 i env _ _ Ht7 Hr7) as (Hp8 & Hh8 & Hm8 & Ht8).
  set (s8 := _background_process i env s7) in *.
  assert (Hfinal : heap s8 !! i = Some (written_back r res)).
  { rewrite Hh8, Hr7. done. }
  split; [|split; [done|split; [|done]]].
  - apply list_eq. intros j. destruct (decide (i = j)) as [<-|Hne].
    + rewrite Hfinal. by rewrite list_lookup_insert_eq.
    + rewrite list_lookup_insert_ne by done.
      rewrite Hh8, Hh7, Hh6, Hh5, Hh4, Hh3, Hh2, Hh1.
      by rewrite !list_lookup_alter_ne.
  - rewrite Hm8, Hm7, Hh8, Hh7. congruence.
Qed.

(** ** Paths of the artifacts *)

Lemma rstrip_app_sep (c : ascii) (s : str) : rstrip c (s ++ [c]) = rstrip c s.
Proof.
  induction s as [|x s IH]; cbn; [by rewrite ch_eqb_refl | by rewrite IH].
Qed.

Lemma rstrip_id (c : ascii) (s : str) : last s <> Some c -> rstrip c s = s.
Proof.
  induction s as [|x s IH]; [done|]. destruct s as [|y s].
  - cbn. intros Hx. destruct (ch_eqb x c) eqn:E; [|done].
    apply ch_eqb_true in E. congruence.
  - intros Hl. specialize (IH Hl).
    change (rstrip c (x :: y :: s))
      with (match rstrip c (y :: s) with
            | [] => if ch_eqb x c then [] else [x]
            | t => x :: t
            end).
    by rewrite IH.
Qed.

Lemma take_past (dir name : str) : take (S (length dir)) (dir ++ slash :: name) = dir ++ [slash].
Proof.
  replace (dir ++ slash :: name) with ((dir ++ [slash]) ++ name) by by rewrite <- app_assoc.
  apply take_app_length'. rewrite length_app. cbn. lia.
Qed.

Lemma drop_past (dir name : str) : drop (S (length dir)) (dir ++ slash :: name) = name.
Proof.
  replace (dir ++ slash :: name) with ((dir ++ [slash]) ++ name) by by rewrite <- app_assoc.
  apply drop_app_length'. rewrite length_app. cbn. lia.
Qed.

Lemma basename_in_dir (dir name : str) :
  slash ∉ name -> posixpath.basename (dir ++ slash :: name) = name.
Proof.
  intros Hname. unfold posixpath.basename. rewrite rfind_succ_app_last by done.
  apply drop_past.
Qed.

Lemma dirname_in_dir (dir name : str) :
  dir <> [] -> last dir <> Some slash -> slash ∉ name ->
  posixpath.dirname (dir ++ slash :: name) = dir.
Proof.
  intros Hne Hlast Hname. unfold posixpath.dirname.
  rewrite rfind_succ_app_last by done. rewrite take_past.
  rewrite bool_decide_eq_true_2 by by destruct dir.
  rewrite bool_decide_eq_false_2.
  - cbn [negb andb]. rewrite rstrip_app_sep. by apply rstrip_id.
  - intros Heq. apply Hlast.
    assert (Hall : Forall (eq slash) (dir ++ [slash])).
    { rewrite Heq. apply Forall_replicate_eq. }
    apply Forall_app in Hall as [Hall _].
    destruct (last dir) as [c|] eqn:Hc; [|by apply last_None in Hc].
    f_equal. symmetry. rewrite Forall_forall in Hall. apply Hall.
    apply last_Some in Hc as [l' ->]. apply elem_of_app. right. apply elem_of_cons. by left.
Qed.

Lemma splitext_last_dot (stem ext : str) :
  (exists c, c ∈ stem /\ c <> dot) -> dot ∉ ext -> slash ∉ stem ++ dot :: ext ->
  posixpath.splitext (stem ++ dot :: ext) = (stem, dot :: ext).
Proof.
  intros (c & Hc & Hcd) Hext Hslash. unfold posixpath.splitext.
  rewrite rfind_app_last by done. rewrite rfind_succ_None by done.
  assert (posixpath.has_non_dot (stem ++ dot :: ext) 0 (length stem) = true) as ->.
  { unfold posixpath.has_non_dot. rewrite Nat.sub_0_r, drop_0, take_app_length.
    apply existsb_exists. exists c. split; [by apply list_elem_of_In|].
    by apply negb_true_iff, ch_eqb_false. }
  cbn [Nat.leb andb]. by rewrite take_app_length, drop_app_length.
Qed.

Lemma join_in_dir (dir x : str) :
  dir <> [] -> last dir <> Some slash -> head x <> Some slash ->
  posixpath.join dir x = dir ++ slash :: x.
Proof.
  intros Hne Hlast Hhead. unfold posixpath.join.
  assert (startswith x [slash] = false) as ->.
  { unfold startswith. apply bool_decide_eq_false. destruct x as [|y x]; [done|].
    cbn. intros [= ->]. by apply Hhead. }
  rewrite bool_decide_eq_false_2 by done.
  assert (endswith dir [slash] = false) as ->; [|done].
  destruct (endswith dir [slash]) eqn:E; [|done].
  apply endswith_spec in E as [pre ->]. by rewrite last_snoc in Hlast.
Qed.

(** ** The analyzer's outcomes *)

(** C6: when the subprocess returns 0, the result is ['completed'] with
    no error message; each report path is recorded exactly when
    [os.path.exists] holds of the derived path
    [join(dirname(file_path), splitext(basename(file_path))[0] + suffix)],
    so none is recorded when neither file exists; for a file
    [dir/stem.ext] the derived paths are [dir/stem_Leak_Suspects.html]
    and [dir/stem_System_Overview.html]; and the thread that got this
    result leaves the record ['completed'] with these paths. *)
Theorem C6_completed (self : HeapDumpProcessor) (env : run_env)
    (path memory_limit stderr : str) (end_time : Q) :
  outcome env = Returned 0 stderr end_time ->
  let res := (process_heap_dump self env path memory_limit).1 in
  let file_dir := posixpath.dirname path in
  let base_name := (posixpath.splitext (posixpath.basename path)).1 in
  let suspects_path := posixpath.join file_dir (base_name ++ lit "_Leak_Suspects.html") in
  let overview_path := posixpath.join file_dir (base_name ++ lit "_System_Overview.html") in
  res_status res = lit "completed" /\
  res_error_message res = None /\
  res_suspects_report res =
    (if exists_on_disk env suspects_path then Some suspects_path else None) /\
  res_overview_report res =
    (if exists_on_disk env overview_path then Some overview_path else None) /\
  (forall p, res_suspects_report res = Some p \/ res_overview_report res = Some p ->
     exists_on_disk env p = true) /\
  (exists_on_disk env suspects_path = false -> exists_on_disk env overview_path = false ->
   res_suspects_report res = None /\ res_overview_report res = None) /\
  (forall dir stem ext,
     path = dir ++ lit "/" ++ stem ++ lit "." ++ ext ->
     dir <> [] -> last dir <> Some slash ->
     (exists c, c ∈ stem /\ c <> dot) -> slash ∉ stem -> slash ∉ ext -> dot ∉ ext ->
     suspects_path = dir ++ lit "/" ++ stem ++ lit "_Leak_Suspects.html" /\
     overview_path = dir ++ lit "/" ++ stem ++ lit "_System_Overview.html") /\
  (forall s i r,
     processor s = self -> file_path r = path -> memory_limit = default_memory_limit ->
     tasks s !! i = Some {| t_report := i; t_pc := AtCall |} -> heap s !! i = Some r ->
     exists r', heap (run (replicate 8 (ThreadRuns i env)) s) !! i = Some r' /\
       status r' = lit "completed" /\ error_message r' = None /\
       suspects_report r' = res_suspects_report res /\
       overview_report r' = res_overview_report res).
Proof.
  intros Hout res file_dir base_name suspects_path overview_path.
  assert (Hres : res = mkResult st_completed (if_exists env suspects_path)
                         (if_exists env overview_path) None
                         (Some (Qminus end_time (start_time env)))).
  { unfold res, process_heap_dump. rewrite Hout. by rewrite bool_decide_eq_true_2. }
  rewrite Hres. cbn [res_status res_error_message res_suspects_report res_overview_report].
  unfold if_exists.
  split; [done|]. split; [done|]. split; [done|]. split; [done|]. split; [|split; [|split]].
  - intros p [Hp | Hp].
    + destruct (exists_on_disk env suspects_path) eqn:E; [|done]. by injection Hp as <-.
    + destruct (exists_on_disk env overview_path) eqn:E; [|done]. by injection Hp as <-.
  - by intros -> ->.
  - intros dir stem ext Hpath Hne Hlast Hstem Hs1 Hs2 Hdot.
    assert (Hname : slash ∉ stem ++ dot :: ext).
    { rewrite not_elem_of_app, not_elem_of_cons. done. }
    assert (Hpath' : path = dir ++ slash :: (stem ++ dot :: ext)) by done.
    assert (Hdir : file_dir = dir).
    { unfold file_dir. rewrite Hpath'. by apply dirname_in_dir. }
    assert (Hbase : base_name = stem).
    { unfold base_name. rewrite Hpath', basename_in_dir by done.
      by rewrite splitext_last_dot. }
    unfold suspects_path, overview_path. rewrite Hdir, Hbase.
    destruct Hstem as (c & Hc & _).
    split; apply join_in_dir; try done.
    + destruct stem as [|x stem]; [by apply elem_of_nil in Hc|]. cbn. intros [= ->].
      apply Hs1, elem_of_cons. by left.
    + destruct stem as [|x stem]; [by apply elem_of_nil in Hc|]. cbn. intros [= ->].
      apply Hs1, elem_of_cons. by left.
  - intros s i r Hproc Hfp Hmem Ht Hr.
    destruct (thread_run s i env r Ht Hr) as (_ & Hfinal & _).
    eexists. split; [exact Hfinal|]. cbn [written_back status error_message
      suspects_report overview_report].
    rewrite Hproc, Hfp, <- Hmem. fold res. by rewrite Hres.
Qed.

(** C5, as the code has it: when [subprocess.run] times out the result
    is ['failed'] with the message ['Processing timeout (1 hour
    exceeded)'], which mentions the timeout, and a processing time of
    3600; the thread that got this result leaves the record in that
    state. *)
Theorem C5_timeout (self : HeapDumpProcessor) (env : run_env) (path memory_limit : str) :
  outcome env = TimeoutExpired ->
  let res := (process_heap_dump self env path memory_limit).1 in
  res_status res = lit "failed" /\
  res_error_message res = Some (lit "Processing timeout (1 hour exceeded)") /\
  res_processing_time res = Some (inject_Z 3600) /\
  res_suspects_report res = None /\ res_overview_report res = None /\
  (exists pre post, res_error_message res = Some (pre ++ lit "timeout" ++ post)) /\
  (forall s i r,
     processor s = self -> file_path r = path -> memory_limit = default_memory_limit ->
     tasks s !! i = Some {| t_report := i; t_pc := AtCall |} -> heap s !! i = Some r ->
     exists r', heap (run (replicate 8 (ThreadRuns i env)) s) !! i = Some r' /\
       status r' = lit "failed" /\
       error_message r' = Some (lit "Processing timeout (1 hour exceeded)") /\
       processing_time r' = Some (inject_Z 3600)).
Proof.
  intros Hout res.
  assert (Hres : res = mkResult st_failed None None (Some timeout_message)
                         (Some (inject_Z 3600))).
  { unfold res, process_heap_dump. by rewrite Hout. }
  rewrite Hres. cbn [res_status res_error_message res_suspects_report res_overview_report
                       res_processing_time].
  split; [done|]. split; [done|]. split; [done|]. split; [done|]. split; [done|]. split.
  - by exists (lit "Processing "), (lit " (1 hour exceeded)").
  - intros s i r Hproc Hfp Hmem Ht Hr.
    destruct (thread_run s i env r Ht Hr) as (_ & Hfinal & _).
    eexists. split; [exact Hfinal|].
    cbn [written_back status error_message processing_time].
    rewrite Hproc, Hfp, <- Hmem. fold res. by rewrite Hres.
Qed.

(** ** Write-back for an id the store does not hold *)

Lemma process_heap_dump_no_warning self env path memory_limit :
  List.filter is_warning (process_heap_dump self env path memory_limit).2 = [].
Proof.
  unfold process_heap_dump. destruct (outcome env) as [rc err t | | what t]; cbn; [|done..].
  by case_bool_decide.
Qed.

Lemma step_no_warning (l : label) (s : system) :
  List.filter is_warning (trace (step l s)) = List.filter is_warning (trace s).
Proof.
  destruct l as [event now | i env]; cbn [step].
  { unfold on_created. destruct (is_directory event); [done|].
    destruct (is_heap_dump _); [|done]. cbn [_process_heap_dump trace].
    rewrite List.filter_app. cbn. by rewrite app_nil_r. }
  unfold _background_process.
  destruct (tasks s !! i) as [t|]; [|done].
  destruct (heap s !! t_report t) as [r|]; [|done].
  destruct (t_pc t); try done.
  - pose proof (process_heap_dump_no_warning (processor s) env (file_path r)
                  default_memory_limit) as Hlogs.
    destruct (process_heap_dump _ _ _ _) as [res logs]. cbn [trace snd] in *.
    rewrite List.filter_app. cbn. by rewrite Hlogs, app_nil_r.
  - cbn [trace]. rewrite List.filter_app. cbn. by rewrite app_nil_r.
  - cbn [trace]. rewrite List.filter_app. unfold completion_log.
    case_bool_decide; cbn; by rewrite app_nil_r.
Qed.

(** C7, as the code has it: [update_report] replaces the entry of the
    report's id when the store holds that id and leaves the store as it
    is otherwise; the statement of the thread that calls it changes
    nothing else and adds only the call to the trace; no step of the
    system ever logs a warning. *)
Theorem C7_update_report (h : list HeapDumpReport) (m : gmap str addr) (a : addr)
    (report : HeapDumpReport) :
  h !! a = Some report ->
  (m !! report_id report = None -> update_report h m a = m) /\
  (is_Some (m !! report_id report) -> update_report h m a = <[report_id report := a]> m) /\
  (forall s i env res,
     heap s = h -> reports s = m ->
     tasks s !! i = Some {| t_report := a; t_pc := AtUpdate res |} ->
     let s' := step (ThreadRuns i env) s in
     reports s' = update_report h m a /\ heap s' = h /\
     trace s' = trace s ++ [UpdateCalled a] /\
     tasks s' !! i = Some {| t_report := a; t_pc := AtLog res |}) /\
  (forall (s : system) (l : label),
     List.filter is_warning (trace (step l s)) = List.filter is_warning (trace s)).
Proof.
  intros Ha. split; [|split; [|split]].
  - intros Hnone. unfold update_report. rewrite Ha, Hnone.
    by rewrite bool_decide_eq_false_2 by by intros [? ?].
  - intros Hsome. unfold update_report. rewrite Ha. by rewrite bool_decide_eq_true_2.
  - intros s i env res Hh Hm Ht. cbn [step]. unfold _background_process.
    rewrite Ht. cbn [t_report t_pc]. rewrite Hh, Ha. cbn [reports heap trace tasks].
    rewrite Hm. repeat split; try done. by rewrite (lookup_set_pc_eq _ _ _ _ Ht).
  - intros s l. apply step_no_warning.
Qed.

(** ** The status summary *)

Lemma reachable_status (s : system) (a : addr) (r : HeapDumpReport) :
  inv s -> heap s !! a = Some r ->
  status r = st_processing \/ status r = st_completed \/ status r = st_failed.
Proof.
  intros Hinv Hr.
  assert (a < length (tasks s)) as Hlt.
  { rewrite (inv_len _ Hinv). by eapply lookup_lt_Some. }
  destruct (lookup_lt_is_Some_2 _ _ Hlt) as [t Ht].
  destruct (inv_task _ Hinv a t Ht) as (_ & r' & Hr' & Hpc).
  assert (r' = r) as -> by congruence.
  destruct (t_pc t); cbn [pc_inv] in Hpc.
  1,2: by left; destruct Hpc.
  1-6: right; destruct Hpc as (-> & Hterm & _); exact Hterm.
  right. by destruct Hpc.
Qed.

Lemma count_three {A} (p1 p2 p3 : A -> bool) (l : list A) :
  Forall (fun a => (p1 a = true /\ p2 a = false /\ p3 a = false) \/
                   (p1 a = false /\ p2 a = true /\ p3 a = false) \/
                   (p1 a = false /\ p2 a = false /\ p3 a = true)) l ->
  length (List.filter p1 l) + length (List.filter p2 l) + length (List.filter p3 l)
    = length l.
Proof.
  induction 1 as [|a l Ha _ IH]; [done|]. cbn.
  destruct Ha as [(-> & -> & ->) | [(-> & -> & ->) | (-> & -> & ->)]]; cbn; lia.
Qed.

(** C2, as the code has it: [get_status] makes four passes over the
    store; when all four see the same reachable state, the counts of
    ['processing'], ['completed'] and ['failed'] add up to the total. *)
Theorem C2_status_summary (s : system) :
  reachable s ->
  let summary := get_status (fun _ => s) in
  processing summary + completed summary + failed summary = total_reports summary.
Proof.
  intros Hinv%reachable_inv. cbn [get_status processing completed failed total_reports].
  unfold count_status. apply count_three. apply Forall_forall.
  intros a [id Hid]%elem_of_get_all_reports.
  destruct (inv_store _ Hinv id a Hid) as (r & Hr & _).
  unfold holds. rewrite Hr.
  destruct (reachable_status s a r Hinv Hr) as [-> | [-> | ->]]; auto.
Qed.

(** * Scenarios, checked *)

Lemma reachable_submitted : reachable submitted.
Proof. apply reachable_run, reachable_initial. Qed.

(** ** Readers against a running thread *)

(** C1 on the code: the thread assigns the attributes of the report
    object the store already holds, one by one and outside the lock.
    After [report.status = 'completed'] a reader that calls
    [get_all_reports] and reads the report sees the state ['completed']
    with no report path and no processing time, a record that is
    neither the one inserted nor the one written back; and the list a
    reader obtained before the thread ran shows the thread's writes. *)
Theorem C1_reader_sees_partial_update :
  reachable status_assigned /\
  get_all_reports (reports status_assigned) = [0] /\
  observe status_assigned 0 =
    Some (mkReport (lit "web01") example_now (lit "web01_1.hprof") (lit "/dump/web01_1.hprof")
            (lit "completed") None None None None) /\
  observe finished 0 =
    Some (mkReport (lit "web01") example_now (lit "web01_1.hprof") (lit "/dump/web01_1.hprof")
            (lit "completed") (Some (lit "/dump/web01_1_Leak_Suspects.html")) None None
            (Some (inject_Z 12))) /\
  observe status_assigned 0 <> observe submitted 0 /\
  observe status_assigned 0 <> observe finished 0 /\
  (let snapshot := get_all_reports (reports submitted) in
   snapshot = [0] /\
   observe submitted <$> snapshot <> observe finished <$> snapshot).
Proof.
  split; [apply reachable_run, reachable_submitted|].
  split; [by vm_compute|]. split; [by vm_compute|]. split; [by vm_compute|].
  split; [by vm_compute|]. split; [by vm_compute|].
  split; [by vm_compute|]. by vm_compute.
Qed.

(** C3 on the code: the thread assigns [report.status] first and the
    other result attributes after it, on the object the store holds.
    Once its state is ['completed'] the record found under its id still
    changes: the next statement of the thread gives it the path of the
    leak suspects report, and a later one its processing time, before
    the one write-back is made.  The state itself stays ['completed']. *)
Theorem C3_terminal_record_changes :
  let id := lit "web01_20240301_090507" in
  let next := step (ThreadRuns 0 env_completed) status_assigned in
  let at_completed :=
    mkReport (lit "web01") example_now (lit "web01_1.hprof") (lit "/dump/web01_1.hprof")
      (lit "completed") None None None None in
  let at_next :=
    mkReport (lit "web01") example_now (lit "web01_1.hprof") (lit "/dump/web01_1.hprof")
      (lit "completed") (Some (lit "/dump/web01_1_Leak_Suspects.html")) None None None in
  reachable status_assigned /\ reachable next /\ reachable finished /\
  get_report_by_id (reports status_assigned) id = Some 0 /\
  get_report_by_id (reports next) id = Some 0 /\
  get_report_by_id (reports finished) id = Some 0 /\
  observe status_assigned 0 = Some at_completed /\
  terminal (status at_completed) /\
  observe next 0 = Some at_next /\
  observe finished 0 = Some finished_report /\
  at_next <> at_completed /\ finished_report <> at_next /\
  status at_next = status at_completed /\
  status finished_report = status at_completed /\
  count_updates 0 (trace status_assigned) = 0 /\
  count_updates 0 (trace next) = 0 /\
  count_updates 0 (trace finished) = 1.
Proof.
  cbv zeta.
  assert (Hs : reachable status_assigned) by apply reachable_run, reachable_submitted.
  split; [exact Hs|]. split; [by apply reachable_step|].
  split; [apply reachable_run, reachable_submitted|].
  split; [by vm_compute|]. split; [by vm_compute|]. split; [by vm_compute|].
  split; [by vm_compute|]. split; [by left|].
  split; [by vm_compute|]. split; [by vm_compute|].
  split; [by vm_compute|]. split; [by vm_compute|].
  split; [done|]. split; [done|].
  split; [by vm_compute|]. split; by vm_compute.
Qed.

(** C2 against four passes: a file is submitted between the first and
    the second call of [get_all_reports]; the total is 0 and one record
    is counted as ['processing']. *)
Lemma C2_counterexample :
  let s0 := initial example_processor in
  let s1 := step (FileCreated example_event example_now) s0 in
  let summary := get_status (fun k => if k =? 0 then s0 else s1) in
  reachable s0 /\ reachable s1 /\
  total_reports summary = 0 /\ processing summary = 1 /\
  processing summary + completed summary + failed summary <> total_reports summary.
Proof.
  cbv zeta. split; [constructor|]. split; [repeat constructor|].
  split; [by vm_compute|]. split; by vm_compute.
Qed.

(** The summary of the state in which the one thread has finished. *)
Lemma C2_status_summary_witness :
  reachable finished /\
  let summary := get_status (fun _ => finished) in
  processing summary + completed summary + failed summary = total_reports summary.
Proof.
  assert (H : reachable finished) by apply reachable_run, reachable_submitted.
  split; [exact H|]. exact (C2_status_summary finished H).
Defined.

(** The thread of the submitted file finishes, here after a timeout. *)
Lemma status_lifecycle_witness :
  reachable submitted /\
  exists t, tasks (run (replicate 8 (ThreadRuns 0 env_timeout)) submitted) !! 0 = Some t /\
            t_pc t = Finished.
Proof.
  split; [exact reachable_submitted|].
  apply (proj2 (proj2 (status_lifecycle submitted (ThreadRuns 0 env_timeout) reachable_submitted))).
  vm_compute. lia.
Defined.

(** Two files of [web01] detected within the same second. *)
Lemma C4_submit_id_witness :
  let later := mkDatetime 2024 3 1 9 5 7 990 in
  let s2 := _process_heap_dump (lit "/dump/web01_2.hprof") later submitted in
  reachable (initial example_processor) /\
  get_report_by_id (reports s2) (lit "web01_20240301_090507") = Some 1 /\
  size (reports s2) = size (reports submitted) /\
  0 ∉ get_all_reports (reports s2).
Proof.
  cbv zeta. split; [constructor|].
  destruct (C4_submit_id (initial example_processor)
              (lit "/dump/web01_1.hprof") (lit "/dump/web01_2.hprof")
              example_now (mkDatetime 2024 3 1 9 5 7 990) (reachable_initial _))
    as [_ H].
  destruct H as (_ & _ & Hget & Hsize & _ & Hout); try reflexivity.
  split; [exact Hget|]. split; [exact Hsize | exact Hout].
Defined.

(** C5 against the message the specification quotes. *)
Lemma C5_counterexample :
  outcome env_timeout = TimeoutExpired /\
  res_error_message
    (process_heap_dump example_processor env_timeout (lit "/dump/web01_1.hprof")
       default_memory_limit).1
  <> Some (lit "processing timeout exceeded").
Proof. split; [done | by vm_compute]. Qed.

(** The record of the submitted file after its analyzer timed out. *)
Lemma C5_timeout_witness :
  outcome env_timeout = TimeoutExpired /\
  exists r, heap (run (replicate 8 (ThreadRuns 0 env_timeout)) submitted) !! 0 = Some r /\
    status r = lit "failed" /\
    error_message r = Some (lit "Processing timeout (1 hour exceeded)") /\
    processing_time r = Some (inject_Z 3600).
Proof.
  split; [reflexivity|].
  apply (proj2 (proj2 (proj2 (proj2 (proj2 (proj2
           (C5_timeout example_processor env_timeout (lit "/dump/web01_1.hprof")
              default_memory_limit eq_refl)))))) submitted 0
           (new_report (lit "/dump/web01_1.hprof") example_now));
    reflexivity.
Defined.

(** The analyzer returned 0 and only the leak suspects report exists;
    the paths looked for are those next to [/dump/web01_1.hprof]. *)
Lemma C6_completed_witness :
  outcome env_completed = Returned 0 [] (inject_Z 12) /\
  let path := lit "/dump/web01_1.hprof" in
  let res := (process_heap_dump example_processor env_completed path
                default_memory_limit).1 in
  res_status res = lit "completed" /\
  res_suspects_report res = Some (lit "/dump/web01_1_Leak_Suspects.html") /\
  res_overview_report res = None /\
  posixpath.join (posixpath.dirname path)
    ((posixpath.splitext (posixpath.basename path)).1 ++ lit "_System_Overview.html")
    = lit "/dump" ++ lit "/" ++ lit "web01_1" ++ lit "_System_Overview.html".
Proof.
  split; [reflexivity|]. cbv zeta.
  destruct (C6_completed example_processor env_completed (lit "/dump/web01_1.hprof")
              default_memory_limit [] (inject_Z 12) eq_refl)
    as (Hst & _ & Hsus & Hov & _ & _ & Hpaths & _).
  split; [exact Hst|]. split; [exact Hsus|]. split; [exact Hov|].
  apply (Hpaths (lit "/dump") (lit "web01_1") (lit "hprof")).
  - reflexivity.
  - discriminate.
  - discriminate.
  - exists (chr 119). split; [|discriminate]. apply elem_of_cons. by left.
  - absent.
  - absent.
  - absent.
Defined.

(** C7 against the warning: the write-back for an unknown id leaves the
    store empty and the thread logs its usual error message for a
    failed analysis, at level ERROR; nothing is logged at level
    WARNING, by [update_report] or after it. *)
Lemma C7_counterexample :
  let s' := run [ThreadRuns 0 env_timeout; ThreadRuns 0 env_timeout] orphan in
  get_report_by_id (reports orphan) (lit "web01_20240301_090507") = None /\
  reports s' = reports orphan /\
  trace s' = [UpdateCalled 0;
              Logged ERROR (FailedToProcess (lit "web01_1.hprof") timeout_message)] /\
  List.filter is_warning (trace s') = [] /\
  tasks s' = [{| t_report := 0; t_pc := Finished |}].
Proof. cbv zeta. repeat split; by vm_compute. Qed.

(** The write-back for the unknown id leaves the empty store empty and
    adds nothing but the call to the trace. *)
Lemma C7_update_report_witness :
  heap orphan !! 0 =
    Some (written_back (new_report (lit "/dump/web01_1.hprof") example_now) orphan_result) /\
  update_report (heap orphan) (reports orphan) 0 = reports orphan /\
  reports (step (ThreadRuns 0 env_timeout) orphan) = reports orphan /\
  trace (step (ThreadRuns 0 env_timeout) orphan) = [UpdateCalled 0].
Proof.
  split; [reflexivity|].
  destruct (C7_update_report (heap orphan) (reports orphan) 0 _ eq_refl)
    as (Hnone & _ & Hstep & _).
  assert (Hsame : update_report (heap orphan) (reports orphan) 0 = reports orphan)
    by (apply Hnone; reflexivity).
  split; [exact Hsame|].
  destruct (Hstep orphan 0 env_timeout orphan_result eq_refl eq_refl eq_refl)
    as (Hr & _ & Ht & _).
  split; [by rewrite Hr | exact Ht].
Defined.

(** Write-backs after a collision: [update_report] only asks whether the
    id is in the store, so the thread of the first of two colliding
    files puts its own report back under the id when it ends last. *)
Lemma collision_write_back :
  let later := mkDatetime 2024 3 1 9 5 7 990 in
  let both := _process_heap_dump (lit "/dump/web01_2.hprof") later submitted in
  let second_done := run (replicate 8 (ThreadRuns 1 env_timeout)) both in
  let first_done := run (replicate 8 (ThreadRuns 0 env_completed)) second_done in
  get_report_by_id (reports both) (lit "web01_20240301_090507") = Some 1 /\
  get_report_by_id (reports second_done) (lit "web01_20240301_090507") = Some 1 /\
  get_report_by_id (reports first_done) (lit "web01_20240301_090507") = Some 0 /\
  get_all_reports (reports first_done) = [0].
Proof. cbv zeta. repeat split; by vm_compute. Qed.

(** The queries on three stored records, each result up to the order
    of its elements. *)
Lemma queries_on_three_files :
  get_reports_by_date (heap three_files) (reports three_files) (lit "2024-03-01") ≡ₚ [0; 1] /\
  get_reports_by_date (heap three_files) (reports three_files) (lit "2024-03-02") = [2] /\
  get_reports_by_date (heap three_files) (reports three_files) (lit "not-a-date") = [] /\
  get_reports_by_date (heap three_files) (reports three_files) (lit "2024-02-30") = [] /\
  get_reports_by_machine (heap three_files) (reports three_files) (lit "db02") ≡ₚ [1; 2] /\
  get_report_by_id (reports three_files) (lit "db02_20240301_235959") = Some 1 /\
  get_report_by_id (reports three_files) (lit "db02_20240301_235958") = None.
Proof.
  split; [vm_compute; apply Permutation_swap|].
  split; [by vm_compute|]. split; [by vm_compute|]. split; [by vm_compute|].
  split; [by vm_compute|]. split; by vm_compute.
Qed.

(** The intake filter on a few events. *)
Lemma on_created_examples (now : datetime) (s : system) :
  on_created {| is_directory := false; src_path := lit "/dump/web01_1.HPROF" |} now s
    = _process_heap_dump (lit "/dump/web01_1.HPROF") now s /\
  on_created {| is_directory := false; src_path := lit "/dump/core.Dump" |} now s
    = _process_heap_dump (lit "/dump/core.Dump") now s /\
  on_created {| is_directory := true; src_path := lit "/dump/old.hprof" |} now s = s /\
  on_created {| is_directory := false; src_path := lit "/dump/web01_1.hprof.gz" |} now s = s /\
  on_created {| is_directory := false; src_path := lit "/dump/hprof" |} now s = s.
Proof. repeat split. Qed.

(** * Further properties of the code *)

(** ** Attributes of the reports in reachable states *)

Lemma processor_step (l : label) (s : system) : processor (step l s) = processor s.
Proof.
  destruct l as [event now | i env]; cbn [step].
  - unfold on_created. destruct (is_directory event); [done|].
    by destruct (is_heap_dump _).
  - unfold _background_process. destruct (tasks s !! i) as [t|]; [|done].
    destruct (heap s !! t_report t) as [r|]; [|done].
    destruct (t_pc t); try done. by destruct (process_heap_dump _ _ _ _).
Qed.

Lemma same_origin_refl (r : HeapDumpReport) : same_origin r r.
Proof. done. Qed.

Lemma same_origin_trans (r1 r2 r3 : HeapDumpReport) :
  same_origin r1 r2 -> same_origin r2 r3 -> same_origin r1 r3.
Proof. unfold same_origin. intros (? & ? & ? & ?) (? & ? & ? & ?). repeat split; congruence. Qed.

Lemma same_origin_report_id (r r' : HeapDumpReport) :
  same_origin r r' -> report_id r' = report_id r.
Proof. intros (Hm & Ht & _). unfold report_id. by rewrite Hm, Ht. Qed.

Lemma same_origin_provenance (r r' : HeapDumpReport) :
  same_origin r r' -> provenance r -> provenance r'.
Proof.
  intros (Hm & _ & Hf & Hp) (H1 & H2 & H3). unfold provenance.
  by rewrite Hm, Hf, Hp.
Qed.

Lemma same_origin_produced_for p (r r' : HeapDumpReport) res :
  same_origin r r' -> produced_for p r res -> produced_for p r' res.
Proof. intros (_ & _ & _ & Hp) [env ->]. exists env. by rewrite Hp. Qed.

Lemma update_report_is_Some (h : list HeapDumpReport) (m : gmap str addr) (a : addr)
    (id : str) :
  is_Some (m !! id) -> is_Some (update_report h m a !! id).
Proof.
  intros Hid. unfold update_report. destruct (h !! a) as [r|]; [|done].
  case_bool_decide; [|done]. by apply lookup_insert_is_Some'; right.
Qed.

Lemma inv_fields_initial p : inv_fields (initial p).
Proof. split; cbn; intros *; by rewrite lookup_nil. Qed.

(** A step of thread [i] that assigns an attribute of its report. *)
Lemma inv_fields_assign s i t r f p :
  inv_fields s -> tasks s !! i = Some t -> heap s !! i = Some r ->
  same_origin r (f r) -> fields_at (processor s) (f r) p ->
  inv_fields (mkSystem (processor s) (alter f i (heap s)) (reports s)
                (set_pc i p (tasks s)) (trace s)).
Proof.
  intros [Htask Hprov Hlisted] Ht Hr Hsame Hf.
  split; cbn [tasks heap reports trace processor].
  - intros j tj rj Hj Hrj. destruct (decide (i = j)) as [<-|Hne].
    + rewrite (lookup_set_pc_eq _ _ _ _ Ht) in Hj. injection Hj as <-.
      rewrite list_lookup_alter_eq, Hr in Hrj. injection Hrj as <-. done.
    + rewrite lookup_set_pc_ne in Hj by done. rewrite list_lookup_alter_ne in Hrj by done.
      by apply (Htask j).
  - intros a ra Ha. destruct (decide (i = a)) as [<-|Hne].
    + rewrite list_lookup_alter_eq, Hr in Ha. injection Ha as <-.
      eapply same_origin_provenance; [done|]. by apply (Hprov i).
    + rewrite list_lookup_alter_ne in Ha by done. by apply (Hprov a).
  - intros a ra Ha. destruct (decide (i = a)) as [<-|Hne].
    + rewrite list_lookup_alter_eq, Hr in Ha. injection Ha as <-.
      rewrite (same_origin_report_id _ _ Hsame). by apply (Hlisted i).
    + rewrite list_lookup_alter_ne in Ha by done. by apply (Hlisted a).
Qed.

(** A step of thread [i] that leaves the heap as it is. *)
Lemma inv_fields_keep (s : system) (i : nat) (t : task) (r : HeapDumpReport) (p : pc)
    (m : gmap str addr) (tr : list event) :
  inv_fields s -> tasks s !! i = Some t -> heap s !! i = Some r ->
  (forall id, is_Some (reports s !! id) -> is_Some (m !! id)) ->
  fields_at (processor s) r p ->
  inv_fields (mkSystem (processor s) (heap s) m (set_pc i p (tasks s)) tr).
Proof.
  intros [Htask Hprov Hlisted] Ht Hr Hm Hf.
  split; cbn [tasks heap reports trace processor].
  - intros j tj rj Hj Hrj. destruct (decide (i = j)) as [<-|Hne].
    + rewrite (lookup_set_pc_eq _ _ _ _ Ht) in Hj. injection Hj as <-.
      assert (rj = r) as -> by congruence. done.
    + rewrite lookup_set_pc_ne in Hj by done. by apply (Htask j).
  - done.
  - intros a ra Ha. by apply Hm, (Hlisted a).
Qed.

Lemma inv_fields_on_created event now s :
  inv s -> inv_fields s -> inv_fields (on_created event now s).
Proof.
  intros Hinv [Htask Hprov Hlisted]. unfold on_created.
  destruct (is_directory event); [done|].
  destruct (is_heap_dump (src_path event)) eqn:Hacc; [|done].
  unfold _process_heap_dump.
  set (report := mkReport _ _ _ _ _ _ _ _ _).
  assert (Hnew : (heap s ++ [report]) !! length (heap s) = Some report)
    by by apply list_lookup_middle.
  split; cbn [tasks heap reports trace processor].
  - intros j tj rj Hj Hrj. destruct (decide (j < length (tasks s))) as [Hlt|Hge].
    + rewrite lookup_app_l in Hj by done.
      rewrite lookup_app_l in Hrj by (rewrite <- (inv_len _ Hinv); done).
      by apply (Htask j).
    + rewrite lookup_app_r in Hj by lia.
      destruct (j - length (tasks s)) as [|k] eqn:Hk; [|by destruct k].
      injection Hj as <-. cbn [t_pc].
      assert (j = length (heap s)) as ->.
      { apply lookup_lt_Some in Hrj. rewrite length_app in Hrj. cbn in Hrj.
        rewrite <- (inv_len _ Hinv) in *. lia. }
      rewrite Hnew in Hrj. injection Hrj as <-. done.
  - intros a ra Ha. destruct (decide (a < length (heap s))) as [Hlt|Hge].
    + rewrite lookup_app_l in Ha by done. by apply (Hprov a).
    + assert (a = length (heap s)) as ->.
      { apply lookup_lt_Some in Ha. rewrite length_app in Ha. cbn in Ha. lia. }
      rewrite Hnew in Ha. injection Ha as <-. done.
  - unfold add_report. rewrite Hnew. intros a ra Ha.
    apply lookup_insert_is_Some'.
    destruct (decide (a < length (heap s))) as [Hlt|Hge].
    + rewrite lookup_app_l in Ha by done. right. by apply (Hlisted a).
    + assert (a = length (heap s)) as ->.
      { apply lookup_lt_Some in Ha. rewrite length_app in Ha. cbn in Ha. lia. }
      rewrite Hnew in Ha. injection Ha as <-. by left.
Qed.

Lemma step_inv_fields l s : inv s -> inv_fields s -> inv_fields (step l s).
Proof.
  intros Hinv Hf. destruct l as [event now | i env]; cbn [step].
  { by apply inv_fields_on_created. }
  unfold _background_process.
  destruct (tasks s !! i) as [t|] eqn:Ht; [|done].
  destruct (inv_task _ Hinv i t Ht) as (Hrep & r & Hr & Hpc).
  rewrite Hrep, Hr.
  pose proof (inf_task _ Hf i t r Ht Hr) as Hat.
  destruct (t_pc t) as [|res|res|res|res|res|res|res|] eqn:Hp;
    cbn [fields_at pc_inv] in Hat, Hpc.
  - destruct (process_heap_dump _ _ _ _) as [res logs] eqn:Hphd.
    apply (inv_fields_keep s i t r); try done. cbn [fields_at]. split; [|done].
    exists env. by rewrite Hphd.
  - destruct Hat as (Hprod & Hun).
    apply (inv_fields_assign s i t r); try done.
  - destruct Hat as (Hprod & _ & Ho & He & Ht').
    apply (inv_fields_assign s i t r); try done.
  - destruct Hat as (Hprod & Hs & _ & He & Ht').
    apply (inv_fields_assign s i t r); try done.
  - destruct Hat as (Hprod & Hs & Ho & _ & Ht').
    apply (inv_fields_assign s i t r); try done.
  - destruct Hat as (Hprod & Hs & Ho & He & _).
    apply (inv_fields_assign s i t r); try done.
  - apply (inv_fields_keep s i t r); try done.
    intros id. apply update_report_is_Some.
  - destruct Hpc as (Hst & _).
    destruct Hat as (? & ? & ? & ? & ?).
    apply (inv_fields_keep s i t r); try done. cbn [fields_at].
    exists res. repeat split; done.
  - done.
Qed.

Lemma reachable_inv_fields s : reachable s -> inv_fields s.
Proof.
  induction 1 as [p | l s Hs IH]; [apply inv_fields_initial|].
  apply step_inv_fields; [by apply reachable_inv | done].
Qed.

(** ** The analyzer call in all its outcomes *)

Lemma rfind_drop_absent (c : ascii) (s : str) : c ∉ drop (rfind_succ c s) s.
Proof.
  unfold rfind_succ. destruct (rfind c s) as [i|] eqn:Hi.
  - revert i Hi. induction s as [|x s IH]; cbn; [done|]. intros i.
    destruct (rfind c s) as [j|] eqn:Hj.
    + intros [= <-]. cbn. by apply IH.
    + destruct (ch_eqb x c); [|done]. intros [= <-]. cbn. rewrite drop_0.
      by apply rfind_None.
  - rewrite drop_0. by apply rfind_None.
Qed.

Lemma basename_no_slash (p : str) : slash ∉ posixpath.basename p.
Proof. apply rfind_drop_absent. Qed.

(** How [process_heap_dump] ends, by what [subprocess.run] did: the
    result is ['completed'] exactly when it returned 0; any other
    return code gives ['failed'] with the captured stderr, an exception
    gives ['failed'] with its text, both with the time elapsed since the
    start; a failed result names no report and a completed one carries
    no error; a processing time is always there. *)
Theorem process_heap_dump_outcomes (self : HeapDumpProcessor) (env : run_env)
    (path memory_limit : str) :
  let res := (process_heap_dump self env path memory_limit).1 in
  (res_status res = lit "completed" <->
     exists stderr end_time, outcome env = Returned 0 stderr end_time) /\
  (res_status res = lit "completed" \/ res_status res = lit "failed") /\
  (forall returncode stderr end_time,
     outcome env = Returned returncode stderr end_time -> returncode <> 0%Z ->
     res = mkResult (lit "failed") None None (Some stderr)
             (Some (Qminus end_time (start_time env)))) /\
  (forall what at_time,
     outcome env = Raised what at_time ->
     res = mkResult (lit "failed") None None (Some what)
             (Some (Qminus at_time (start_time env)))) /\
  (res_status res = lit "completed" -> res_error_message res = None) /\
  (res_status res = lit "failed" ->
     res_suspects_report res = None /\ res_overview_report res = None /\
     is_Some (res_error_message res)) /\
  is_Some (res_processing_time res).
Proof.
  cbv zeta. unfold process_heap_dump.
  destruct (outcome env) as [rc err t | | what t] eqn:Hout.
  - case_bool_decide as Hrc; cbn [fst res_status res_error_message res_suspects_report
      res_overview_report res_processing_time].
    + subst rc. split; [split; [by eauto | done]|]. split; [by left|].
      split; [by intros ? ? ? [= <- _ _] ?|]. split; [done|].
      split; [done|]. split; [done | by eexists].
    + split; [split; [done | by intros (? & ? & [= -> _ _])]|]. split; [by right|].
      split; [by intros ? ? ? [= <- <- <-] _|]. split; [done|].
      split; [done|]. split; [by eauto | by eexists].
  - cbn. split; [split; [done | by intros (? & ? & ?)]|]. split; [by right|].
    split; [done|]. split; [done|]. split; [done|]. split; [by eauto | by eexists].
  - cbn. split; [split; [done | by intros (? & ? & ?)]|]. split; [by right|].
    split; [done|]. split; [by intros ? ? [= <- <-]|]. split; [done|].
    split; [by eauto | by eexists].
Qed.

(** What [process_heap_dump] logs: first, at level INFO, the command it
    runs, which mounts the directory of the file and names the file by
    its last component; then one message at level ERROR when the result
    is ['failed'], and nothing more when it is ['completed']. *)
Theorem process_heap_dump_log (self : HeapDumpProcessor) (env : run_env)
    (path memory_limit : str) :
  let res := (process_heap_dump self env path memory_limit).1 in
  let logs := (process_heap_dump self env path memory_limit).2 in
  exists tail,
    logs = Logged INFO (RunningAutoMAT (posixpath.basename path)
             [lit "docker"; lit "run"; lit "--rm"; lit "--mount";
              lit "src=" ++ posixpath.dirname path ++ lit ",target=/data,type=bind";
              docker_image self; posixpath.basename path; memory_limit;
              lit "suspects,overview"]) :: tail /\
    (res_status res = lit "completed" -> tail = []) /\
    (res_status res = lit "failed" -> exists m, tail = [Logged ERROR m]) /\
    count_errors logs = (if bool_decide (res_status res = lit "failed") then 1 else 0).
Proof.
  cbv zeta. unfold process_heap_dump.
  destruct (outcome env) as [rc err t | | what t].
  - case_bool_decide; cbn [fst snd res_status]; eexists; (split; [reflexivity|]).
    + split; [done|]. split; [done|]. done.
    + split; [done|]. split; [by eauto|]. done.
  - cbn [fst snd res_status]. eexists. split; [reflexivity|].
    split; [done|]. split; [by eauto|]. done.
  - cbn [fst snd res_status]. eexists. split; [reflexivity|].
    split; [done|]. split; [by eauto|]. done.
Qed.

(** The two halves the command is built from: the last component of a
    path has no slash and is what follows the last slash; for
    [dir/name] the mounted directory is [dir], the file argument is
    [name], and joining them gives the path back; a path without a
    slash is mounted from the empty directory name. *)
Theorem process_heap_dump_split (path : str) :
  (slash ∉ posixpath.basename path) /\
  (exists head, path = head ++ posixpath.basename path /\
     (head = [] \/ last head = Some slash)) /\
  (forall dir name,
     path = dir ++ lit "/" ++ name -> dir <> [] -> last dir <> Some slash -> slash ∉ name ->
     posixpath.dirname path = dir /\ posixpath.basename path = name /\
     posixpath.join (posixpath.dirname path) (posixpath.basename path) = path) /\
  (slash ∉ path ->
     posixpath.dirname path = [] /\ posixpath.basename path = path /\
     posixpath.join (posixpath.dirname path) (posixpath.basename path) = path).
Proof.
  split; [apply basename_no_slash|]. split; [|split].
  - exists (take (rfind_succ slash path) path). split.
    + unfold posixpath.basename. by rewrite take_drop.
    + unfold rfind_succ. destruct (rfind slash path) as [i|] eqn:Hi; [|by left].
      right. pose proof (rfind_lookup _ _ _ Hi) as Hat.
      pose proof (rfind_lt _ _ _ Hi) as Hlt.
      rewrite last_lookup, length_take, Nat.min_l by lia. cbn.
      by rewrite lookup_take_lt by lia.
  - intros dir name Hpath Hne Hlast Hname.
    assert (Hp : path = dir ++ slash :: name) by done.
    assert (Hd : posixpath.dirname path = dir) by (rewrite Hp; by apply dirname_in_dir).
    assert (Hb : posixpath.basename path = name) by (rewrite Hp; by apply basename_in_dir).
    split; [done|]. split; [done|]. rewrite Hd, Hb, Hp.
    apply join_in_dir; [done | done |].
    destruct name as [|x name]; [done|]. cbn. intros [= ->].
    apply Hname, elem_of_cons. by left.
  - intros Hno.
    assert (Hd : posixpath.dirname path = []).
    { unfold posixpath.dirname. rewrite rfind_succ_None by done. done. }
    assert (Hb : posixpath.basename path = path).
    { unfold posixpath.basename. rewrite rfind_succ_None by done. apply drop_0. }
    split; [done|]. split; [done|]. rewrite Hd, Hb. unfold posixpath.join.
    assert (startswith path [slash] = false) as ->; [|done].
    unfold startswith. apply bool_decide_eq_false. destruct path as [|x path]; [done|].
    cbn. intros [= ->]. apply Hno, elem_of_cons. by left.
Qed.

(** ** Ids *)

Lemma decimal2 (n : nat) : n < 100 -> 10 * ((n / 10) mod 10) + n mod 10 = n.
Proof.
  intros Hn. pose proof (Nat.div_mod_eq n 10).
  assert (n / 10 < 10) by (apply Nat.Div0.div_lt_upper_bound; lia).
  rewrite (Nat.mod_small (n / 10)) by done. lia.
Qed.

Lemma pad2_inj (n m : nat) : n < 100 -> m < 100 -> pad2 n = pad2 m -> n = m.
Proof.
  intros Hn Hm Heq. unfold pad2 in Heq.
  assert (H1 : digit_val (digit (n / 10)) = digit_val (digit (m / 10))) by congruence.
  assert (H2 : digit_val (digit n) = digit_val (digit m)) by congruence.
  rewrite !digit_val_digit in H1, H2.
  rewrite <- (decimal2 n), <- (decimal2 m) by done. by rewrite H1, H2.
Qed.

Lemma pad4_inj (n m : nat) :
  n <= 9 * 1000 + 999 -> m <= 9 * 1000 + 999 -> pad4 n = pad4 m -> n = m.
Proof.
  intros Hn Hm Heq. unfold pad4 in Heq.
  assert (H1 : digit_val (digit (n / 1000)) = digit_val (digit (m / 1000))) by congruence.
  assert (H2 : digit_val (digit (n / 100)) = digit_val (digit (m / 100))) by congruence.
  assert (H3 : digit_val (digit (n / 10)) = digit_val (digit (m / 10))) by congruence.
  assert (H4 : digit_val (digit n) = digit_val (digit m)) by congruence.
  rewrite !digit_val_digit in H1, H2, H3, H4.
  rewrite <- (decimal4 n), <- (decimal4 m) by done. by rewrite H1, H2, H3, H4.
Qed.

Lemma strftime_id_length (t : datetime) : length (strftime_id t) = 15.
Proof. reflexivity. Qed.

Lemma valid_datetime_bounds (t : datetime) :
  valid_datetime t ->
  year t <= 9 * 1000 + 999 /\ month t < 100 /\ day t < 100 /\
  hour t < 100 /\ minute t < 100 /\ second t < 100.
Proof.
  intros (Hy & Hm & Hd & Hh & Hmi & Hs).
  assert (days_in_month (year t) (month t) <= 31).
  { unfold days_in_month. generalize (month t). intros m.
    do 12 (destruct m as [|m]; [destruct (is_leap (year t)); lia|]). lia. }
  lia.
Qed.

Lemma strftime_id_inj (t1 t2 : datetime) :
  valid_datetime t1 -> valid_datetime t2 ->
  strftime_id t1 = strftime_id t2 -> same_second t1 t2.
Proof.
  intros (Hy1 & Hm1 & Hd1 & Hh1 & Hmi1 & Hs1)%valid_datetime_bounds
         (Hy2 & Hm2 & Hd2 & Hh2 & Hmi2 & Hs2)%valid_datetime_bounds Heq.
  unfold strftime_id in Heq.
  apply app_inj_1 in Heq as [Hy Heq]; [|done]. apply pad4_inj in Hy; [|done..].
  apply app_inj_1 in Heq as [Hmo Heq]; [|done]. apply pad2_inj in Hmo; [|done..].
  apply app_inj_1 in Heq as [Hd Heq]; [|done]. apply pad2_inj in Hd; [|done..].
  match type of Heq with
  | _ :: ?a = _ :: ?b => assert (a = b) as Heq' by congruence
  end.
  clear Heq. rename Heq' into Heq.
  apply app_inj_1 in Heq as [Hh Heq]; [|done]. apply pad2_inj in Hh; [|done..].
  apply app_inj_1 in Heq as [Hmi Hs]; [|done]. apply pad2_inj in Hmi; [|done..].
  apply pad2_inj in Hs; [|done..]. done.
Qed.

(** The id tells machine and second apart: two reports with timestamps
    of the calendar, in years of four digits, have the same id exactly
    when they have the same machine name and were detected within the
    same second; the id is the machine name followed by sixteen
    characters. *)
Theorem report_id_collision (r1 r2 : HeapDumpReport) :
  valid_datetime (timestamp r1) -> valid_datetime (timestamp r2) ->
  1000 <= year (timestamp r1) -> 1000 <= year (timestamp r2) ->
  (report_id r1 = report_id r2 <->
   machine_name r1 = machine_name r2 /\ same_second (timestamp r1) (timestamp r2)) /\
  length (report_id r1) = length (machine_name r1) + 16 /\
  take (length (machine_name r1)) (report_id r1) = machine_name r1.
Proof.
  intros Hv1 Hv2 _ _. split; [split|split].
  - unfold report_id. intros Heq.
    apply app_inj_2 in Heq as [Hm Heq]; [|done].
    split; [done|]. apply strftime_id_inj; [done | done | congruence].
  - intros (Hm & Hy & Hmo & Hd & Hh & Hmi & Hs). unfold report_id, strftime_id.
    by rewrite Hm, Hy, Hmo, Hd, Hh, Hmi, Hs.
  - unfold report_id. rewrite length_app. cbn. lia.
  - unfold report_id. by rewrite take_app_length.
Qed.

(** ** What the steps leave alone *)

Lemma step_same_origin l s a r :
  inv s -> heap s !! a = Some r ->
  exists r', heap (step l s) !! a = Some r' /\ same_origin r r'.
Proof.
  intros Hinv Ha. destruct l as [event now | i env]; cbn [step].
  { unfold on_created. destruct (is_directory event); [by exists r|].
    destruct (is_heap_dump _); [|by exists r].
    exists r. split; [|done]. by apply lookup_app_l_Some. }
  unfold _background_process.
  destruct (tasks s !! i) as [t|] eqn:Ht; [|by exists r].
  destruct (inv_task _ Hinv i t Ht) as (Hrep & ri & Hri & _).
  rewrite Hrep, Hri.
  destruct (decide (i = a)) as [->|Hne].
  - assert (ri = r) as -> by congruence.
    destruct (t_pc t); try destruct (process_heap_dump _ _ _ _) as [res' logs];
      cbn [heap]; rewrite ?list_lookup_alter_eq, ?Ha; cbn [fmap option_fmap option_map];
      eexists; (split; [reflexivity | done]).
  - destruct (t_pc t); try destruct (process_heap_dump _ _ _ _) as [res' logs];
      cbn [heap]; rewrite ?list_lookup_alter_ne by done; by exists r.
Qed.

(** The attributes set at detection are never assigned again: whatever
    the system does next, a report object stays where it is and keeps
    its machine name, timestamp, filename and path, hence its id. *)
Theorem detection_attributes_kept (s : system) (ls : list label) (a : addr)
    (r : HeapDumpReport) :
  reachable s -> heap s !! a = Some r ->
  exists r', heap (run ls s) !! a = Some r' /\
    machine_name r' = machine_name r /\ timestamp r' = timestamp r /\
    filename r' = filename r /\ file_path r' = file_path r /\
    report_id r' = report_id r.
Proof.
  intros Hs Ha.
  assert (exists r', heap (run ls s) !! a = Some r' /\ same_origin r r') as (r' & Hr' & Hsame).
  { revert s r Hs Ha. induction ls as [|l ls IH]; intros s r Hs Ha; [by exists r|].
    cbn [run foldl].
    destruct (step_same_origin l s a r (reachable_inv _ Hs) Ha) as (r1 & Hr1 & H1).
    destruct (IH (step l s) r1 (reachable_step _ _ Hs) Hr1) as (r2 & Hr2 & H2).
    exists r2. split; [done|]. by eapply same_origin_trans. }
  exists r'. split; [done|].
  pose proof (same_origin_report_id _ _ Hsame). by destruct Hsame as (? & ? & ? & ?).
Qed.

(** A thread touches its own report only: a step of thread [i] changes
    neither the report nor the program point of any other thread, and a
    submission changes no report and no thread that exists. *)
Theorem thread_isolation (s : system) (l : label) (j : nat) :
  reachable s ->
  (forall i env, l = ThreadRuns i env -> j <> i ->
     heap (step l s) !! j = heap s !! j /\ tasks (step l s) !! j = tasks s !! j) /\
  (forall event now, l = FileCreated event now -> j < length (heap s) ->
     heap (step l s) !! j = heap s !! j /\ tasks (step l s) !! j = tasks s !! j).
Proof.
  intros Hinv%reachable_inv. split.
  - intros i env -> Hne. cbn [step]. unfold _background_process.
    destruct (tasks s !! i) as [t|] eqn:Ht; [|done].
    destruct (inv_task _ Hinv i t Ht) as (Hrep & r & Hr & _).
    rewrite Hrep, Hr.
    destruct (t_pc t); try destruct (process_heap_dump _ _ _ _) as [res' logs];
      cbn [heap tasks]; rewrite ?list_lookup_alter_ne, ?lookup_set_pc_ne by done; done.
  - intros event now -> Hj. cbn [step]. unfold on_created.
    destruct (is_directory event); [done|]. destruct (is_heap_dump _); [|done].
    cbn [_process_heap_dump heap tasks]. split; apply lookup_app_l; [done|].
    by rewrite (inv_len _ Hinv).
Qed.

(** ** The result attributes in reachable states *)

Lemma produced_for_facts (p : HeapDumpProcessor) (r : HeapDumpReport) (res : result) :
  produced_for p r res ->
  (forall q, res_suspects_report res = Some q ->
     res_status res = st_completed /\
     q = posixpath.join (posixpath.dirname (file_path r))
           ((posixpath.splitext (posixpath.basename (file_path r))).1 ++ suspects_suffix)) /\
  (forall q, res_overview_report res = Some q ->
     res_status res = st_completed /\
     q = posixpath.join (posixpath.dirname (file_path r))
           ((posixpath.splitext (posixpath.basename (file_path r))).1 ++ overview_suffix)) /\
  (is_Some (res_error_message res) -> res_status res = st_failed).
Proof.
  intros [env ->]. unfold process_heap_dump.
  destruct (outcome env) as [rc err t | | what t]; cbn.
  - case_bool_decide; cbn; unfold if_exists.
    + split; [|split; [|by intros [? ?]]].
      * intros q. destruct (exists_on_disk env _); [|done]. by intros [= <-].
      * intros q. destruct (exists_on_disk env _); [|done]. by intros [= <-].
    + done.
  - done.
  - done.
Qed.

(** In every reachable state, whatever the threads are doing: a report
    that is still ['processing'] has none of the result attributes; a
    report path is only ever set on a ['completed'] record and an error
    message only on a ['failed'] one; and status is ['processing'],
    ['completed'] or ['failed']. *)
Theorem result_attributes_discipline (s : system) (a : addr) (r : HeapDumpReport) :
  reachable s -> heap s !! a = Some r ->
  (status r = lit "processing" \/ status r = lit "completed" \/ status r = lit "failed") /\
  (status r = lit "processing" ->
     suspects_report r = None /\ overview_report r = None /\
     error_message r = None /\ processing_time r = None) /\
  (is_Some (suspects_report r) \/ is_Some (overview_report r) ->
     status r = lit "completed") /\
  (is_Some (error_message r) -> status r = lit "failed").
Proof.
  intros Hs Hr. pose proof (reachable_inv _ Hs) as Hinv.
  pose proof (reachable_inv_fields _ Hs) as Hf.
  assert (a < length (tasks s)) as Hlt.
  { rewrite (inv_len _ Hinv). by eapply lookup_lt_Some. }
  destruct (lookup_lt_is_Some_2 _ _ Hlt) as [t Ht].
  destruct (inv_task _ Hinv a t Ht) as (_ & r' & Hr' & Hpc).
  assert (r' = r) as -> by congruence.
  pose proof (inf_task _ Hf a t r Ht Hr) as Hat.
  split; [by apply (reachable_status s a r)|].
  destruct (t_pc t) as [|res|res|res|res|res|res|res|]; cbn [pc_inv fields_at] in Hpc, Hat.
  - destruct Hpc as (Hst & _). destruct Hat as (Hs1 & Ho & He & Ht').
    rewrite Hs1, Ho, He. split; [done|]. split; [by intros [[? ?] | [? ?]] | by intros [? ?]].
  - destruct Hpc as (Hst & _). destruct Hat as (_ & Hs1 & Ho & He & Ht').
    rewrite Hs1, Ho, He. split; [done|]. split; [by intros [[? ?] | [? ?]] | by intros [? ?]].
  - destruct Hpc as (Hst & Hterm & _). destruct Hat as (_ & Hs1 & Ho & He & Ht').
    rewrite Hs1, Ho, He. split; [done|]. split; [by intros [[? ?] | [? ?]] | by intros [? ?]].
  - destruct Hpc as (Hst & Hterm & _). destruct Hat as (Hprod & Hs1 & Ho & He & Ht').
    destruct (produced_for_facts _ _ _ Hprod) as (Hsus & _ & _).
    rewrite Hs1, Ho, He, Hst. split.
    { intros Hp. by destruct (terminal_not_processing _ Hterm). }
    split; [|by intros [? ?]]. intros [[q Hq] | [? ?]]; [|done]. by apply (Hsus q).
  - destruct Hpc as (Hst & Hterm & _). destruct Hat as (Hprod & Hs1 & Ho & He & Ht').
    destruct (produced_for_facts _ _ _ Hprod) as (Hsus & Hov & _).
    rewrite Hs1, Ho, He, Hst. split.
    { intros Hp. by destruct (terminal_not_processing _ Hterm). }
    split; [|by intros [? ?]].
    intros [[q Hq] | [q Hq]]; [by apply (Hsus q) | by apply (Hov q)].
  - destruct Hpc as (Hst & Hterm & _). destruct Hat as (Hprod & Hs1 & Ho & He & Ht').
    destruct (produced_for_facts _ _ _ Hprod) as (Hsus & Hov & Herr).
    rewrite Hs1, Ho, He, Hst. split.
    { intros Hp. by destruct (terminal_not_processing _ Hterm). }
    split; [|done].
    intros [[q Hq] | [q Hq]]; [by apply (Hsus q) | by apply (Hov q)].
  - destruct Hpc as (Hst & Hterm & _). destruct Hat as (Hprod & Hs1 & Ho & He & Ht').
    destruct (produced_for_facts _ _ _ Hprod) as (Hsus & Hov & Herr).
    rewrite Hs1, Ho, He, Hst. split.
    { intros Hp. by destruct (terminal_not_processing _ Hterm). }
    split; [|done].
    intros [[q Hq] | [q Hq]]; [by apply (Hsus q) | by apply (Hov q)].
  - destruct Hpc as (Hst & Hterm & _). destruct Hat as (Hprod & Hs1 & Ho & He & Ht').
    destruct (produced_for_facts _ _ _ Hprod) as (Hsus & Hov & Herr).
    rewrite Hs1, Ho, He, Hst. split.
    { intros Hp. by destruct (terminal_not_processing _ Hterm). }
    split; [|done].
    intros [[q Hq] | [q Hq]]; [by apply (Hsus q) | by apply (Hov q)].
  - destruct Hpc as (Hterm & _). destruct Hat as (res & Hprod & Hst & Hs1 & Ho & He & Ht').
    destruct (produced_for_facts _ _ _ Hprod) as (Hsus & Hov & Herr).
    rewrite Hs1, Ho, He, Hst. rewrite Hst in Hterm. split.
    { intros Hp. by destruct (terminal_not_processing _ Hterm). }
    split; [|done].
    intros [[q Hq] | [q Hq]]; [by apply (Hsus q) | by apply (Hov q)].
Qed.

Lemma join_endswith (a b : str) : exists pre, posixpath.join a b = pre ++ b.
Proof.
  unfold posixpath.join. destruct (startswith b [slash]); [by exists []|].
  destruct (_ || _); [by exists a|]. exists (a ++ [slash]). by rewrite <- app_assoc.
Qed.

(** The fields of a record whose thread stands at [p] come from one
    analyzer result for the record's own file. *)
Lemma reachable_attributes_produced (s : system) (a : addr) (r : HeapDumpReport) :
  reachable s -> heap s !! a = Some r ->
  (forall q, suspects_report r = Some q ->
     exists res, produced_for (processor s) r res /\ res_suspects_report res = Some q) /\
  (forall q, overview_report r = Some q ->
     exists res, produced_for (processor s) r res /\ res_overview_report res = Some q).
Proof.
  intros Hs Hr. pose proof (reachable_inv _ Hs) as Hinv.
  pose proof (reachable_inv_fields _ Hs) as Hf.
  assert (a < length (tasks s)) as Hlt.
  { rewrite (inv_len _ Hinv). by eapply lookup_lt_Some. }
  destruct (lookup_lt_is_Some_2 _ _ Hlt) as [t Ht].
  pose proof (inf_task _ Hf a t r Ht Hr) as Hat.
  destruct (t_pc t) as [|res|res|res|res|res|res|res|]; cbn [fields_at] in Hat.
  1: destruct Hat as (Hs1 & Ho & _); rewrite Hs1, Ho; done.
  1,2: destruct Hat as (_ & Hs1 & Ho & _); rewrite Hs1, Ho; done.
  1: destruct Hat as (Hprod & Hs1 & Ho & _); rewrite Hs1, Ho;
     split; [intros q Hq; by exists res | done].
  1-4: destruct Hat as (Hprod & Hs1 & Ho & _); rewrite Hs1, Ho;
     split; intros q Hq; by exists res.
  destruct Hat as (res & Hprod & _ & Hs1 & Ho & _). rewrite Hs1, Ho.
  split; intros q Hq; by exists res.
Qed.

(** The report paths a record holds, in every reachable state: the
    leak suspects path is the record's own directory joined with its
    filename, extension removed, and [_Leak_Suspects.html]; the overview
    path likewise with [_System_Overview.html]; neither is ever the empty
    string. *)
Theorem stored_artifact_paths (s : system) (a : addr) (r : HeapDumpReport) :
  reachable s -> heap s !! a = Some r ->
  (forall q, suspects_report r = Some q ->
     q = posixpath.join (posixpath.dirname (file_path r))
           ((posixpath.splitext (filename r)).1 ++ lit "_Leak_Suspects.html") /\
     (exists pre, q = pre ++ lit "_Leak_Suspects.html") /\ falsy (Some q) = false) /\
  (forall q, overview_report r = Some q ->
     q = posixpath.join (posixpath.dirname (file_path r))
           ((posixpath.splitext (filename r)).1 ++ lit "_System_Overview.html") /\
     (exists pre, q = pre ++ lit "_System_Overview.html") /\ falsy (Some q) = false).
Proof.
  intros Hs Hr.
  destruct (inf_provenance _ (reachable_inv_fields _ Hs) a r Hr) as (Hfn & _).
  destruct (reachable_attributes_produced s a r Hs Hr) as (Hsus & Hov).
  assert (Hend : forall d b suf q, suf <> [] -> q = posixpath.join d (b ++ suf) ->
            (exists pre, q = pre ++ suf) /\ falsy (Some q) = false).
  { intros d b suf q Hsuf ->. destruct (join_endswith d (b ++ suf)) as [pre ->].
    split; [exists (pre ++ b); by rewrite <- app_assoc|].
    destruct suf; [done|]. by destruct pre, b. }
  split; intros q Hq.
  - destruct (Hsus q Hq) as (res & Hprod & Hres).
    destruct (produced_for_facts _ _ _ Hprod) as (H1 & _ & _).
    destruct (H1 q Hres) as (_ & Hpath). rewrite <- Hfn in Hpath.
    split; [done|]. by eapply Hend.
  - destruct (Hov q Hq) as (res & Hprod & Hres).
    destruct (produced_for_facts _ _ _ Hprod) as (_ & H1 & _).
    destruct (H1 q Hres) as (_ & Hpath). rewrite <- Hfn in Hpath.
    split; [done|]. by eapply Hend.
Qed.

(** Every record was detected as an accepted file: in every reachable
    state its path passes the intake filter, its filename is the last
    component of the path and has no slash, its machine name is what
    [_extract_machine_name] gives for the filename and is not empty, so
    neither is its id. *)
Theorem record_provenance (s : system) (a : addr) (r : HeapDumpReport) :
  reachable s -> heap s !! a = Some r ->
  is_heap_dump (file_path r) = true /\
  filename r = posixpath.basename (file_path r) /\
  (slash ∉ filename r) /\ filename r <> [] /\
  machine_name r = _extract_machine_name (filename r) /\
  machine_name r <> [] /\
  17 <= length (report_id r).
Proof.
  intros Hs Hr.
  destruct (inf_provenance _ (reachable_inv_fields _ Hs) a r Hr) as (Hfn & Hm & Hacc).
  assert (Hne : filename r <> []) by (rewrite Hfn; by apply basename_accepted_nonempty).
  assert (Hmne : machine_name r <> []) by (rewrite Hm; by apply _extract_machine_name_nonempty).
  split; [done|]. split; [done|]. split; [rewrite Hfn; apply basename_no_slash|].
  split; [done|]. split; [done|]. split; [done|].
  unfold report_id. rewrite length_app. cbn.
  destruct (machine_name r); [done | cbn; lia].
Qed.

(** ** The store and its ids *)

(** [add_report] and [update_report] on a report object: after
    [add_report] the object is found under its id, and the other ids
    are as before; [update_report] after [add_report], or either of
    them twice, changes nothing more; [update_report] never adds or
    removes an id and leaves the other ids as they were. *)
Theorem report_manager_operations (h : list HeapDumpReport) (m : gmap str addr) (a : addr)
    (report : HeapDumpReport) :
  h !! a = Some report ->
  get_report_by_id (add_report h m a) (report_id report) = Some a /\
  (forall id, id <> report_id report ->
     get_report_by_id (add_report h m a) id = get_report_by_id m id) /\
  update_report h (add_report h m a) a = add_report h m a /\
  add_report h (add_report h m a) a = add_report h m a /\
  update_report h (update_report h m a) a = update_report h m a /\
  dom (update_report h m a) = dom m /\
  (forall id, id <> report_id report ->
     get_report_by_id (update_report h m a) id = get_report_by_id m id).
Proof.
  intros Ha. unfold get_report_by_id, add_report, update_report. rewrite Ha.
  split; [by rewrite lookup_insert_eq|].
  split; [by intros id Hid; rewrite lookup_insert_ne|].
  split.
  { rewrite lookup_insert_eq. rewrite bool_decide_eq_true_2 by (by eexists).
    by rewrite insert_insert_eq. }
  split; [by rewrite insert_insert_eq|].
  destruct (decide (is_Some (m !! report_id report))) as [Hin|Hin].
  - rewrite !(bool_decide_eq_true_2 _ Hin).
    rewrite lookup_insert_eq. rewrite bool_decide_eq_true_2 by (by eexists).
    split; [by rewrite insert_insert_eq|]. split.
    + rewrite dom_insert_L. apply elem_of_dom in Hin.
    by apply subseteq_union_1_L, singleton_subseteq_l.
    + by intros id Hid; rewrite lookup_insert_ne.
  - rewrite !(bool_decide_eq_false_2 _ Hin). done.
Qed.

Lemma NoDup_get_all_reports (h : list HeapDumpReport) (m : gmap str addr) :
  store_ok h m -> NoDup (get_all_reports m).
Proof.
  intros Hok. unfold get_all_reports.
  apply NoDup_fmap_2_strong; [|apply NoDup_map_to_list].
  intros [id1 a1] [id2 a2] H1%elem_of_map_to_list H2%elem_of_map_to_list Heq.
  cbn in Heq. subst a2.
  destruct (Hok id1 a1 H1) as (r1 & Hr1 & <-).
  destruct (Hok id2 a1 H2) as (r2 & Hr2 & <-). congruence.
Qed.

Lemma length_bounded_NoDup (l : list nat) (n : nat) :
  NoDup l -> (forall a, a ∈ l -> a < n) -> length l <= n.
Proof.
  intros Hnd Hlt. rewrite <- (length_seq n 0).
  apply submseteq_length, NoDup_submseteq; [done|].
  intros a Ha. apply elem_of_seq. specialize (Hlt a Ha). lia.
Qed.

(** The store in every reachable state: what [get_report_by_id] finds
    under an id is a report with that id; the id of every report ever
    created is in the store; [get_all_reports] lists no report twice and
    never more reports than were created; each report has its thread. *)
Theorem store_consistency (s : system) :
  reachable s ->
  (forall id a, get_report_by_id (reports s) id = Some a ->
     exists r, observe s a = Some r /\ report_id r = id) /\
  (forall a r, observe s a = Some r ->
     is_Some (get_report_by_id (reports s) (report_id r))) /\
  NoDup (get_all_reports (reports s)) /\
  length (get_all_reports (reports s)) <= length (heap s) /\
  length (tasks s) = length (heap s).
Proof.
  intros Hs. pose proof (reachable_inv _ Hs) as Hinv.
  pose proof (reachable_inv_fields _ Hs) as Hf.
  split; [apply (inv_store _ Hinv)|]. split; [apply (inf_listed _ Hf)|].
  assert (Hnd : NoDup (get_all_reports (reports s)))
    by (eapply NoDup_get_all_reports, inv_store; done).
  split; [done|]. split; [|apply (inv_len _ Hinv)].
  apply length_bounded_NoDup; [done|].
  intros a [id Hid]%elem_of_get_all_reports.
  destruct (inv_store _ Hinv id a Hid) as (r & Hr & _). by eapply lookup_lt_Some.
Qed.

(** In a reachable state the write-back of a thread always finds its id
    in the store: after the statement that calls [update_report], the id
    of the thread's report leads to that report, and the set of ids is
    the same as before. *)
Theorem write_back_lands (s : system) (i : nat) (env : run_env) (t : task) (res : result)
    (r : HeapDumpReport) :
  reachable s -> tasks s !! i = Some t -> t_pc t = AtUpdate res -> heap s !! i = Some r ->
  let s' := step (ThreadRuns i env) s in
  get_report_by_id (reports s') (report_id r) = Some i /\
  dom (reports s') = dom (reports s) /\
  heap s' = heap s.
Proof.
  intros Hs Ht Hp Hr. pose proof (reachable_inv _ Hs) as Hinv.
  destruct (inv_task _ Hinv i t Ht) as (Hrep & _).
  pose proof (inf_listed _ (reachable_inv_fields _ Hs) i r Hr) as Hin.
  cbv zeta. cbn [step]. unfold _background_process. rewrite Ht, Hrep, Hr, Hp.
  cbn [reports heap]. unfold update_report, get_report_by_id. rewrite Hr.
  rewrite bool_decide_eq_true_2 by done.
  split; [by rewrite lookup_insert_eq|]. split; [|done].
  rewrite dom_insert_L. apply elem_of_dom in Hin.
    by apply subseteq_union_1_L, singleton_subseteq_l.
Qed.

Lemma step_listed (l : label) (s : system) (id : str) :
  is_Some (reports s !! id) -> is_Some (reports (step l s) !! id).
Proof.
  intros Hid. destruct l as [event now | i env]; cbn [step].
  - unfold on_created. destruct (is_directory event); [done|].
    destruct (is_heap_dump _); [|done]. cbn [_process_heap_dump reports].
    unfold add_report. rewrite list_lookup_middle by done.
    apply lookup_insert_is_Some'. by right.
  - unfold _background_process. destruct (tasks s !! i) as [t|]; [|done].
    destruct (heap s !! t_report t) as [r|]; [|done].
    destruct (t_pc t); try done.
    + by destruct (process_heap_dump _ _ _ _).
    + cbn [reports]. by apply update_report_is_Some.
Qed.

Lemma step_lengths (l : label) (s : system) :
  length (heap (step l s)) = length (heap s) + (if accepted l then 1 else 0) /\
  length (tasks (step l s)) = length (tasks s) + (if accepted l then 1 else 0).
Proof.
  destruct l as [event now | i env]; cbn [step accepted].
  - unfold on_created. destruct (is_directory event); cbn [negb andb]; [lia|].
    destruct (is_heap_dump _); [|lia]. cbn [_process_heap_dump heap tasks].
    rewrite !length_app. cbn. lia.
  - unfold _background_process. destruct (tasks s !! i) as [t|]; [|lia].
    destruct (heap s !! t_report t) as [r|]; [|lia].
    destruct (t_pc t); try destruct (process_heap_dump _ _ _ _); cbn [heap tasks];
      unfold set_pc; rewrite ?length_alter; lia.
Qed.

(** Nothing is ever removed, and each accepted event adds exactly one
    record and one thread: over any sequence of steps, from any state,
    an id that is in the store stays in the store, and the numbers of
    report objects and of threads grow by the number of accepted
    file-creation events. *)
Theorem records_only_added (s : system) (ls : list label) :
  (forall id, is_Some (get_report_by_id (reports s) id) ->
     is_Some (get_report_by_id (reports (run ls s)) id)) /\
  length (heap (run ls s)) = length (heap s) + length (List.filter accepted ls) /\
  length (tasks (run ls s)) = length (tasks s) + length (List.filter accepted ls).
Proof.
  revert s. induction ls as [|l ls IH]; intros s.
  - cbn. split; [done | lia].
  - cbn [run foldl List.filter]. destruct (IH (step l s)) as (IH1 & IH2 & IH3).
    destruct (step_lengths l s) as (H1 & H2).
    split; [|split].
    + intros id Hid. by apply IH1, step_listed.
    + change (foldl _ (step l s) ls) with (run ls (step l s)). rewrite IH2, H1.
      destruct (accepted l); cbn; lia.
    + change (foldl _ (step l s) ls) with (run ls (step l s)). rewrite IH3, H2.
      destruct (accepted l); cbn; lia.
Qed.

(** ** Queries *)

Lemma elem_of_filter_holds (h : list HeapDumpReport) (m : gmap str addr)
    (P : HeapDumpReport -> bool) (a : addr) :
  a ∈ List.filter (holds h P) (get_all_reports m) <->
  exists id r, m !! id = Some a /\ h !! a = Some r /\ P r = true.
Proof.
  rewrite list_elem_of_In, List.filter_In, <- list_elem_of_In, elem_of_get_all_reports.
  unfold holds. split.
  - intros [[id Hid] HP]. destruct (h !! a) as [r|]; [|done]. by exists id, r.
  - intros (id & r & Hid & Hr & HP). split; [by exists id|]. by rewrite Hr.
Qed.

(** [get_reports_by_machine] in a reachable state: it returns exactly
    the stored records whose machine name is the string asked for,
    character by character; a record is never returned for two names;
    the empty name finds nothing; nothing is returned twice. *)
Theorem get_reports_by_machine_exact (s : system) (name : str) :
  reachable s ->
  (forall a, a ∈ get_reports_by_machine (heap s) (reports s) name <->
     exists r, a ∈ get_all_reports (reports s) /\ observe s a = Some r /\
               machine_name r = name) /\
  (forall a other, a ∈ get_reports_by_machine (heap s) (reports s) name ->
     other <> name -> a ∉ get_reports_by_machine (heap s) (reports s) other) /\
  get_reports_by_machine (heap s) (reports s) [] = [] /\
  NoDup (get_reports_by_machine (heap s) (reports s) name).
Proof.
  intros Hs.
  assert (Hiff : forall n a, a ∈ get_reports_by_machine (heap s) (reports s) n <->
            exists r, a ∈ get_all_reports (reports s) /\ observe s a = Some r /\
                      machine_name r = n).
  { intros n a. unfold get_reports_by_machine. rewrite elem_of_filter_holds. split.
    - intros (id & r & Hid & Hr & HP). exists r. apply bool_decide_eq_true in HP.
      split; [apply elem_of_get_all_reports; by exists id | done].
    - intros (r & [id Hid]%elem_of_get_all_reports & Hr & Hn). exists id, r.
      split; [done|]. split; [done|]. by apply bool_decide_eq_true. }
  split; [apply Hiff|]. split; [|split].
  - intros a other (r & _ & Hr & Hn)%Hiff Hne (r' & _ & Hr' & Hn')%Hiff. congruence.
  - destruct (get_reports_by_machine (heap s) (reports s) []) as [|a l] eqn:E; [done|].
    assert (a ∈ get_reports_by_machine (heap s) (reports s) []) as (r & _ & Hr & Hn)%Hiff
      by (rewrite E; apply elem_of_cons; by left).
    destruct (inf_provenance _ (reachable_inv_fields _ Hs) a r Hr) as (Hfn & Hm & Hacc).
    exfalso. revert Hn. rewrite Hm. apply _extract_machine_name_nonempty.
    rewrite Hfn. by apply basename_accepted_nonempty.
  - unfold get_reports_by_machine. apply NoDup_ListNoDup, List.NoDup_filter, NoDup_ListNoDup.
    eapply NoDup_get_all_reports, inv_store, reachable_inv, Hs.
Qed.

Lemma valid_datetime_valid_date (t : datetime) :
  valid_datetime t -> valid_date (year t) (month t) (day t) = true.
Proof.
  intros (Hy & Hm & Hd & _). unfold valid_date.
  rewrite !andb_true_iff, !Nat.leb_le. lia.
Qed.

(** Every listed record is found by the two filtered queries: under its
    own machine name, and under the date [YYYY-MM-DD] of its own
    timestamp, together with exactly the records of that day. *)
Theorem listed_record_is_found (s : system) (a : addr) (r : HeapDumpReport) :
  reachable s -> a ∈ get_all_reports (reports s) -> observe s a = Some r ->
  valid_datetime (timestamp r) ->
  let own_date :=
    pad4 (year (timestamp r)) ++ lit "-" ++ pad2 (month (timestamp r)) ++ lit "-"
      ++ pad2 (day (timestamp r)) in
  a ∈ get_reports_by_machine (heap s) (reports s) (machine_name r) /\
  a ∈ get_reports_by_date (heap s) (reports s) own_date /\
  (forall b, b ∈ get_reports_by_date (heap s) (reports s) own_date <->
     exists r', b ∈ get_all_reports (reports s) /\ observe s b = Some r' /\
                date_of (timestamp r') = date_of (timestamp r)).
Proof.
  intros Hs [id Hid]%elem_of_get_all_reports Hr Hv own_date.
  assert (Hparse : strptime_date own_date = Some (date_of (timestamp r))).
  { apply strptime_date_canonical. by apply valid_datetime_valid_date. }
  assert (Hiff : forall b, b ∈ get_reports_by_date (heap s) (reports s) own_date <->
            exists r', b ∈ get_all_reports (reports s) /\ observe s b = Some r' /\
                       date_of (timestamp r') = date_of (timestamp r)).
  { intros b. unfold get_reports_by_date. rewrite Hparse, elem_of_filter_holds. split.
    - intros (id' & r' & Hid' & Hr' & HP). exists r'. apply bool_decide_eq_true in HP.
      split; [apply elem_of_get_all_reports; by exists id' | done].
    - intros (r' & [id' Hid']%elem_of_get_all_reports & Hr' & Hd). exists id', r'.
      split; [done|]. split; [done|]. by apply bool_decide_eq_true. }
  split; [|split; [|done]].
  - unfold get_reports_by_machine. apply elem_of_filter_holds. exists id, r.
    split; [done|]. split; [done|]. by apply bool_decide_eq_true.
  - apply Hiff. exists r. split; [apply elem_of_get_all_reports; by exists id | done].
Qed.

(** ** The report routes *)

Lemma splitext_fst_prefix (f : str) : exists post, f = (posixpath.splitext f).1 ++ post.
Proof.
  unfold posixpath.splitext. destruct (rfind dot f) as [d|]; [|exists []; by rewrite app_nil_r].
  destruct (_ && _); cbn; [|exists []; by rewrite app_nil_r].
  exists (drop d f). by rewrite take_drop.
Qed.

Lemma rstrip_head (c x : ascii) (s : str) :
  rstrip c (x :: s) = [] \/ exists t, rstrip c (x :: s) = x :: t.
Proof.
  cbn [rstrip]. destruct (rstrip c s) as [|y t].
  - destruct (ch_eqb x c); [by left | right; by exists []].
  - right. by eexists.
Qed.

Lemma rstrip_nil (c : ascii) (s : str) : rstrip c s = [] -> s = replicate (length s) c.
Proof.
  induction s as [|x s IH]; [done|]. cbn [rstrip].
  destruct (rstrip c s) as [|y t]; [|done].
  destruct (ch_eqb x c) eqn:E; [|done]. intros _.
  apply ch_eqb_true in E. cbn. by rewrite E, <- IH.
Qed.

Lemma isabs_cons (x : ascii) (p : str) : posixpath.isabs (x :: p) = ch_eqb x slash.
Proof.
  unfold posixpath.isabs, startswith, ch_eqb.
  change (take (length [slash]) (x :: p)) with [x].
  apply bool_decide_ext. split; [by intros [= ->] | by intros ->].
Qed.

(** The directory of a path begins as the path does. *)
Lemma dirname_isabs (p : str) : posixpath.isabs (posixpath.dirname p) = posixpath.isabs p.
Proof.
  destruct p as [|x p]; [done|]. unfold posixpath.dirname, rfind_succ.
  destruct (rfind slash (x :: p)) as [i|] eqn:Hi.
  - cbn [take]. set (head := x :: take i p).
    destruct (bool_decide (head <> []) && negb (bool_decide (head = replicate (length head) slash)))
      eqn:Hc; [|done].
    apply andb_true_iff in Hc as [_ Hc]. apply negb_true_iff, bool_decide_eq_false_1 in Hc.
    destruct (rstrip_head slash x (take i p)) as [Hnil | [t Ht]].
    + by apply rstrip_nil in Hnil.
    + unfold head. rewrite Ht. by rewrite !isabs_cons.
  - apply rfind_None, not_elem_of_cons in Hi as [Hx _].
    cbn. rewrite isabs_cons. symmetry. apply bool_decide_eq_false_2. congruence.
Qed.

Lemma join_isabs (a b : str) :
  posixpath.isabs b = false -> posixpath.isabs (posixpath.join a b) = posixpath.isabs a.
Proof.
  intros Hb. unfold posixpath.join. change (startswith b [slash]) with (posixpath.isabs b).
  rewrite Hb. destruct a as [|x a].
  - rewrite bool_decide_eq_true_2 by done. cbn [orb app]. rewrite Hb. by vm_compute.
  - destruct (_ || _); cbn [app]; by rewrite !isabs_cons.
Qed.

(** The path of a report file is absolute exactly when the path of the
    heap dump is. *)
Lemma artifact_path_isabs (path suffix : str) :
  posixpath.isabs suffix = false -> suffix <> [] ->
  posixpath.isabs
    (posixpath.join (posixpath.dirname path)
       ((posixpath.splitext (posixpath.basename path)).1 ++ suffix))
  = posixpath.isabs path.
Proof.
  intros Hsuf Hne. rewrite join_isabs; [apply dirname_isabs|].
  destruct (splitext_fst_prefix (posixpath.basename path)) as [post Hpost].
  destruct ((posixpath.splitext (posixpath.basename path)).1) as [|c stem]; [done|].
  cbn [app]. rewrite isabs_cons. apply bool_decide_eq_false_2. intros ->.
  apply (basename_no_slash path). rewrite Hpost. by left.
Qed.

Lemma serve_report_send_file (attr : HeapDumpReport -> option str) (error : str)
    (exists_now : str -> bool) (s : system) (id path : str) :
  serve_report attr error exists_now s id = send_file path <->
  exists a r, get_report_by_id (reports s) id = Some a /\ observe s a = Some r /\
    attr r = Some path /\ path <> [] /\ exists_now path = true.
Proof.
  unfold serve_report, observe. split.
  - destruct (get_report_by_id _ _) as [a|] eqn:Ha; [|done].
    destruct (heap s !! a) as [r|] eqn:Hr; [|done].
    destruct (attr r) as [[|c q]|] eqn:Hattr; cbn [falsy orb]; [done | | done].
    destruct (exists_now (c :: q)) eqn:Hex; [|done]. intros [= <-].
    exists a, r. repeat split; done.
  - intros (a & r & -> & -> & -> & Hne & ->). by destruct path.
Qed.

Lemma serve_report_cases (attr : HeapDumpReport -> option str) (error : str)
    (exists_now : str -> bool) (s : system) (id : str) :
  serve_report attr error exists_now s id = NotFound error \/
  exists path, serve_report attr error exists_now s id = send_file path.
Proof.
  unfold serve_report. destruct (get_report_by_id _ _) as [a|]; [|by left].
  destruct (heap s !! a) as [r|]; [|by left].
  destruct (attr r) as [path|]; [|by left].
  destruct (_ || _); [by left | right; by eexists].
Qed.

(** The routes [/api/reports/<id>/suspects] and [.../overview] in a
    reachable state: each returns [send_file(path)] for the path the
    record holds exactly when the id is in the store, the record holds
    a path for that report and [os.path.exists] holds of the path at
    the time of the request, and its own 404 error otherwise;
    [send_file] is only ever called for a ['completed'] record with the
    id asked for, and with a path that is absolute exactly when the path
    of the record's heap dump is; an unknown id and a record that is
    ['processing'] or ['failed'] give 404 on both routes.  What
    [send_file] answers for the path is no part of the statement. *)
Theorem report_routes (exists_now : str -> bool) (s : system) (id : str) :
  reachable s ->
  (forall path, get_suspects_report exists_now s id = send_file path <->
     exists a r, get_report_by_id (reports s) id = Some a /\ observe s a = Some r /\
       suspects_report r = Some path /\ exists_now path = true) /\
  (forall path, get_overview_report exists_now s id = send_file path <->
     exists a r, get_report_by_id (reports s) id = Some a /\ observe s a = Some r /\
       overview_report r = Some path /\ exists_now path = true) /\
  (get_suspects_report exists_now s id = NotFound (lit "Suspects report not found") \/
   exists path, get_suspects_report exists_now s id = send_file path) /\
  (get_overview_report exists_now s id = NotFound (lit "Overview report not found") \/
   exists path, get_overview_report exists_now s id = send_file path) /\
  (forall path,
     get_suspects_report exists_now s id = send_file path \/
     get_overview_report exists_now s id = send_file path ->
     exists a r, get_report_by_id (reports s) id = Some a /\ observe s a = Some r /\
       report_id r = id /\ status r = lit "completed" /\
       posixpath.isabs path = posixpath.isabs (file_path r)) /\
  ((get_report_by_id (reports s) id = None \/
    exists a r, get_report_by_id (reports s) id = Some a /\ observe s a = Some r /\
      status r <> lit "completed") ->
   get_suspects_report exists_now s id = NotFound (lit "Suspects report not found") /\
   get_overview_report exists_now s id = NotFound (lit "Overview report not found")).
Proof.
  intros Hs.
  assert (Hsus : forall path, get_suspects_report exists_now s id = send_file path <->
     exists a r, get_report_by_id (reports s) id = Some a /\ observe s a = Some r /\
       suspects_report r = Some path /\ exists_now path = true).
  { intros path. unfold get_suspects_report. rewrite serve_report_send_file. split.
    - intros (a & r & ? & ? & ? & ? & ?). by exists a, r.
    - intros (a & r & Ha & Hr & Hp & Hex). exists a, r.
      destruct (reachable_attributes_produced s a r Hs Hr) as (H1 & _).
      destruct (H1 path Hp) as (res & Hprod & Hres).
      destruct (produced_for_facts _ _ _ Hprod) as (H2 & _ & _).
      destruct (H2 path Hres) as (_ & ->).
      destruct (join_endswith (posixpath.dirname (file_path r))
                  ((posixpath.splitext (posixpath.basename (file_path r))).1
                     ++ suspects_suffix)) as [pre Hj].
      repeat split; try done. rewrite Hj. intros Hnil.
      apply (f_equal length) in Hnil. rewrite !length_app in Hnil. cbn in Hnil. lia. }
  assert (Hov : forall path, get_overview_report exists_now s id = send_file path <->
     exists a r, get_report_by_id (reports s) id = Some a /\ observe s a = Some r /\
       overview_report r = Some path /\ exists_now path = true).
  { intros path. unfold get_overview_report. rewrite serve_report_send_file. split.
    - intros (a & r & ? & ? & ? & ? & ?). by exists a, r.
    - intros (a & r & Ha & Hr & Hp & Hex). exists a, r.
      destruct (reachable_attributes_produced s a r Hs Hr) as (_ & H1).
      destruct (H1 path Hp) as (res & Hprod & Hres).
      destruct (produced_for_facts _ _ _ Hprod) as (_ & H2 & _).
      destruct (H2 path Hres) as (_ & ->).
      destruct (join_endswith (posixpath.dirname (file_path r))
                  ((posixpath.splitext (posixpath.basename (file_path r))).1
                     ++ overview_suffix)) as [pre Hj].
      repeat split; try done. rewrite Hj. intros Hnil.
      apply (f_equal length) in Hnil. rewrite !length_app in Hnil. cbn in Hnil. lia. }
  assert (Hcompleted : forall path a r,
            get_report_by_id (reports s) id = Some a -> observe s a = Some r ->
            suspects_report r = Some path \/ overview_report r = Some path ->
            report_id r = id /\ status r = st_completed).
  { intros path a r Ha Hr Hp.
    destruct (inv_store _ (reachable_inv _ Hs) id a Ha) as (r' & Hr' & Hid).
    assert (r' = r) as -> by (unfold observe in Hr; congruence). split; [done|].
    destruct (reachable_attributes_produced s a r Hs Hr) as (H1 & H2).
    destruct Hp as [Hp | Hp].
    - destruct (H1 path Hp) as (res & Hprod & Hres).
      destruct (produced_for_facts _ _ _ Hprod) as (H3 & _ & _).
      destruct (H3 path Hres) as (Hst & _).
      pose proof (reachable_inv _ Hs) as Hinv.
      pose proof (reachable_inv_fields _ Hs) as Hf.
      assert (a < length (tasks s)) as Hlt
        by (rewrite (inv_len _ Hinv); by eapply lookup_lt_Some).
      destruct (lookup_lt_is_Some_2 _ _ Hlt) as [t Ht].
      destruct (inv_task _ Hinv a t Ht) as (_ & r2 & Hr2 & Hpc).
      assert (r2 = r) as -> by (unfold observe in Hr; congruence).
      pose proof (inf_task _ Hf a t r Ht Hr) as Hat.
      destruct (t_pc t); cbn [pc_inv fields_at] in Hpc, Hat.
      1: destruct Hat as (Hn & _); congruence.
      1,2: destruct Hat as (_ & Hn & _); congruence.
      1-5: destruct Hat as (Hprod' & Hs' & _); destruct Hpc as (Hst' & _);
           rewrite Hst'; rewrite Hs' in Hp;
           destruct (produced_for_facts _ _ _ Hprod') as (H4 & _ & _);
           by destruct (H4 path Hp).
      destruct Hat as (res' & Hprod' & Hst' & Hs' & _). rewrite Hst'. rewrite Hs' in Hp.
      destruct (produced_for_facts _ _ _ Hprod') as (H4 & _ & _). by destruct (H4 path Hp).
    - destruct (H2 path Hp) as (res & Hprod & Hres).
      pose proof (reachable_inv _ Hs) as Hinv.
      pose proof (reachable_inv_fields _ Hs) as Hf.
      assert (a < length (tasks s)) as Hlt
        by (rewrite (inv_len _ Hinv); by eapply lookup_lt_Some).
      destruct (lookup_lt_is_Some_2 _ _ Hlt) as [t Ht].
      destruct (inv_task _ Hinv a t Ht) as (_ & r2 & Hr2 & Hpc).
      assert (r2 = r) as -> by (unfold observe in Hr; congruence).
      pose proof (inf_task _ Hf a t r Ht Hr) as Hat.
      destruct (t_pc t); cbn [pc_inv fields_at] in Hpc, Hat.
      1: destruct Hat as (_ & Hn & _); congruence.
      1,2: destruct Hat as (_ & _ & Hn & _); congruence.
      1: destruct Hat as (_ & _ & Hn & _); congruence.
      1-4: destruct Hat as (Hprod' & _ & Ho' & _); destruct Hpc as (Hst' & _);
           rewrite Hst'; rewrite Ho' in Hp;
           destruct (produced_for_facts _ _ _ Hprod') as (_ & H4 & _);
           by destruct (H4 path Hp).
      destruct Hat as (res' & Hprod' & Hst' & _ & Ho' & _). rewrite Hst'. rewrite Ho' in Hp.
      destruct (produced_for_facts _ _ _ Hprod') as (_ & H4 & _). by destruct (H4 path Hp). }
  assert (Habs : forall path a r,
            observe s a = Some r ->
            suspects_report r = Some path \/ overview_report r = Some path ->
            posixpath.isabs path = posixpath.isabs (file_path r)).
  { intros path a r Hr Hp.
    destruct (reachable_attributes_produced s a r Hs Hr) as (H1 & H2).
    destruct Hp as [Hp | Hp].
    - destruct (H1 path Hp) as (res & Hprod & Hres).
      destruct (produced_for_facts _ _ _ Hprod) as (H3 & _ & _).
      destruct (H3 path Hres) as (_ & ->). by apply artifact_path_isabs.
    - destruct (H2 path Hp) as (res & Hprod & Hres).
      destruct (produced_for_facts _ _ _ Hprod) as (_ & H3 & _).
      destruct (H3 path Hres) as (_ & ->). by apply artifact_path_isabs. }
  split; [done|]. split; [done|].
  split; [apply serve_report_cases|]. split; [apply serve_report_cases|]. split.
  - intros path [(a & r & Ha & Hr & Hp & _)%Hsus | (a & r & Ha & Hr & Hp & _)%Hov];
      exists a, r; (split; [done|]); (split; [done|]).
    + destruct (Hcompleted path a r Ha Hr (or_introl Hp)) as [? ?].
      split; [done|]. split; [done|]. by apply (Habs path a r Hr); left.
    + destruct (Hcompleted path a r Ha Hr (or_intror Hp)) as [? ?].
      split; [done|]. split; [done|]. by apply (Habs path a r Hr); right.
  - intros Hno. split.
    + destruct (serve_report_cases suspects_report (lit "Suspects report not found")
                  exists_now s id) as [H|[path H]]; [done|]. exfalso.
      apply Hsus in H as (a & r & Ha & Hr & Hp & _).
      destruct (Hcompleted path a r Ha Hr (or_introl Hp)) as (_ & Hst).
      destruct Hno as [Hnone | (a' & r' & Ha' & Hr' & Hne)]; [congruence|].
      assert (a' = a) as -> by congruence. assert (r' = r) as -> by congruence. done.
    + destruct (serve_report_cases overview_report (lit "Overview report not found")
                  exists_now s id) as [H|[path H]]; [done|]. exfalso.
      apply Hov in H as (a & r & Ha & Hr & Hp & _).
      destruct (Hcompleted path a r Ha Hr (or_intror Hp)) as (_ & Hst).
      destruct Hno as [Hnone | (a' & r' & Ha' & Hr' & Hne)]; [congruence|].
      assert (a' = a) as -> by congruence. assert (r' = r) as -> by congruence. done.
Qed.

(** ** The index page *)

Lemma lex_ltb_asym (k1 k2 : list nat) : lex_ltb k1 k2 = true -> lex_ltb k2 k1 = false.
Proof.
  revert k2. induction k1 as [|x k1 IH]; intros [|y k2]; cbn [lex_ltb]; try done.
  rewrite orb_true_iff, andb_true_iff, orb_false_iff, andb_false_iff.
  rewrite !Nat.ltb_lt, !Nat.eqb_eq, Nat.ltb_ge, Nat.eqb_neq.
  intros [Hlt | [-> Hk]]; [split; [lia | left; lia]|].
  split; [lia|]. right. by apply IH.
Qed.

Lemma lex_ltb_cotrans (k1 k2 k3 : list nat) :
  lex_ltb k1 k3 = true -> lex_ltb k1 k2 = true \/ lex_ltb k2 k3 = true.
Proof.
  revert k2 k3. induction k1 as [|x k1 IH]; intros [|y k2] [|z k3]; cbn [lex_ltb];
    try done; auto.
  rewrite !orb_true_iff, !andb_true_iff, !Nat.ltb_lt, !Nat.eqb_eq.
  intros [Hlt | [-> Hk]].
  - destruct (Nat.lt_trichotomy x y) as [? | [-> | ?]]; [by auto | by auto |].
    right. left. lia.
  - destruct (Nat.lt_trichotomy z y) as [? | [-> | ?]]; [by auto | | by auto].
    destruct (IH k2 k3 Hk); auto.
Qed.

Lemma insert_newest_first_elem (x y : HeapDumpReport) (l : list HeapDumpReport) :
  y ∈ insert_newest_first x l <-> y = x \/ y ∈ l.
Proof.
  induction l as [|z l IH]; cbn [insert_newest_first].
  - rewrite list_elem_of_singleton, elem_of_nil. tauto.
  - destruct (datetime_ltb (timestamp x) (timestamp z)); rewrite !elem_of_cons, ?IH; tauto.
Qed.

Lemma insert_newest_first_perm (x : HeapDumpReport) (l : list HeapDumpReport) :
  insert_newest_first x l ≡ₚ x :: l.
Proof.
  induction l as [|z l IH]; cbn [insert_newest_first]; [done|].
  destruct (datetime_ltb (timestamp x) (timestamp z)); [|done].
  rewrite IH. apply Permutation_swap.
Qed.

Lemma insert_newest_first_sorted (x : HeapDumpReport) (l : list HeapDumpReport) :
  newest_first l -> newest_first (insert_newest_first x l).
Proof.
  unfold newest_first. induction 1 as [|z l Hl IH Hz]; cbn [insert_newest_first].
  - repeat constructor.
  - destruct (datetime_ltb (timestamp x) (timestamp z)) eqn:E.
    + constructor; [done|]. apply Forall_forall. intros y [-> | Hy]%insert_newest_first_elem.
      * by apply lex_ltb_asym.
      * rewrite Forall_forall in Hz. by apply Hz.
    + constructor; [by constructor|]. constructor; [done|].
      apply Forall_forall. intros y Hy. rewrite Forall_forall in Hz. specialize (Hz y Hy).
      destruct (datetime_ltb (timestamp x) (timestamp y)) eqn:E'; [|done].
      destruct (lex_ltb_cotrans _ (datetime_key (timestamp z)) _ E') as [H | H].
      * unfold datetime_ltb in E. congruence.
      * unfold datetime_ltb in Hz. congruence.
Qed.

Lemma sorted_newest_first_spec (l : list HeapDumpReport) :
  sorted_newest_first l ≡ₚ l /\ newest_first (sorted_newest_first l).
Proof.
  induction l as [|x l [IHp IHs]]; cbn [sorted_newest_first foldr].
  - split; [done | constructor].
  - split; [by rewrite insert_newest_first_perm, IHp | by apply insert_newest_first_sorted].
Qed.

(** Reports with the same timestamp keep the order they came in. *)
Lemma sorted_newest_first_stable (x y : HeapDumpReport) (l : list HeapDumpReport) :
  timestamp x = timestamp y ->
  insert_newest_first x (y :: l) = x :: y :: l.
Proof.
  intros Heq. cbn [insert_newest_first]. rewrite Heq.
  destruct (datetime_ltb (timestamp y) (timestamp y)) eqn:E; [|done].
  pose proof (lex_ltb_asym _ _ E). unfold datetime_ltb in E. congruence.
Qed.

(** The index page in a reachable state lists every stored record once
    and no other, the newest first: no record of the list has a
    timestamp, compared field by field from the year to the
    microsecond, that is older than the timestamp of a record listed
    after it. *)
Theorem index_newest_first (s : system) :
  reachable s ->
  index s ≡ₚ omap (observe s) (get_all_reports (reports s)) /\
  length (index s) = length (get_all_reports (reports s)) /\
  (forall r, r ∈ index s <->
     exists a, a ∈ get_all_reports (reports s) /\ observe s a = Some r) /\
  StronglySorted (fun r1 r2 => datetime_ltb (timestamp r1) (timestamp r2) = false)
    (index s).
Proof.
  intros Hs. destruct (sorted_newest_first_spec
                         (omap (observe s) (get_all_reports (reports s)))) as [Hp Hsorted].
  split; [done|]. split; [|split; [|done]].
  - unfold index. rewrite Hp.
    assert (Hall : forall a, a ∈ get_all_reports (reports s) -> is_Some (observe s a)).
    { intros a [id Hid]%elem_of_get_all_reports.
      destruct (inv_store _ (reachable_inv _ Hs) id a Hid) as (r & Hr & _). by exists r. }
    revert Hall. generalize (get_all_reports (reports s)). intros l.
    induction l as [|a l IH]; intros Hall; [done|]. cbn.
    destruct (Hall a) as [r ->]; [apply elem_of_cons; by left|]. cbn. f_equal.
    apply IH. intros b Hb. apply Hall, elem_of_cons. by right.
  - intros r. unfold index. rewrite Hp. rewrite list_elem_of_omap. done.
Qed.

(** ** When all threads have run *)

Lemma run_app (l1 l2 : list label) (s : system) : run (l1 ++ l2) s = run l2 (run l1 s).
Proof. unfold run. apply foldl_app. Qed.

Lemma run_inv (ls : list label) (s : system) : inv s -> inv (run ls s).
Proof.
  revert s. induction ls as [|l ls IH]; intros s Hs; [done|].
  cbn. by apply IH, step_inv.
Qed.

Lemma finished_stays (l : label) (s : system) (i : nat) (t : task) :
  inv s -> tasks s !! i = Some t -> t_pc t = Finished -> tasks (step l s) !! i = Some t.
Proof.
  intros Hinv Ht Hfin. destruct l as [event now | j env]; cbn [step].
  - unfold on_created. destruct (is_directory event); [done|].
    destruct (is_heap_dump _); [|done]. by apply lookup_app_l_Some.
  - unfold _background_process. destruct (tasks s !! j) as [tj|] eqn:Htj; [|done].
    destruct (inv_task _ Hinv j tj Htj) as (Hrep & r & Hr & _). rewrite Hrep, Hr.
    destruct (decide (j = i)) as [->|Hne].
    + assert (tj = t) as -> by congruence. by rewrite Hfin.
    + destruct (t_pc tj); try destruct (process_heap_dump _ _ _ _);
        cbn [tasks]; rewrite ?lookup_set_pc_ne by done; done.
Qed.

Lemma finished_stays_run (ls : list label) (s : system) (i : nat) (t : task) :
  inv s -> tasks s !! i = Some t -> t_pc t = Finished -> tasks (run ls s) !! i = Some t.
Proof.
  revert s. induction ls as [|l ls IH]; intros s Hinv Ht Hfin; [done|].
  cbn. apply IH; [by apply step_inv | by apply finished_stays | done].
Qed.

Lemma threads_run_lengths (ls : list label) (s : system) :
  Forall (fun l => accepted l = false) ls ->
  length (tasks (run ls s)) = length (tasks s) /\ length (heap (run ls s)) = length (heap s).
Proof.
  intros Hls. revert s. induction Hls as [|l ls Hl _ IH]; intros s; [done|].
  cbn [run foldl]. change (foldl _ (step l s) ls) with (run ls (step l s)).
  destruct (IH (step l s)) as [-> ->]. destruct (step_lengths l s) as [-> ->].
  rewrite Hl. lia.
Qed.

Lemma threads_run_dom (ls : list label) (s : system) :
  Forall (fun l => accepted l = false) ls -> dom (reports (run ls s)) = dom (reports s).
Proof.
  intros Hls. revert s. induction Hls as [|l ls Hl _ IH]; intros s; [done|].
  cbn [run foldl]. change (foldl _ (step l s) ls) with (run ls (step l s)).
  rewrite IH. destruct l as [event now | i env]; [|].
  - cbn [accepted] in Hl. cbn [step]. unfold on_created.
    destruct (is_directory event); [done|]. by destruct (is_heap_dump _).
  - cbn [step]. unfold _background_process.
    destruct (tasks s !! i) as [t|]; [|done].
    destruct (heap s !! t_report t) as [r|] eqn:Hr; [|done].
    destruct (t_pc t); try destruct (process_heap_dump _ _ _ _); try done.
    cbn [reports]. unfold update_report. rewrite Hr.
    case_bool_decide as Hin; [|done].
    rewrite dom_insert_L. apply elem_of_dom in Hin.
    by apply subseteq_union_1_L, singleton_subseteq_l.
Qed.

Lemma all_threads_finish (envs : nat -> run_env) (js : list nat) (s : system) :
  inv s -> (forall i, i ∈ js -> i < length (tasks s)) ->
  forall i, i ∈ js ->
  exists t, tasks (run (j ← js; replicate 8 (ThreadRuns j (envs j))) s) !! i = Some t /\
            t_pc t = Finished.
Proof.
  revert s. induction js as [|j js IH]; intros s Hinv Hjs i Hi; [by apply elem_of_nil in Hi|].
  cbn [mbind list_bind]. rewrite run_app.
  set (s1 := run (replicate 8 (ThreadRuns j (envs j))) s).
  assert (Hinv1 : inv s1) by by apply run_inv.
  assert (Hlen1 : length (tasks s1) = length (tasks s)).
  { apply threads_run_lengths. by apply Forall_replicate. }
  destruct (decide (i ∈ js)) as [Hin|Hnin].
  - apply (IH s1 Hinv1); [|done]. intros k Hk. rewrite Hlen1. apply Hjs, elem_of_cons. by right.
  - apply elem_of_cons in Hi as [->|Hi]; [|done].
    destruct (lookup_lt_is_Some_2 (tasks s) j) as [t Ht]; [apply Hjs, elem_of_cons; by left|].
    destruct (thread_finishes s j (envs j) 8 Hinv t Ht) as (t' & Ht' & Hfin).
    { destruct (t_pc t); cbn; lia. }
    exists t'. split; [|done]. by apply finished_stays_run.
Qed.

Lemma filter_none {A} (f : A -> bool) (l : list A) :
  (forall a, a ∈ l -> f a = false) -> List.filter f l = [].
Proof.
  induction l as [|x l IH]; intros Hf; [done|]. cbn.
  rewrite (Hf x) by (apply elem_of_cons; by left).
  apply IH. intros a Ha. apply Hf, elem_of_cons. by right.
Qed.

(** Once every thread has been given the eight steps of its body, no
    record is left ['processing']: from any reachable state, whatever
    the analyzer does for each file, all threads are finished, every
    record is ['completed'] or ['failed'], the summary counts no
    ['processing'] record, and no record or id was added or lost. *)
Theorem all_records_settle (envs : nat -> run_env) (s : system) :
  reachable s ->
  let s' := run_all_threads envs s in
  (forall i, i < length (tasks s) ->
     exists t, tasks s' !! i = Some t /\ t_pc t = Finished) /\
  (forall a r, observe s' a = Some r ->
     status r = lit "completed" \/ status r = lit "failed") /\
  processing (get_status (fun _ => s')) = 0 /\
  completed (get_status (fun _ => s')) + failed (get_status (fun _ => s'))
    = total_reports (get_status (fun _ => s')) /\
  length (heap s') = length (heap s) /\
  dom (reports s') = dom (reports s).
Proof.
  intros Hs s'. pose proof (reachable_inv _ Hs) as Hinv.
  assert (Hs' : reachable s') by by apply reachable_run.
  pose proof (reachable_inv _ Hs') as Hinv'.
  assert (Hthreads : Forall (fun l => accepted l = false)
            (j ← seq 0 (length (tasks s)); replicate 8 (ThreadRuns j (envs j)))).
  { apply Forall_forall. intros l (j & Hl & _)%list_elem_of_bind.
    apply elem_of_replicate in Hl as [-> _]. done. }
  destruct (threads_run_lengths _ s Hthreads) as [Hlt Hlh].
  assert (Hfin : forall i, i < length (tasks s) ->
            exists t, tasks s' !! i = Some t /\ t_pc t = Finished).
  { intros i Hi. apply all_threads_finish; [done | |].
    - intros k Hk%elem_of_seq. lia.
    - apply elem_of_seq. lia. }
  assert (Hterm : forall a r, observe s' a = Some r -> terminal (status r)).
  { intros a r Hr. unfold observe in Hr.
    assert (a < length (tasks s)) as Hlt'.
    { apply lookup_lt_Some in Hr. unfold s', run_all_threads in Hr.
      rewrite Hlh, <- (inv_len _ Hinv) in Hr. done. }
    destruct (Hfin a Hlt') as (t & Ht & Hpc).
    destruct (inv_task _ Hinv' a t Ht) as (_ & r' & Hr' & Hinvpc).
    assert (r' = r) as -> by congruence. rewrite Hpc in Hinvpc. by destruct Hinvpc. }
  assert (Hzero : processing (get_status (fun _ => s')) = 0).
  { cbn [get_status processing]. unfold count_status.
    rewrite filter_none; [done|].
    intros a [id Hid]%elem_of_get_all_reports.
    destruct (inv_store _ Hinv' id a Hid) as (r & Hr & _). unfold holds. rewrite Hr.
    apply bool_decide_eq_false.
    by apply terminal_not_processing, (Hterm a). }
  split; [done|]. split; [apply Hterm|]. split; [done|]. split; [|split; [done|]].
  - pose proof (reachable_status s') as Hst.
    assert (Hsum : processing (get_status (fun _ => s')) + completed (get_status (fun _ => s'))
                   + failed (get_status (fun _ => s')) = total_reports (get_status (fun _ => s'))).
    { cbn [get_status processing completed failed total_reports]. unfold count_status.
      apply count_three. apply Forall_forall.
      intros a [id Hid]%elem_of_get_all_reports.
      destruct (inv_store _ Hinv' id a Hid) as (r & Hr & _). unfold holds. rewrite Hr.
      destruct (Hst a r Hinv' Hr) as [-> | [-> | ->]]; auto. }
    lia.
  - by apply threads_run_dom.
Qed.

(** ** Where the machine name sits in the filename *)

Lemma re_match_before_None_inv (c : ascii) (f : str) :
  re_match (pat_before c) f = None -> no_token_before c f.
Proof.
  intros Hnone tok rest -> Hc. destruct tok as [|x tok]; [done|].
  rewrite re_match_before in Hnone; done.
Qed.

Lemma no_token_before_leads (c : ascii) (f : str) :
  no_token_before c f -> c ∈ f -> exists f', f = c :: f'.
Proof.
  intros Hno (l1 & l2 & -> & Hl1)%list_elem_of_split_l.
  rewrite (Hno l1 l2 eq_refl Hl1). by exists l2.
Qed.

(** The machine name is always cut out of the filename in one piece: it
    is the beginning of the filename, or, for a filename that starts
    with an underscore, a text without underscores that stands between
    two of its underscores.  So it has no character the filename does
    not have, and it contains an underscore only when the filename
    starts with one. *)
Theorem machine_name_in_filename (f : str) :
  ((exists post, f = _extract_machine_name f ++ post) \/
   (exists f' pre post,
      f = underscore :: f' /\
      f = pre ++ underscore :: _extract_machine_name f ++ underscore :: post /\
      underscore ∉ _extract_machine_name f)) /\
  (forall c, c ∈ _extract_machine_name f -> c ∈ f) /\
  (underscore ∈ _extract_machine_name f -> exists f', f = underscore :: f').
Proof.
  assert (Hfirst :
    ((exists post, f = _extract_machine_name f ++ post) /\
     (underscore ∈ _extract_machine_name f -> exists f', f = underscore :: f')) \/
    (exists f' pre post,
       f = underscore :: f' /\
       f = pre ++ underscore :: _extract_machine_name f ++ underscore :: post /\
       underscore ∉ _extract_machine_name f)).
  { unfold _extract_machine_name. rewrite first_match_patterns.
    destruct (re_match (pat_before underscore) f) as [gs|] eqn:E1.
    { apply re_match_before_inv in E1 as (tok & rest & -> & Hf & _ & Hc).
      left. split; [by exists (underscore :: rest)|]. intros Hin. by destruct Hc. }
    apply re_match_before_None_inv in E1.
    assert (Hlead : forall m, (exists post, f = m ++ post) -> underscore ∈ m ->
              exists f', f = underscore :: f').
    { intros m [post Hm] Hin. apply (no_token_before_leads _ _ E1).
      rewrite Hm. apply elem_of_app. by left. }
    destruct (re_match pat_prefix_machine_suffix f) as [gs|] eqn:E2.
    { apply re_match_prefix_machine_suffix_inv in E2
        as (pre & tok & rest & -> & Hf & _ & Hc & _).
      right. destruct (no_token_before_leads _ _ E1) as [f' Hf'].
      { rewrite Hf. apply elem_of_middle. }
      by exists f', pre, rest. }
    destruct (re_match (pat_before dot) f) as [gs|] eqn:E3.
    { apply re_match_before_inv in E3 as (tok & rest & -> & Hf & _ & Hc).
      left. cbn [group1 hd].
      assert (exists post, f = tok ++ post) by by exists (dot :: rest).
      split; [done|]. by apply Hlead. }
    left. split; [apply splitext_fst_prefix|]. apply Hlead, splitext_fst_prefix. }
  split; [|split].
  - destruct Hfirst as [[H _] | H]; [by left | by right].
  - intros c Hc. destruct Hfirst as [[[post Hp] _] | (f' & pre & post & _ & Hp & _)];
      rewrite Hp.
    + apply elem_of_app. by left.
    + apply elem_of_app. right. apply elem_of_cons. right. apply elem_of_app. by left.
  - intros Hin. destruct Hfirst as [[_ H] | (f' & _ & _ & Hf & _ & Hc)]; [by apply H|].
    by destruct Hc.
Qed.

(** * Further scenarios, checked *)

Lemma reachable_three_files : reachable three_files.
Proof. apply reachable_run, reachable_initial. Qed.

Lemma reachable_finished : reachable finished.
Proof. apply reachable_run, reachable_submitted. Qed.

Lemma reachable_before_write_back : reachable before_write_back.
Proof. apply reachable_run, reachable_submitted. Qed.

Lemma valid_example_now : valid_datetime example_now.
Proof. unfold valid_datetime. cbn. lia. Qed.

(** Two reports of [web01] within one second, and one a second later. *)
Lemma report_id_collision_witness :
  let r1 := new_report (lit "/dump/web01_1.hprof") example_now in
  let r2 := new_report (lit "/dump/web01_2.hprof") (mkDatetime 2024 3 1 9 5 7 990) in
  valid_datetime (timestamp r1) /\ valid_datetime (timestamp r2) /\
  1000 <= year (timestamp r1) /\ 1000 <= year (timestamp r2) /\
  report_id r1 = report_id r2 /\ length (report_id r1) = 5 + 16.
Proof.
  cbv zeta.
  assert (H2 : valid_datetime (mkDatetime 2024 3 1 9 5 7 990))
    by (unfold valid_datetime; cbn; lia).
  assert (Hy1 : 1000 <= year (timestamp (new_report (lit "/dump/web01_1.hprof") example_now)))
    by (cbn; lia).
  assert (Hy2 : 1000 <= year (timestamp (new_report (lit "/dump/web01_2.hprof")
                                           (mkDatetime 2024 3 1 9 5 7 990))))
    by (cbn; lia).
  split; [exact valid_example_now|]. split; [exact H2|].
  split; [exact Hy1|]. split; [exact Hy2|].
  destruct (report_id_collision (new_report (lit "/dump/web01_1.hprof") example_now)
              (new_report (lit "/dump/web01_2.hprof") (mkDatetime 2024 3 1 9 5 7 990))
              valid_example_now H2 Hy1 Hy2) as (Hiff & Hlen & _).
  split; [|exact Hlen]. apply Hiff. repeat split.
Defined.

(** The submitted record after its thread and two more submissions. *)
Lemma detection_attributes_kept_witness :
  reachable submitted /\
  exists r', heap (run [ThreadRuns 0 env_completed; ThreadRuns 0 env_completed;
                        FileCreated example_event (mkDatetime 2024 3 1 9 5 8 0);
                        ThreadRuns 0 env_completed] submitted) !! 0 = Some r' /\
    machine_name r' = lit "web01" /\ timestamp r' = example_now /\
    filename r' = lit "web01_1.hprof" /\ file_path r' = lit "/dump/web01_1.hprof" /\
    report_id r' = lit "web01_20240301_090507".
Proof.
  split; [exact reachable_submitted|].
  exact (detection_attributes_kept submitted _ 0
           (new_report (lit "/dump/web01_1.hprof") example_now)
           reachable_submitted eq_refl).
Defined.

(** The thread of the second of three files runs; the first is untouched. *)
Lemma thread_isolation_witness :
  reachable three_files /\
  heap (step (ThreadRuns 1 env_timeout) three_files) !! 0 = heap three_files !! 0 /\
  tasks (step (ThreadRuns 1 env_timeout) three_files) !! 0 = tasks three_files !! 0.
Proof.
  split; [exact reachable_three_files|].
  apply (proj1 (thread_isolation three_files (ThreadRuns 1 env_timeout) 0
                  reachable_three_files) 1 env_timeout eq_refl).
  discriminate.
Defined.

(** The record whose status has just been assigned: completed, and no
    error message. *)
Lemma result_attributes_discipline_witness :
  reachable status_assigned /\
  exists r, heap status_assigned !! 0 = Some r /\
    (is_Some (error_message r) -> status r = lit "failed") /\
    (status r = lit "processing" -> suspects_report r = None).
Proof.
  split; [apply reachable_run, reachable_submitted|].
  eexists. split; [reflexivity|].
  destruct (result_attributes_discipline status_assigned 0 _
              (reachable_run _ _ reachable_submitted) eq_refl) as (_ & Hp & _ & He).
  split; [exact He|]. intros H. exact (proj1 (Hp H)).
Defined.

Lemma finished_report_stored : heap finished !! 0 = Some finished_report.
Proof. by vm_compute. Qed.

(** The leak suspects path of the finished record. *)
Lemma stored_artifact_paths_witness :
  reachable finished /\ heap finished !! 0 = Some finished_report /\
  lit "/dump/web01_1_Leak_Suspects.html" =
    posixpath.join (posixpath.dirname (file_path finished_report))
      ((posixpath.splitext (filename finished_report)).1 ++ lit "_Leak_Suspects.html").
Proof.
  split; [exact reachable_finished|]. split; [exact finished_report_stored|].
  apply (proj1 (stored_artifact_paths finished 0 finished_report reachable_finished
                  finished_report_stored) (lit "/dump/web01_1_Leak_Suspects.html")).
  reflexivity.
Defined.

(** The second of the three files. *)
Lemma record_provenance_witness :
  reachable three_files /\
  exists r, heap three_files !! 1 = Some r /\
    is_heap_dump (file_path r) = true /\ machine_name r <> [] /\
    filename r = posixpath.basename (file_path r).
Proof.
  split; [exact reachable_three_files|].
  eexists. split; [reflexivity|].
  destruct (record_provenance three_files 1 _ reachable_three_files eq_refl)
    as (H1 & H2 & _ & _ & _ & H3 & _).
  split; [exact H1|]. split; [exact H3 | exact H2].
Defined.

(** The store operations on the report of the submitted file, from the
    empty store. *)
Lemma report_manager_operations_witness :
  heap submitted !! 0 = Some (new_report (lit "/dump/web01_1.hprof") example_now) /\
  get_report_by_id (add_report (heap submitted) ∅ 0) (lit "web01_20240301_090507") = Some 0 /\
  update_report (heap submitted) (add_report (heap submitted) ∅ 0) 0
    = add_report (heap submitted) ∅ 0 /\
  dom (update_report (heap submitted) ∅ 0) = dom (∅ : gmap str addr).
Proof.
  split; [reflexivity|].
  destruct (report_manager_operations (heap submitted) ∅ 0 _ eq_refl)
    as (H1 & _ & H2 & _ & _ & H3 & _).
  split; [exact H1|]. split; [exact H2 | exact H3].
Defined.

Lemma store_consistency_witness :
  reachable three_files /\
  NoDup (get_all_reports (reports three_files)) /\
  length (get_all_reports (reports three_files)) <= length (heap three_files).
Proof.
  split; [exact reachable_three_files|].
  destruct (store_consistency three_files reachable_three_files) as (_ & _ & H1 & H2 & _).
  split; [exact H1 | exact H2].
Defined.

Lemma write_back_lands_witness :
  reachable before_write_back /\
  get_report_by_id (reports (step (ThreadRuns 0 env_completed) before_write_back))
    (report_id finished_report) = Some 0.
Proof.
  split; [exact reachable_before_write_back|].
  assert (Ht : tasks before_write_back !! 0 =
               Some {| t_report := 0;
                       t_pc := AtUpdate (mkResult (lit "completed")
                                 (Some (lit "/dump/web01_1_Leak_Suspects.html")) None None
                                 (Some (inject_Z 12))) |})
    by (vm_compute; reflexivity).
  assert (Hr : heap before_write_back !! 0 = Some finished_report)
    by (vm_compute; reflexivity).
  exact (proj1 (write_back_lands before_write_back 0 env_completed _ _ finished_report
                  reachable_before_write_back Ht eq_refl Hr)).
Defined.

Lemma get_reports_by_machine_exact_witness :
  reachable three_files /\
  get_reports_by_machine (heap three_files) (reports three_files) [] = [] /\
  NoDup (get_reports_by_machine (heap three_files) (reports three_files) (lit "db02")).
Proof.
  split; [exact reachable_three_files|].
  destruct (get_reports_by_machine_exact three_files (lit "db02") reachable_three_files)
    as (_ & _ & H1 & H2).
  split; [exact H1 | exact H2].
Defined.

(** The first of the three files is found under [web01] and under
    [2024-03-01]. *)
Lemma listed_record_is_found_witness :
  reachable three_files /\
  0 ∈ get_reports_by_machine (heap three_files) (reports three_files) (lit "web01") /\
  0 ∈ get_reports_by_date (heap three_files) (reports three_files) (lit "2024-03-01").
Proof.
  split; [exact reachable_three_files|].
  assert (Hin : 0 ∈ get_all_reports (reports three_files)).
  { apply elem_of_get_all_reports. exists (lit "web01_20240301_090507"). reflexivity. }
  destruct (listed_record_is_found three_files 0
              (new_report (lit "/dump/web01_1.hprof") example_now)
              reachable_three_files Hin eq_refl valid_example_now) as (H1 & H2 & _).
  split; [exact H1 | exact H2].
Defined.

(** The routes on the finished record while only its suspects file
    exists, where [send_file] is called, and on an id that was never
    stored. *)
Lemma report_routes_witness :
  reachable finished /\
  get_suspects_report (exists_on_disk env_completed) finished (lit "web01_20240301_090507")
    = send_file (lit "/dump/web01_1_Leak_Suspects.html") /\
  get_overview_report (exists_on_disk env_completed) finished (lit "nothing")
    = NotFound (lit "Overview report not found").
Proof.
  split; [exact reachable_finished|].
  split.
  - apply (proj1 (report_routes (exists_on_disk env_completed) finished
                    (lit "web01_20240301_090507") reachable_finished)).
    exists 0, finished_report. split; [by vm_compute|].
    split; [exact finished_report_stored|]. split; reflexivity.
  - apply (proj2 (proj2 (proj2 (proj2 (proj2
             (report_routes (exists_on_disk env_completed) finished (lit "nothing")
                reachable_finished)))))).
    left. reflexivity.
Defined.

Lemma index_newest_first_witness :
  reachable three_files /\
  length (index three_files) = 3 /\
  StronglySorted (fun r1 r2 => datetime_ltb (timestamp r1) (timestamp r2) = false)
    (index three_files).
Proof.
  split; [exact reachable_three_files|].
  destruct (index_newest_first three_files reachable_three_files) as (_ & H1 & _ & H2).
  split; [exact H1 | exact H2].
Defined.

(** The three files after all their threads have run: one completed, two
    timed out. *)
Lemma all_records_settle_witness :
  let envs := fun i => if i =? 0 then env_completed else env_timeout in
  reachable three_files /\
  processing (get_status (fun _ => run_all_threads envs three_files)) = 0 /\
  length (heap (run_all_threads envs three_files)) = 3.
Proof.
  cbv zeta. split; [exact reachable_three_files|].
  destruct (all_records_settle (fun i => if i =? 0 then env_completed else env_timeout)
              three_files reachable_three_files) as (_ & _ & H1 & _ & H2 & _).
  split; [exact H1 | exact H2].
Defined.

(** What the scenarios evaluate to. *)
Lemma further_scenarios :
  machine_name <$> index three_files = [lit "db02"; lit "db02"; lit "web01"] /\
  timestamp <$> index three_files =
    [mkDatetime 2024 3 2 0 0 0 0; mkDatetime 2024 3 1 23 59 59 0; example_now] /\
  get_status (fun _ => run_all_threads
                         (fun i => if i =? 0 then env_completed else env_timeout) three_files)
    = {| total_reports := 3; processing := 0; completed := 1; failed := 2 |} /\
  get_suspects_report (fun _ => true) submitted (lit "web01_20240301_090507")
    = NotFound (lit "Suspects report not found") /\
  get_suspects_report (fun _ => false) finished (lit "web01_20240301_090507")
    = NotFound (lit "Suspects report not found") /\
  get_overview_report (fun _ => true) finished (lit "web01_20240301_090507")
    = NotFound (lit "Overview report not found").
Proof. repeat split; by vm_compute. Qed.
